(** * Invoice extraction pipeline: a shallow embedding and its properties

    The development follows the Python sources
      - [dags/invoice_extraction_v3.py]      (batching, extraction, validation,
                                              persistence, file moves),
      - [include/validators/invoice_models.py] (the pydantic models),
      - [include/llm/*.py]                   (providers, prices, the factory).

    Python values are embedded as an inductive type of JSON-like values,
    dictionaries as finite maps with string keys, [float] as IEEE-754 binary64
    (Rocq's primitive floats, which round to nearest-even like CPython),
    [int] as [Z], and exceptions as an error monad.  External collaborators
    (the pydantic coercions, the LLM vendor, the object store, the database
    server, the clock) are parameters gathered in classes. *)

From Stdlib Require Import ZArith Floats Ascii String.
From stdpp Require Import gmap strings pretty list fin_maps.

Set Warnings "-inexact-float,-register-all,-clear-no-such-hyp".
Open Scope Z_scope.

(** ** Exceptions and the error monad *)

Inductive exn :=
| ValueError (msg : string)
| RuntimeError (msg : string)
| IndexError
| KeyError (key : string)
| AttributeError (msg : string)
| OverflowError
| OtherError (msg : string).

Inductive result (A : Type) :=
| Ok (a : A)
| Raise (e : exn).
Arguments Ok {A} a.
Arguments Raise {A} e.

Definition bind {A B} (r : result A) (k : A -> result B) : result B :=
  match r with
  | Ok a => k a
  | Raise e => Raise e
  end.

Notation "x <~ r ;; k" := (bind r (fun x => k))
  (at level 100, r at next level, right associativity).

(** ** Python built-ins used by the sources *)

Module Py.

(** [range(start, stop, step)]: a zero step raises, a negative one counts
    down. *)
Definition range_len (start stop step : Z) : Z :=
  if 0 <? step then
    (if start <? stop then (stop - start + step - 1) / step else 0)
  else
    (if stop <? start then (start - stop - step - 1) / (- step) else 0).

Definition range (start stop step : Z) : result (list Z) :=
  if step =? 0 then Raise (ValueError "range() arg 3 must not be zero")
  else Ok (map (fun k => start + Z.of_nat k * step)
               (seq 0 (Z.to_nat (range_len start stop step)))).

(** Slice bounds: negative indices count from the end, everything is
    clamped to [0, len]. *)
Definition clamp (len i : Z) : Z :=
  if i <? 0 then Z.max (i + len) 0 else Z.min i len.

(** [l[i:j]] *)
Definition slice {A} (l : list A) (i j : Z) : list A :=
  let len := Z.of_nat (length l) in
  let i' := clamp len i in
  let j' := clamp len j in
  take (Z.to_nat (j' - i')) (drop (Z.to_nat i') l).

End Py.

(** ** Batcher ([create_batches]) *)

Definition create_batches {A} (file_keys : list A) (batch_size : Z)
  : result (list (list A)) :=
  match file_keys with
  | [] => Ok []
  | _ :: _ =>
      idx <~ Py.range 0 (Z.of_nat (length file_keys)) batch_size ;;
      Ok (map (fun i => Py.slice file_keys i (i + batch_size)) idx)
  end.

(** The sizes a list of [n] elements is cut into: full groups, then the
    remainder if any. *)
Definition batch_sizes (n size : Z) : list Z :=
  replicate (Z.to_nat (n / size)) size ++
  (if n mod size =? 0 then [] else [n mod size]).

(** The [k]-th group of width [b]. *)
Definition group {A} (b : nat) (l : list A) (k : nat) : list A :=
  take b (drop (k * b) l).

(** ** Strings

    [str] methods used by the sources, on ASCII text. *)

Module Str.

Definition lower_char (c : ascii) : ascii :=
  let n := nat_of_ascii c in
  if ((65 <=? n) && (n <=? 90))%nat then ascii_of_nat (n + 32) else c.

(** [s.lower()] *)
Fixpoint lower (s : string) : string :=
  match s with
  | EmptyString => EmptyString
  | String c s' => String (lower_char c) (lower s')
  end.

(** Whitespace removed by [strip()]: tab, line feed, vertical tab, form
    feed, carriage return, the four separators 28-31 and the space. *)
Definition is_space (c : ascii) : bool :=
  let n := nat_of_ascii c in
  (((9 <=? n) && (n <=? 13)) || ((28 <=? n) && (n <=? 32)))%nat.

Fixpoint lstrip (s : string) : string :=
  match s with
  | EmptyString => EmptyString
  | String c s' => if is_space c then lstrip s' else s
  end.

(** [s.strip()] *)
Definition strip (s : string) : string :=
  String.rev (lstrip (String.rev (lstrip s))).

Fixpoint split_go (sep : ascii) (cur : string) (s : string) : list string :=
  match s with
  | EmptyString => [String.rev cur]
  | String c s' =>
      if Ascii.eqb c sep then String.rev cur :: split_go sep EmptyString s'
      else split_go sep (String c cur) s'
  end.

(** [s.split(sep)] for a one-character separator. *)
Definition split (sep : ascii) (s : string) : list string :=
  split_go sep EmptyString s.

(** [s.startswith(prefix)] *)
Fixpoint startswith (prefix s : string) : bool :=
  match prefix with
  | EmptyString => true
  | String a prefix' =>
      match s with
      | EmptyString => false
      | String b s' => Ascii.eqb a b && startswith prefix' s'
      end
  end.

(** [s.replace(old, new)]: every non-overlapping occurrence, leftmost
    first.  [skip] counts the characters of a match still to be dropped. *)
Fixpoint replace_go (old new : string) (skip : nat) (s : string) : string :=
  match s with
  | EmptyString => EmptyString
  | String c s' =>
      match skip with
      | S k => replace_go old new k s'
      | O =>
          if startswith old s
          then new ++ replace_go old new (String.length old - 1) s'
          else String c (replace_go old new 0 s')
      end
  end.

Fixpoint intersperse (new : string) (s : string) : string :=
  match s with
  | EmptyString => new
  | String c s' => new ++ String c (intersperse new s')
  end.

Definition replace (old new s : string) : string :=
  match old with
  | EmptyString => intersperse new s
  | String _ _ => replace_go old new 0 s
  end.

End Str.

(** ** Floats and integers *)

(** [float(n)] for a Python [int]: rounded to nearest-even; an integer beyond
    the binary64 range raises [OverflowError]. *)
Definition float_of_int (n : Z) : result float :=
  let f := SF2Prim (binary_normalize prec emax n 0 false) in
  if is_infinity f then Raise OverflowError else Ok f.

(** ** Python values

    What [json.loads] produces, which is also what the stages pass around. *)

Inductive value :=
| VNone
| VBool (b : bool)
| VInt (n : Z)
| VFloat (f : float)
| VStr (s : string)
| VList (l : list value)
| VDict (d : gmap string value).

Abbreviation dict := (gmap string value).

(** Truth value of an object ([if not x]). *)
Definition truthy (v : value) : bool :=
  match v with
  | VNone => false
  | VBool b => b
  | VInt n => negb (n =? 0)
  | VFloat f => negb (f =? 0)%float
  | VStr s => negb (String.eqb s "")
  | VList l => match l with [] => false | _ => true end
  | VDict d => negb (bool_decide (d = ∅))
  end.

(** [type(v).__name__] *)
Definition type_name (v : value) : string :=
  match v with
  | VNone => "NoneType"
  | VBool _ => "bool"
  | VInt _ => "int"
  | VFloat _ => "float"
  | VStr _ => "str"
  | VList _ => "list"
  | VDict _ => "dict"
  end.

(** [v == s] for a string literal [s]. *)
Definition eq_str (v : option value) (s : string) : bool :=
  match v with
  | Some (VStr s') => String.eqb s' s
  | _ => false
  end.

(** [d[key]] *)
Definition subscript (d : dict) (key : string) : result value :=
  match d !! key with
  | Some v => Ok v
  | None => Raise (KeyError key)
  end.

(** [d.get(key, default)] *)
Definition get_default (d : dict) (key : string) (default : value) : value :=
  from_option id default (d !! key).

(** A [datetime.datetime] object. *)
Record datetime := {
  year : Z; month : Z; day : Z;
  hour : Z; minute : Z; second : Z; microsecond : Z;
  utcoffset : option Z   (* seconds east of UTC; [None] for a naive value *)
}.

(** ** The Python runtime and the clock

    Library functions whose results the sources only pass along: float
    formatting, ISO-8601 parsing and printing, JSON.  They are parameters of
    the development. *)
Class Runtime := {
  show_float : float -> string;          (* [f"{x}"] *)
  show_float_2f : float -> string;       (* [f"{x:.2f}"] *)
  fromisoformat : string -> option datetime;
  isoformat : datetime -> string;
  timestamp : datetime -> float;         (* [dt.timestamp()] *)
  json_dumps : value -> string;
  json_loads : string -> result value
}.

(** [datetime.now()]: the readings of the wall clock, in the order they are
    taken. *)
Class Clock := { now : nat -> datetime }.

(** [str(e)] *)
Definition str_exn (e : exn) : string :=
  match e with
  | ValueError m | RuntimeError m | AttributeError m | OtherError m => m
  | IndexError => "tuple index out of range"
  | KeyError k => ("'" ++ k ++ "'")%string
  | OverflowError => "int too large to convert to float"
  end.

(** ** LLM providers ([include/llm]) *)

Module Llm.

(** The concrete subclasses of [BaseLLMProvider]. *)
Inductive vendor := OpenAI | Anthropic | Gemini.

(** [{"input": .., "output": ..}], dollars per million tokens. *)
Record pricing := { input : float; output : float }.

(** Instance attributes set by [BaseLLMProvider.__init__]. *)
Record provider := {
  vendor_of : vendor;
  api_key : option string;
  model : string;
  temperature : float;
  max_tokens : Z
}.

(** [self.__class__.__name__.replace("Provider", "").lower()] *)
Definition class_name (v : vendor) : string :=
  match v with
  | OpenAI => "OpenAIProvider"
  | Anthropic => "AnthropicProvider"
  | Gemini => "GeminiProvider"
  end.

Definition provider_name (p : provider) : string :=
  Str.lower (Str.replace "Provider" "" (class_name (vendor_of p))).

(** The [pricing_map] literal of each [_get_pricing]. *)
Definition pricing_map (v : vendor) : gmap string pricing :=
  match v with
  | OpenAI =>
      list_to_map
        [("gpt-4o", {| input := 2.50; output := 10.00 |});
         ("gpt-4o-mini", {| input := 0.15; output := 0.60 |});
         ("gpt-4-turbo", {| input := 10.00; output := 30.00 |})]
  | Anthropic =>
      list_to_map
        [("claude-3-opus-20240229", {| input := 15.00; output := 75.00 |});
         ("claude-3-sonnet-20240229", {| input := 3.00; output := 15.00 |});
         ("claude-3-haiku-20240307", {| input := 0.25; output := 1.25 |})]
  | Gemini =>
      list_to_map
        [("gemini-1.5-flash", {| input := 0.0; output := 0.0 |});
         ("gemini-1.5-pro", {| input := 1.25; output := 5.00 |})]
  end%float.

(** The second argument of [pricing_map.get(self.model, ...)]. *)
Definition default_pricing (v : vendor) : pricing :=
  match v with
  | OpenAI => {| input := 0.15; output := 0.60 |}
  | Anthropic => {| input := 0.25; output := 1.25 |}
  | Gemini => {| input := 0.0; output := 0.0 |}
  end%float.

Definition _get_pricing (self : provider) : pricing :=
  from_option id (default_pricing (vendor_of self))
              (pricing_map (vendor_of self) !! model self).

(** [BaseLLMProvider._calculate_cost] *)
Definition _calculate_cost (self : provider) (input_tokens output_tokens : Z)
  : result float :=
  let pricing := _get_pricing self in
  i <~ float_of_int input_tokens ;;
  o <~ float_of_int output_tokens ;;
  Ok ((i * input pricing + o * output pricing) / 1000000)%float.

(** *** Vendor SDKs

    What the vendor libraries do is outside the sources: whether a client
    can be built from a key and a model, and what a request returns.  A
    reply may depend on the requests issued before it. *)

Record usage := {
  text : string;
  prompt_tokens : Z;
  completion_tokens : Z;
  total_tokens : Z;
  elapsed : float   (* [time.time() - start_time], seconds *)
}.

(** A request: the system instruction and the user prompt. *)
Definition request : Type := string * string.

Class Sdk := {
  client_init : vendor -> option string -> string -> option exn;
  send : provider -> list request -> request -> result usage
}.

Record LLMResponse := {
  content : string;
  provider_ : string;
  model_ : string;
  tokens_used : Z;
  cost : float;
  latency_ms : float;
  confidence : float
}.

Definition nl : string := String "010" EmptyString.

(** The user prompt; the text is cut at 3500 characters.  OpenAI passes
    the system prompt as a separate message, the two others prepend it. *)
Definition user_prompt `{Runtime} (v : vendor) (pdf_text system_prompt : string)
    (invoice_schema : value) : string :=
  let body :=
    ("Extract from this UberEats invoice:" ++ nl ++ nl
     ++ String.substring 0 3500 pdf_text ++ nl ++ nl
     ++ "Return JSON matching: " ++ json_dumps invoice_schema)%string in
  match v with
  | OpenAI => body
  | Anthropic | Gemini => (system_prompt ++ nl ++ nl ++ body)%string
  end.

(** [extract_invoice_data], with the requests issued so far threaded
    through. *)
Definition extract_invoice_data `{Runtime} `{Sdk} (self : provider)
    (pdf_text system_prompt : string) (invoice_schema : value)
    (sent : list request) : result LLMResponse * list request :=
  let v := vendor_of self in
  let req :=
    (match v with OpenAI => system_prompt | _ => EmptyString end,
     user_prompt v pdf_text system_prompt invoice_schema) in
  let sent' := sent ++ [req] in
  (response <~ send self sent req ;;
   let latency_ms := (elapsed response * 1000)%float in
   c <~ _calculate_cost self (prompt_tokens response) (completion_tokens response) ;;
   Ok {| content := text response;
         provider_ := match v with
                      | OpenAI => "openai"
                      | Anthropic => "anthropic"
                      | Gemini => "gemini"
                      end;
         model_ := model self;
         tokens_used := match v with
                        | OpenAI => total_tokens response
                        | _ => prompt_tokens response + completion_tokens response
                        end;
         cost := c;
         latency_ms := latency_ms;
         confidence := 1.0 |},
   sent').

(** *** The factory ([provider_factory.py]) *)

Abbreviation environ := (gmap string string).

(** [a or b] on optional strings: [None] and the empty string are falsy. *)
Definition or_else (a b : option string) : option string :=
  match a with
  | Some s => if String.eqb s "" then b else a
  | None => b
  end.

Definition or_str (a : option string) (b : string) : string :=
  match a with
  | Some s => if String.eqb s "" then b else s
  | None => b
  end.

(** Subclass constructor: the base attributes, then the vendor client. *)
Definition new_provider `{Sdk} (v : vendor) (api_key : option string)
    (model : string) : result provider :=
  match client_init v api_key model with
  | Some e => Raise e
  | None =>
      Ok {| vendor_of := v; api_key := api_key; model := model;
            temperature := 0.1; max_tokens := 1500 |}
  end.

Definition create_provider `{Sdk} (env : environ) (provider_type : string)
    (api_key model : option string) : result provider :=
  let provider_type := Str.lower provider_type in
  if String.eqb provider_type "openai" then
    let api_key := or_else api_key (env !! "OPENAI_API_KEY") in
    let model := or_str model (default "gpt-4o-mini" (env !! "OPENAI_MODEL")) in
    new_provider OpenAI api_key model
  else if String.eqb provider_type "anthropic" then
    let api_key := or_else api_key (env !! "ANTHROPIC_API_KEY") in
    let model := or_str model (default "claude-3-haiku-20240307" (env !! "ANTHROPIC_MODEL")) in
    new_provider Anthropic api_key model
  else if String.eqb provider_type "gemini" then
    let api_key := or_else api_key (env !! "GEMINI_API_KEY") in
    let model := or_str model (default "gemini-1.5-flash" (env !! "GEMINI_MODEL")) in
    new_provider Gemini api_key model
  else Raise (ValueError ("Unsupported provider: " ++ provider_type)).

(** What [create_with_fallback] writes to the log. *)
Inductive log_event :=
| Initialized (provider_type : string)
| InitFailed (provider_type : string) (e : exn).

(** The provider type an event is about. *)
Definition attempted (e : log_event) : string :=
  match e with
  | Initialized c => c
  | InitFailed c _ => c
  end.

Definition candidates (primary_provider : string) (fallback_order : list string)
  : list string :=
  primary_provider
    :: map Str.strip
         (filter (fun p => Str.strip p <> primary_provider) fallback_order).

(** The [for provider_type in all_providers] loop. *)
Fixpoint fallback_loop `{Sdk} (env : environ) (api_key model : option string)
    (all_providers : list string)
    (providers : list provider) (tried_providers : gset string)
    (log : list log_event) : list provider * list log_event :=
  match all_providers with
  | [] => (providers, log)
  | provider_type :: rest =>
      if decide (provider_type ∈ tried_providers) then
        fallback_loop env api_key model rest providers tried_providers log
      else
        match create_provider env provider_type api_key model with
        | Ok p =>
            fallback_loop env api_key model rest (providers ++ [p])
              ({[provider_type]} ∪ tried_providers)
              (log ++ [Initialized provider_type])
        | Raise e =>
            fallback_loop env api_key model rest providers tried_providers
              (log ++ [InitFailed provider_type e])
        end
  end.

Definition create_with_fallback `{Sdk} (env : environ)
    (primary_provider : string) (fallback_order : option (list string))
    (api_key model : option string)
  : result (list provider) * list log_event :=
  let fallback_order :=
    match fallback_order with
    | Some l => l
    | None =>
        Str.split ","
          (default "gemini,openai,anthropic" (env !! "LLM_FALLBACK_ORDER"))
    end in
  let all_providers := candidates primary_provider fallback_order in
  let '(providers, log) :=
    fallback_loop env api_key model all_providers [] ∅ [] in
  match providers with
  | [] => (Raise (RuntimeError "No LLM providers could be initialized"), log)
  | _ :: _ => (Ok providers, log)
  end.

Definition get_primary_provider `{Sdk} (env : environ)
    (api_key model : option string) : result provider * list log_event :=
  let primary := default "openai" (env !! "LLM_PRIMARY_PROVIDER") in
  let enable_fallback :=
    String.eqb
      (Str.lower (default "true" (env !! "LLM_ENABLE_FALLBACK"))) "true" in
  if enable_fallback then
    let '(r, log) := create_with_fallback env primary None api_key model in
    (providers <~ r ;;
     match providers with
     | p :: _ => Ok p
     | [] => Raise IndexError
     end, log)
  else (create_provider env primary api_key model, []).

End Llm.

(** ** Provider selection as the specification words it

    A deduplicated candidate sequence (primary, then the fallback order,
    skipping what is already present); every candidate is attempted once, in
    order; the first that constructs is the active provider. *)

Module SelectorSpec.
Section Spec.
Context `{Llm.Sdk}.
Variables (env : Llm.environ) (api_key model : option string).

Definition configured_primary : string :=
  default "openai" (env !! "LLM_PRIMARY_PROVIDER").

Definition configured_fallback : list string :=
  Str.split "," (default "gemini,openai,anthropic" (env !! "LLM_FALLBACK_ORDER")).

Definition fallback_enabled : bool :=
  String.eqb (Str.lower (default "true" (env !! "LLM_ENABLE_FALLBACK"))) "true".

Fixpoint dedup (seen l : list string) : list string :=
  match l with
  | [] => []
  | x :: l' =>
      if decide (x ∈ seen) then dedup seen l' else x :: dedup (x :: seen) l'
  end.

Definition candidate_sequence : list string :=
  dedup [] (configured_primary :: map Str.strip configured_fallback).

Definition attempt (c : string) : Llm.log_event :=
  match Llm.create_provider env c api_key model with
  | Ok _ => Llm.Initialized c
  | Raise e => Llm.InitFailed c e
  end.

Fixpoint first_constructed (cands : list string) : option Llm.provider :=
  match cands with
  | [] => None
  | c :: cs =>
      match Llm.create_provider env c api_key model with
      | Ok p => Some p
      | Raise _ => first_constructed cs
      end
  end.

Definition select : result Llm.provider * list Llm.log_event :=
  (match first_constructed candidate_sequence with
   | Some p => Ok p
   | None => Raise (RuntimeError "No LLM providers could be initialized")
   end,
   map attempt candidate_sequence).
End Spec.
End SelectorSpec.

(** ** The pydantic models ([include/validators/invoice_models.py]) *)

Module Models.

(** One entry of [ValidationError.errors()]: where, and what. *)
Inductive loc_item := LKey (k : string) | LIdx (i : nat).

Record error_details := { loc : list loc_item; msg : string }.

Inductive validated (A : Type) :=
| Valid (a : A)
| Invalid (errors : list error_details).
Arguments Valid {A} a.
Arguments Invalid {A} errors.

Definition errors_of {A} (v : validated A) : list error_details :=
  match v with
  | Valid _ => []
  | Invalid errors => errors
  end.

(** What pydantic decides on its own: which inputs a [str], [int], [float]
    or [datetime] field accepts and to what it converts them. *)
Class Pydantic := {
  str_validate : value -> option string;
  int_validate : value -> option Z;
  float_validate : value -> option float;
  datetime_validate : value -> option datetime
}.

Section Validation.
Context `{Runtime} `{Pydantic}.

Definition error_at (name : string) (m : string) : list error_details :=
  [{| loc := [LKey name]; msg := m |}].

(** Errors of a nested value are reported below the field that holds it. *)
Definition below (item : loc_item) (errors : list error_details)
  : list error_details :=
  map (fun e => {| loc := item :: loc e; msg := msg e |}) errors.

(** [str = Field(..., min_length=1)] *)
Definition required_str (d : dict) (name : string) : validated string :=
  match d !! name with
  | None => Invalid (error_at name "Field required")
  | Some v =>
      match str_validate v with
      | None => Invalid (error_at name "Input should be a valid string")
      | Some s =>
          if (String.length s <? 1)%nat
          then Invalid (error_at name "String should have at least 1 character")
          else Valid s
      end
  end.

(** [Optional[str] = None] *)
Definition optional_str (d : dict) (name : string) : validated (option string) :=
  match d !! name with
  | None | Some VNone => Valid None
  | Some v =>
      match str_validate v with
      | None => Invalid (error_at name "Input should be a valid string")
      | Some s => Valid (Some s)
      end
  end.

(** The constraint [ge=0] on a float. *)
Definition float_ge_0 (name : string) (v : value) : validated float :=
  match float_validate v with
  | None => Invalid (error_at name "Input should be a valid number")
  | Some f =>
      if (0 <=? f)%float then Valid f
      else Invalid (error_at name "Input should be greater than or equal to 0")
  end.

(** [float = Field(..., ge=0)] *)
Definition required_float (d : dict) (name : string) : validated float :=
  match d !! name with
  | None => Invalid (error_at name "Field required")
  | Some v => float_ge_0 name v
  end.

(** [float = Field(default=0.0, ge=0)] *)
Definition default_float (d : dict) (name : string) : validated float :=
  match d !! name with
  | None => Valid 0.0%float
  | Some v => float_ge_0 name v
  end.

(** [int = Field(..., ge=1)] *)
Definition required_int (d : dict) (name : string) : validated Z :=
  match d !! name with
  | None => Invalid (error_at name "Field required")
  | Some v =>
      match int_validate v with
      | None => Invalid (error_at name "Input should be a valid integer")
      | Some n =>
          if 1 <=? n then Valid n
          else Invalid (error_at name "Input should be greater than or equal to 1")
      end
  end.

(** *** [InvoiceItem] *)

Record InvoiceItem := {
  nome : string;
  quantidade : Z;
  preco_unitario : float;
  preco_total : float
}.

Definition to_option {A} (v : validated A) : option A :=
  match v with
  | Valid a => Some a
  | Invalid _ => None
  end.

(** [InvoiceItem.validate_total]: [info.data] holds the fields validated so
    far, and only those that passed.  A raised [ValueError] becomes a
    validation error; any other exception escapes. *)
Definition validate_total (v : float)
    (data_quantidade : option Z) (data_preco_unitario : option float)
  : result (validated float) :=
  match data_quantidade, data_preco_unitario with
  | Some quantidade, Some preco_unitario =>
      q <~ float_of_int quantidade ;;
      let expected := (q * preco_unitario)%float in
      if (0.01 <? abs (v - expected))%float then
        Ok (Invalid
              [{| loc := [];
                  msg := "Value error, Item total mismatch: " ++ show_float v
                         ++ " != " ++ show_float_2f expected |}])
      else Ok (Valid v)
  | _, _ => Ok (Valid v)
  end.

Definition InvoiceItem_validate (v : value) : result (validated InvoiceItem) :=
  match v with
  | VDict d =>
      let nome := required_str d "nome" in
      let quantidade := required_int d "quantidade" in
      let preco_unitario := required_float d "preco_unitario" in
      preco_total <~
        match required_float d "preco_total" with
        | Valid v =>
            r <~ validate_total v (to_option quantidade) (to_option preco_unitario) ;;
            Ok (match r with
                | Valid v => Valid v
                | Invalid errors => Invalid (below (LKey "preco_total") errors)
                end)
        | Invalid errors => Ok (Invalid errors)
        end ;;
      Ok (match nome, quantidade, preco_unitario, preco_total with
          | Valid n, Valid q, Valid pu, Valid pt =>
              Valid {| nome := n; quantidade := q;
                       preco_unitario := pu; preco_total := pt |}
          | _, _, _, _ =>
              Invalid (errors_of nome ++ errors_of quantidade
                       ++ errors_of preco_unitario ++ errors_of preco_total)
          end)
  | _ =>
      Ok (Invalid
            [{| loc := [];
                msg := "Input should be a valid dictionary or instance of InvoiceItem" |}])
  end.

(** The elements of [itens], each reported below its index. *)
Fixpoint validate_items (i : nat) (l : list value)
  : result (validated (list InvoiceItem)) :=
  match l with
  | [] => Ok (Valid [])
  | v :: l' =>
      r <~ InvoiceItem_validate v ;;
      rest <~ validate_items (S i) l' ;;
      Ok (match r, rest with
          | Valid item, Valid items => Valid (item :: items)
          | _, _ => Invalid (below (LIdx i) (errors_of r) ++ errors_of rest)
          end)
  end.

(** [itens: List[InvoiceItem] = Field(..., min_length=1)] *)
Definition required_items (d : dict) : result (validated (list InvoiceItem)) :=
  match d !! "itens" with
  | None => Ok (Invalid (error_at "itens" "Field required"))
  | Some (VList l) =>
      r <~ validate_items 0 l ;;
      Ok (match r with
          | Valid [] =>
              Invalid (error_at "itens"
                "List should have at least 1 item after validation, not 0")
          | Valid items => Valid items
          | Invalid errors => Invalid (below (LKey "itens") errors)
          end)
  | Some _ => Ok (Invalid (error_at "itens" "Input should be a valid list"))
  end.

(** *** [InvoiceData] *)

Record InvoiceData := {
  order_id : string;
  restaurante : string;
  cnpj : option string;
  endereco : option string;
  data_hora : datetime;
  itens : list InvoiceItem;
  subtotal : float;
  taxa_entrega : float;
  taxa_servico : float;
  gorjeta : float;
  total : float;
  pagamento : option string;
  endereco_entrega : option string;
  tempo_entrega : option string;
  entregador : option string
}.

(** [InvoiceData.parse_datetime] (mode [before]), then the field's own
    validation of what it returned. *)
Definition parse_datetime (v : value) : validated datetime :=
  match v with
  | VStr s =>
      match fromisoformat (Str.replace "Z" "+00:00" s) with
      | Some t => Valid t
      | None =>
          Invalid (error_at "data_hora"
                     ("Value error, Invalid datetime format: " ++ s))
      end
  | _ =>
      match datetime_validate v with
      | Some t => Valid t
      | None => Invalid (error_at "data_hora" "Input should be a valid datetime")
      end
  end.

Definition required_datetime (d : dict) : validated datetime :=
  match d !! "data_hora" with
  | None => Invalid (error_at "data_hora" "Field required")
  | Some v => parse_datetime v
  end.

(** [sum(item.preco_total for item in self.itens)] *)
Definition items_sum (items : list InvoiceItem) : float :=
  fold_left (fun acc item => (acc + preco_total item)%float) items 0%float.

(** Where pydantic reports an exception raised by a model validator of mode
    [after]: at the model itself, that is at the empty location. *)
Definition model_loc : list loc_item := [].

(** [InvoiceData.validate_invoice_total] *)
Definition validate_invoice_total (self : InvoiceData) : validated InvoiceData :=
  let expected_total :=
    (subtotal self + taxa_entrega self + taxa_servico self + gorjeta self)%float in
  if (0.01 <? abs (total self - expected_total))%float then
    Invalid
      [{| loc := model_loc;
          msg := "Value error, Invoice total mismatch: " ++ show_float (total self)
                 ++ " != " ++ show_float_2f expected_total
                 ++ " (subtotal=" ++ show_float (subtotal self)
                 ++ ", delivery=" ++ show_float (taxa_entrega self)
                 ++ ", service=" ++ show_float (taxa_servico self)
                 ++ ", tip=" ++ show_float (gorjeta self) ++ ")" |}]
  else
    let items_subtotal := items_sum (itens self) in
    if (0.01 <? abs (subtotal self - items_subtotal))%float then
      Invalid
        [{| loc := model_loc;
            msg := "Value error, Subtotal mismatch: " ++ show_float (subtotal self)
                   ++ " != items_sum=" ++ show_float_2f items_subtotal |}]
    else Valid self.

(** Constructing [InvoiceData] from the keywords of [extraction]: every
    field is validated and the errors are
    collected in field order; the model validator runs only when no field
    failed. *)
Definition InvoiceData_validate (extraction : dict) : result (validated InvoiceData) :=
  let order_id := required_str extraction "order_id" in
  let restaurante := required_str extraction "restaurante" in
  let cnpj := optional_str extraction "cnpj" in
  let endereco := optional_str extraction "endereco" in
  let data_hora := required_datetime extraction in
  itens <~ required_items extraction ;;
  let subtotal := required_float extraction "subtotal" in
  let taxa_entrega := default_float extraction "taxa_entrega" in
  let taxa_servico := default_float extraction "taxa_servico" in
  let gorjeta := default_float extraction "gorjeta" in
  let total := required_float extraction "total" in
  let pagamento := optional_str extraction "pagamento" in
  let endereco_entrega := optional_str extraction "endereco_entrega" in
  let tempo_entrega := optional_str extraction "tempo_entrega" in
  let entregador := optional_str extraction "entregador" in
  Ok (match order_id, restaurante, cnpj, endereco, data_hora, itens, subtotal,
            taxa_entrega, taxa_servico, gorjeta, total, pagamento,
            endereco_entrega, tempo_entrega, entregador with
      | Valid a, Valid b, Valid c, Valid d, Valid e, Valid f, Valid g, Valid h,
        Valid i, Valid j, Valid k, Valid l, Valid m, Valid n, Valid o =>
          validate_invoice_total
            {| order_id := a; restaurante := b; cnpj := c; endereco := d;
               data_hora := e; itens := f; subtotal := g; taxa_entrega := h;
               taxa_servico := i; gorjeta := j; total := k; pagamento := l;
               endereco_entrega := m; tempo_entrega := n; entregador := o |}
      | _, _, _, _, _, _, _, _, _, _, _, _, _, _, _ =>
          Invalid (errors_of order_id ++ errors_of restaurante ++ errors_of cnpj
                   ++ errors_of endereco ++ errors_of data_hora ++ errors_of itens
                   ++ errors_of subtotal ++ errors_of taxa_entrega
                   ++ errors_of taxa_servico ++ errors_of gorjeta
                   ++ errors_of total ++ errors_of pagamento
                   ++ errors_of endereco_entrega ++ errors_of tempo_entrega
                   ++ errors_of entregador)
      end).

(** Every field of [extraction] passes its own validation, with the values
    of [inv]. *)
Definition fields_valid (extraction : dict) (inv : InvoiceData) : Prop :=
  required_str extraction "order_id" = Valid (order_id inv)
  /\ required_str extraction "restaurante" = Valid (restaurante inv)
  /\ optional_str extraction "cnpj" = Valid (cnpj inv)
  /\ optional_str extraction "endereco" = Valid (endereco inv)
  /\ required_datetime extraction = Valid (data_hora inv)
  /\ required_items extraction = Ok (Valid (itens inv))
  /\ required_float extraction "subtotal" = Valid (subtotal inv)
  /\ default_float extraction "taxa_entrega" = Valid (taxa_entrega inv)
  /\ default_float extraction "taxa_servico" = Valid (taxa_servico inv)
  /\ default_float extraction "gorjeta" = Valid (gorjeta inv)
  /\ required_float extraction "total" = Valid (total inv)
  /\ optional_str extraction "pagamento" = Valid (pagamento inv)
  /\ optional_str extraction "endereco_entrega" = Valid (endereco_entrega inv)
  /\ optional_str extraction "tempo_entrega" = Valid (tempo_entrega inv)
  /\ optional_str extraction "entregador" = Valid (entregador inv).

(** The two monetary checks of the record, as the validator computes them. *)
Definition total_mismatch (self : InvoiceData) : bool :=
  (0.01 <? abs (total self
                - (subtotal self + taxa_entrega self + taxa_servico self
                   + gorjeta self)))%float.

Definition subtotal_mismatch (self : InvoiceData) : bool :=
  (0.01 <? abs (subtotal self - items_sum (itens self)))%float.

(** The check of a line, on the float the quantity converts to. *)
Definition line_mismatch (q : float) (item : InvoiceItem) : bool :=
  (0.01 <? abs (preco_total item - q * preco_unitario item))%float.

(** A line within the tolerance, and with a quantity of at least one. *)
Definition line_ok (item : InvoiceItem) : Prop :=
  exists q, float_of_int (quantidade item) = Ok q
            /\ line_mismatch q item = false
            /\ 1 <= quantidade item.

(** *** [ExtractionResult] *)

Record ExtractionResult := {
  invoice_data : InvoiceData;
  file_key : string;
  provider : string;
  model : string;
  tokens_used : Z;
  cost : float;
  latency_ms : float;
  confidence : float;
  validation_passed : bool;
  validation_errors : list string
}.

Definition plain {A} (name what : string) (o : option A) : validated A :=
  match o with
  | Some a => Valid a
  | None => Invalid (error_at name what)
  end.

(** [ExtractionResult(invoice_data=.., file_key=.., ...)] on the argument
    values the caller computed. *)
Definition ExtractionResult_validate (invoice : InvoiceData)
    (file_key provider model tokens_used cost latency_ms : value)
  : validated ExtractionResult :=
  let file_key := plain "file_key" "Input should be a valid string" (str_validate file_key) in
  let provider := plain "provider" "Input should be a valid string" (str_validate provider) in
  let model := plain "model" "Input should be a valid string" (str_validate model) in
  let tokens_used := plain "tokens_used" "Input should be a valid integer" (int_validate tokens_used) in
  let cost := plain "cost" "Input should be a valid number" (float_validate cost) in
  let latency_ms := plain "latency_ms" "Input should be a valid number" (float_validate latency_ms) in
  match file_key, provider, model, tokens_used, cost, latency_ms with
  | Valid a, Valid b, Valid c, Valid d, Valid e, Valid f =>
      Valid {| invoice_data := invoice; file_key := a; provider := b; model := c;
               tokens_used := d; cost := e; latency_ms := f; confidence := 1.0;
               validation_passed := true; validation_errors := [] |}
  | _, _, _, _, _, _ =>
      Invalid (errors_of file_key ++ errors_of provider ++ errors_of model
               ++ errors_of tokens_used ++ errors_of cost ++ errors_of latency_ms)
  end.

End Validation.
End Models.

(** ** The pipeline stages ([dags/invoice_extraction_v3.py]) *)

(** *** Object storage and text extraction *)

(** The bucket: object name to bytes. *)
Abbreviation bucket := (gmap string string).

(** What can go wrong outside the sources: a request to the object store may
    fail for reasons of its own, and PyPDF2 may fail to read a document. *)
Class Minio := {
  get_error : bucket -> string -> option exn;
  copy_error : bucket -> string -> string -> option exn;
  remove_error : bucket -> string -> option exn;
  read_pages : string -> result (list string)   (* [page.extract_text()] of each page *)
}.

Definition get_object `{Minio} (objects : bucket) (key : string) : result string :=
  match get_error objects key with
  | Some e => Raise e
  | None =>
      match objects !! key with
      | Some bytes => Ok bytes
      | None => Raise (OtherError "NoSuchKey")
      end
  end.

(** [copy_object(bucket, new_key, source)] *)
Definition copy_object `{Minio} (objects : bucket) (new_key source : string)
  : result bucket :=
  match copy_error objects new_key source with
  | Some e => Raise e
  | None =>
      match objects !! source with
      | Some bytes => Ok (<[new_key := bytes]> objects)
      | None => Raise (OtherError "NoSuchKey")
      end
  end.

Definition remove_object `{Minio} (objects : bucket) (key : string) : result bucket :=
  match remove_error objects key with
  | Some e => Raise e
  | None => Ok (delete key objects)
  end.

(** One element of the list [extract_batch_texts] returns. *)
Record pdf_data := {
  pdf_file_key : string;
  pdf_text : string;
  pdf_num_pages : option Z;
  pdf_error : option string
}.

Definition extract_text `{Minio} (objects : bucket) (key : string) : pdf_data :=
  match (pdf_bytes <~ get_object objects key ;; read_pages pdf_bytes) with
  | Ok pages =>
      {| pdf_file_key := key;
         pdf_text := String.concat Llm.nl pages;
         pdf_num_pages := Some (Z.of_nat (length pages));
         pdf_error := None |}
  | Raise e =>
      {| pdf_file_key := key; pdf_text := ""; pdf_num_pages := None;
         pdf_error := Some (str_exn e) |}
  end.

Definition extract_batch_texts `{Minio} (objects : bucket) (batch_keys : list string)
  : list pdf_data :=
  map (extract_text objects) batch_keys.

(** *** Extraction *)

Definition SYSTEM_PROMPT : string :=
  "Extract structured data from UberEats invoices and return valid JSON.
All monetary values must be numbers. Extract all available fields accurately.
Ensure totals match: total = subtotal + delivery_fee + service_fee + tip.".

Definition invoice_schema : value :=
  VDict (list_to_map
    [("order_id", VStr "string");
     ("restaurante", VStr "string");
     ("cnpj", VStr "string or null");
     ("endereco", VStr "string");
     ("data_hora", VStr "ISO datetime");
     ("itens", VList [VDict (list_to_map
        [("nome", VStr "string"); ("quantidade", VInt 1);
         ("preco_unitario", VFloat 0.0); ("preco_total", VFloat 0.0)])]);
     ("subtotal", VFloat 0.0);
     ("taxa_entrega", VFloat 0.0);
     ("taxa_servico", VFloat 0.0);
     ("gorjeta", VFloat 0.0);
     ("total", VFloat 0.0);
     ("pagamento", VStr "string");
     ("endereco_entrega", VStr "string");
     ("tempo_entrega", VStr "string");
     ("entregador", VStr "string or null")]).

(** [{"file_key": .., "status": "failed", "error": ..}] *)
Definition failed_result (file_key : string) (error : string) : dict :=
  list_to_map
    [("file_key", VStr file_key); ("status", VStr "failed"); ("error", VStr error)].

(** What the extraction stage changes outside itself: the requests sent to
    the vendor and the number of clock readings taken. *)
Record llm_state := { sent : list Llm.request; readings : nat }.

(** The body of [try] for one document. *)
Definition call_llm `{Runtime} `{Clock} `{Llm.Sdk} (provider : Llm.provider)
    (d : pdf_data) (st : llm_state) : result dict * llm_state :=
  let '(r, sent') :=
    Llm.extract_invoice_data provider (pdf_text d) SYSTEM_PROMPT invoice_schema
                            (sent st) in
  match (llm_response <~ r ;;
         invoice_data <~ json_loads (Llm.content llm_response) ;;
         match invoice_data with
         | VDict fields => Ok (llm_response, fields)
         | v =>
             Raise (AttributeError
                      ("'" ++ type_name v ++ "' object has no attribute 'update'"))
         end) with
  | Ok (llm_response, fields) =>
      (Ok (<["processed_at" := VStr (isoformat (now (readings st)))]>
           (<["latency_ms" := VFloat (Llm.latency_ms llm_response)]>
           (<["cost" := VFloat (Llm.cost llm_response)]>
           (<["tokens_used" := VInt (Llm.tokens_used llm_response)]>
           (<["model" := VStr (Llm.model_ llm_response)]>
           (<["provider" := VStr (Llm.provider_ llm_response)]>
           (<["file_key" := VStr (pdf_file_key d)]> fields))))))),
       {| sent := sent'; readings := S (readings st) |})
  | Raise e => (Raise e, {| sent := sent'; readings := readings st |})
  end.

(** One turn of the [for pdf_data in batch_data] loop. *)
Definition process_document `{Runtime} `{Clock} `{Llm.Sdk}
    (provider : Llm.provider) (d : pdf_data) (st : llm_state)
  : dict * llm_state :=
  if bool_decide (is_Some (pdf_error d)) || negb (truthy (VStr (pdf_text d))) then
    (failed_result (pdf_file_key d) (default "No text extracted" (pdf_error d)), st)
  else
    match call_llm provider d st with
    | (Ok invoice_data, st') => (invoice_data, st')
    | (Raise e, st') => (failed_result (pdf_file_key d) (str_exn e), st')
    end.

Fixpoint process_documents `{Runtime} `{Clock} `{Llm.Sdk}
    (provider : Llm.provider) (batch_data : list pdf_data) (st : llm_state)
  : list dict * llm_state :=
  match batch_data with
  | [] => ([], st)
  | d :: rest =>
      let '(r, st') := process_document provider d st in
      let '(results, st'') := process_documents provider rest st' in
      (r :: results, st'')
  end.

Definition process_batch_with_llm `{Runtime} `{Clock} `{Llm.Sdk}
    (env : Llm.environ) (batch_data : list pdf_data) (st : llm_state)
  : list dict * llm_state :=
  match (Llm.get_primary_provider env None None).1 with
  | Raise e =>
      (map (fun d => failed_result (pdf_file_key d) (str_exn e)) batch_data, st)
  | Ok provider => process_documents provider batch_data st
  end.

(** *** Validation *)

Definition show_loc_item (i : Models.loc_item) : string :=
  match i with
  | Models.LKey k => k
  | Models.LIdx n => pretty n
  end.

(** [f"{err['loc'][0]}: {err['msg']}"] *)
Definition error_detail (err : Models.error_details) : result string :=
  match Models.loc err with
  | [] => Raise IndexError
  | first :: _ => Ok (show_loc_item first ++ ": " ++ Models.msg err)%string
  end.

Fixpoint error_details_of (errors : list Models.error_details) : result (list string) :=
  match errors with
  | [] => Ok []
  | err :: rest =>
      m <~ error_detail err ;;
      ms <~ error_details_of rest ;;
      Ok (m :: ms)
  end.

(** An error list whose every entry names a place. *)
Definition located (errors : list Models.error_details) : Prop :=
  Forall (fun err => Models.loc err <> []) errors.

(** The message built for an entry that names a place. *)
Definition detail_text (err : Models.error_details) : string :=
  match Models.loc err with
  | [] => ""
  | first :: _ => (show_loc_item first ++ ": " ++ Models.msg err)%string
  end.

(** The body of [try]: both models are constructed; [ValidationError] is the
    [Invalid] outcome, anything else is raised. *)
Definition check_extraction `{Runtime} `{Models.Pydantic} (extraction : dict)
  : result (Models.validated Models.ExtractionResult) :=
  r <~ Models.InvoiceData_validate extraction ;;
  match r with
  | Models.Invalid errors => Ok (Models.Invalid errors)
  | Models.Valid validated_invoice =>
      file_key <~ subscript extraction "file_key" ;;
      Ok (Models.ExtractionResult_validate validated_invoice file_key
            (get_default extraction "provider" (VStr "unknown"))
            (get_default extraction "model" (VStr "unknown"))
            (get_default extraction "tokens_used" (VInt 0))
            (get_default extraction "cost" (VFloat 0.0))
            (get_default extraction "latency_ms" (VFloat 0.0)))
  end.

(** [{**extraction, "validation_passed": True, "status": "success"}] *)
Definition passed (extraction : dict) : dict :=
  <["status" := VStr "success"]>
  (<["validation_passed" := VBool true]> extraction).

(** [{**extraction, "validation_passed": False, "validation_errors": ..,
    "status": "needs_review"}] *)
Definition needs_review (extraction : dict) (error_details : list string) : dict :=
  <["status" := VStr "needs_review"]>
  (<["validation_errors" := VList (map VStr error_details)]>
  (<["validation_passed" := VBool false]> extraction)).

(** What the validator may make of an extraction: a failed one is handed
    on as it is; one that passes both models is marked [success]; one that is
    refused with located errors is marked [needs_review] and carries one
    message per error. *)
Definition outcome `{Runtime} `{Models.Pydantic} (extraction validated : dict) : Prop :=
  (eq_str (extraction !! "status") "failed" = true /\ validated = extraction)
  \/ (eq_str (extraction !! "status") "failed" = false
      /\ (exists r, check_extraction extraction = Ok (Models.Valid r))
      /\ validated = passed extraction)
  \/ (eq_str (extraction !! "status") "failed" = false
      /\ exists errors,
           check_extraction extraction = Ok (Models.Invalid errors)
           /\ located errors
           /\ validated = needs_review extraction (map detail_text errors)).

(** One turn of the [for extraction in extractions] loop.  In the handler
    the messages are built first, then the log line reads
    [extraction['file_key']], then the record is appended. *)
Definition validate_extraction `{Runtime} `{Models.Pydantic} (extraction : dict)
  : result dict :=
  if eq_str (extraction !! "status") "failed" then Ok extraction
  else
    r <~ check_extraction extraction ;;
    match r with
    | Models.Valid _ => Ok (passed extraction)
    | Models.Invalid errors =>
        error_details <~ error_details_of errors ;;
        _ <~ subscript extraction "file_key" ;;
        Ok (needs_review extraction error_details)
    end.

Fixpoint validate_extractions `{Runtime} `{Models.Pydantic} (extractions : list dict)
  : result (list dict) :=
  match extractions with
  | [] => Ok []
  | extraction :: rest =>
      r <~ validate_extraction extraction ;;
      validated_results <~ validate_extractions rest ;;
      Ok (r :: validated_results)
  end.

(** *** Persistence

    The table [invoices.invoices] and the one statement the stage runs on
    it. *)

Module Db.

(** What is passed for [order_datetime]: the parsed [datetime], or the value
    found under [data_hora] when it is not a string. *)
Inductive timestamp_param := Parsed (t : datetime) | Raw (v : value).

(** The columns other than [order_id] and [raw_data], in the order of the
    INSERT. *)
Record business := {
  restaurant : value;
  cnpj : value;
  address : value;
  order_datetime : timestamp_param;
  items : string;
  subtotal : value;
  delivery_fee : value;
  service_fee : value;
  tip : value;
  total : value;
  payment_method : value;
  delivery_address : value;
  delivery_time : value;
  delivery_person : value;
  file_key : value;
  provider : value;
  model : value;
  tokens_used : value;
  cost : value;
  latency_ms : value;
  validation_passed : value;
  validation_errors : string;
  processed_at : value
}.

(** The parameter tuple of [cursor.execute]. *)
Record params := { order_id : value; columns : business; raw_data : string }.

Record row := {
  id : Z;
  row_order_id : option string;   (* [None] is NULL *)
  row_columns : business;
  row_raw_data : string;
  created_at : datetime;
  updated_at : datetime
}.

(** [current_timestamp] is the transaction's CURRENT_TIMESTAMP. *)
Record database := {
  rows : list row;
  next_id : Z;
  current_timestamp : datetime
}.

(** What [cursor.execute] does that the stage does not decide: the error it
    raises for a statement, if any (a value that does not fit its column, a
    parameter psycopg2 cannot adapt); whether an error was reported by the
    server, which then aborts the transaction (an error psycopg2 raises while
    it adapts the parameters, before anything is sent, does not); the text
    stored in [order_id] for a value that is not a string; and the column
    values stored for the parameters. *)
Class Postgres := {
  reject : params -> option exn;
  aborts : exn -> bool;
  cast_text : value -> string;
  as_stored : business -> business
}.

Definition order_id_text `{Postgres} (v : value) : option string :=
  match v with
  | VNone => None
  | VStr s => Some s
  | _ => Some (cast_text v)
  end.

(** The UNIQUE constraint on [order_id]: NULLs never conflict. *)
Definition conflicts (key : option string) (r : row) : bool :=
  match key, row_order_id r with
  | Some a, Some b => String.eqb a b
  | _, _ => false
  end.

(** [DO UPDATE SET updated_at = CURRENT_TIMESTAMP, raw_data = EXCLUDED.raw_data] *)
Definition do_update (db : database) (p : params) (r : row) : row :=
  {| id := id r;
     row_order_id := row_order_id r;
     row_columns := row_columns r;
     row_raw_data := raw_data p;
     created_at := created_at r;
     updated_at := current_timestamp db |}.

Definition new_row `{Postgres} (db : database) (p : params) : row :=
  {| id := next_id db;
     row_order_id := order_id_text (order_id p);
     row_columns := as_stored (columns p);
     row_raw_data := raw_data p;
     created_at := current_timestamp db;
     updated_at := current_timestamp db |}.

(** [INSERT INTO invoices.invoices (...) VALUES (...) ON CONFLICT (order_id)
    DO UPDATE SET ...] *)
Definition insert_invoice `{Postgres} (db : database) (p : params) : result database :=
  match reject p with
  | Some e => Raise e
  | None =>
      let key := order_id_text (order_id p) in
      Ok {| rows :=
              if existsb (conflicts key) (rows db)
              then map (fun r => if conflicts key r then do_update db p r else r)
                       (rows db)
              else rows db ++ [new_row db p];
            next_id := next_id db + 1;
            current_timestamp := current_timestamp db |}
  end.

(** A new transaction, started at [t]. *)
Definition begin (db : database) (t : datetime) : database :=
  {| rows := rows db; next_id := next_id db; current_timestamp := t |}.

(** COMMIT in an aborted transaction is a ROLLBACK: the rows are those the
    transaction [found]; the sequence behind [id] is not taken back from
    where the transaction [reached]. *)
Definition rollback (found reached : database) : database :=
  {| rows := rows found; next_id := next_id reached;
     current_timestamp := current_timestamp found |}.

(** The order ids in the table (NULLs left out), and the constraint on
    them. *)
Fixpoint order_ids (table : list row) : list string :=
  match table with
  | [] => []
  | r :: table' =>
      match row_order_id r with
      | Some key => key :: order_ids table'
      | None => order_ids table'
      end
  end.

Definition unique_order_ids (table : list row) : Prop := NoDup (order_ids table).

(** Two rows that differ at most in the raw payload and [updated_at]. *)
Definition same_business (r1 r2 : row) : Prop :=
  id r2 = id r1
  /\ row_order_id r2 = row_order_id r1
  /\ row_columns r2 = row_columns r1
  /\ created_at r2 = created_at r1.

End Db.

(** The value under [data_hora], parsed when it is a string. *)
Definition order_datetime_of `{Runtime} (data : dict) : result Db.timestamp_param :=
  match get_default data "data_hora" VNone with
  | VStr s =>
      match fromisoformat (Str.replace "Z" "+00:00" s) with
      | Some t => Ok (Db.Parsed t)
      | None => Raise (ValueError "Invalid isoformat string")
      end
  | v => Ok (Db.Raw v)
  end.

(** The parameter tuple; [reading] is the clock reading the default of
    [order_id] is built from. *)
Definition insert_params `{Runtime} `{Clock} (data : dict)
    (order_datetime : Db.timestamp_param) (reading : nat) : Db.params :=
  {| Db.order_id :=
       get_default data "order_id"
         (VStr ("UNKNOWN_" ++ show_float (timestamp (now reading))));
     Db.columns :=
       {| Db.restaurant := get_default data "restaurante" VNone;
          Db.cnpj := get_default data "cnpj" VNone;
          Db.address := get_default data "endereco" VNone;
          Db.order_datetime := order_datetime;
          Db.items := json_dumps (get_default data "itens" (VList []));
          Db.subtotal := get_default data "subtotal" (VInt 0);
          Db.delivery_fee := get_default data "taxa_entrega" (VInt 0);
          Db.service_fee := get_default data "taxa_servico" (VInt 0);
          Db.tip := get_default data "gorjeta" (VInt 0);
          Db.total := get_default data "total" (VInt 0);
          Db.payment_method := get_default data "pagamento" VNone;
          Db.delivery_address := get_default data "endereco_entrega" VNone;
          Db.delivery_time := get_default data "tempo_entrega" VNone;
          Db.delivery_person := get_default data "entregador" VNone;
          Db.file_key := get_default data "file_key" VNone;
          Db.provider := get_default data "provider" VNone;
          Db.model := get_default data "model" VNone;
          Db.tokens_used := get_default data "tokens_used" (VInt 0);
          Db.cost := get_default data "cost" (VFloat 0.0);
          Db.latency_ms := get_default data "latency_ms" (VFloat 0.0);
          Db.validation_passed := get_default data "validation_passed" (VBool false);
          Db.validation_errors :=
            json_dumps (get_default data "validation_errors" (VList []));
          Db.processed_at := get_default data "processed_at" VNone |};
     Db.raw_data := json_dumps (VDict data) |}.

(** The loop state of [store_to_database]. *)
Record store_state := {
  db : Db.database;
  clock_readings : nat;
  success_count : Z;
  failed_count : Z
}.

(** The loop state at the start of a later invocation: a new transaction on
    the table as it was left, the clock further on, the counters at zero. *)
Definition next_invocation (st : store_state) (t : datetime) (taken : nat)
  : store_state :=
  {| db := Db.begin (db st) t; clock_readings := taken;
     success_count := 0; failed_count := 0 |}.

(** The failure counter moved by [k]. *)
Definition bump (k : Z) (st : store_state) : store_state :=
  {| db := db st; clock_readings := clock_readings st;
     success_count := success_count st; failed_count := failed_count st + k |}.

(** [data.get("status") == "failed"] *)
Definition is_failed (data : dict) : bool := eq_str (data !! "status") "failed".

(** The default of [order_id] built from a clock reading. *)
Definition unknown_order_id `{Runtime} `{Clock} (reading : nat) : string :=
  ("UNKNOWN_" ++ show_float (timestamp (now reading)))%string.

(** One turn of the [for data in validated_data] loop, in a transaction that
    is in order. *)
Definition store_record `{Runtime} `{Clock} `{Db.Postgres} (data : dict)
    (st : store_state) : store_state :=
  if eq_str (data !! "status") "failed" then
    {| db := db st; clock_readings := clock_readings st;
       success_count := success_count st; failed_count := failed_count st + 1 |}
  else
    match order_datetime_of data with
    | Raise _ =>
        {| db := db st; clock_readings := clock_readings st;
           success_count := success_count st; failed_count := failed_count st + 1 |}
    | Ok order_datetime =>
        match Db.insert_invoice (db st)
                (insert_params data order_datetime (clock_readings st)) with
        | Ok db' =>
            {| db := db'; clock_readings := S (clock_readings st);
               success_count := success_count st + 1;
               failed_count := failed_count st |}
        | Raise _ =>
            {| db := db st; clock_readings := S (clock_readings st);
               success_count := success_count st;
               failed_count := failed_count st + 1 |}
        end
    end.

(** Whether that turn leaves the transaction aborted: a statement was sent
    and the server refused it. *)
Definition refused_by_server `{Runtime} `{Clock} `{Db.Postgres} (data : dict)
    (st : store_state) : bool :=
  if eq_str (data !! "status") "failed" then false
  else
    match order_datetime_of data with
    | Raise _ => false
    | Ok order_datetime =>
        match Db.insert_invoice (db st)
                (insert_params data order_datetime (clock_readings st)) with
        | Ok _ => false
        | Raise e => Db.aborts e
        end
    end.

(** One turn of the loop once the transaction is aborted: the parameters are
    built as before, and [cursor.execute] raises whatever they are (the server
    refuses every statement until the end of the transaction). *)
Definition store_record_aborted `{Runtime} (data : dict) (st : store_state)
  : store_state :=
  if eq_str (data !! "status") "failed" then
    {| db := db st; clock_readings := clock_readings st;
       success_count := success_count st; failed_count := failed_count st + 1 |}
  else
    match order_datetime_of data with
    | Raise _ =>
        {| db := db st; clock_readings := clock_readings st;
           success_count := success_count st; failed_count := failed_count st + 1 |}
    | Ok _ =>
        {| db := db st; clock_readings := S (clock_readings st);
           success_count := success_count st;
           failed_count := failed_count st + 1 |}
    end.

(** The loop state together with the state of the transaction. *)
Record run_state := {
  reached : store_state;
  aborted : bool
}.

Definition store_turn `{Runtime} `{Clock} `{Db.Postgres} (data : dict)
    (run : run_state) : run_state :=
  if aborted run then
    {| reached := store_record_aborted data (reached run); aborted := true |}
  else
    {| reached := store_record data (reached run);
       aborted := refused_by_server data (reached run) |}.

Definition store_records `{Runtime} `{Clock} `{Db.Postgres}
    (validated_data : list dict) (run : run_state) : run_state :=
  fold_left (fun run data => store_turn data run) validated_data run.

(** The loop state [store_to_database] starts from. *)
Definition store_start (database : Db.database) (taken : nat) : store_state :=
  {| db := database; clock_readings := taken; success_count := 0; failed_count := 0 |}.

(** What [store_to_database] returns. *)
Record store_result := {
  res_success_count : Z;
  res_failed_count : Z;
  total_processed : Z
}.

(** The table is taken as created; an invocation is one transaction, which
    [conn.commit()] ends: when the server has refused a statement of the
    invocation, no row of the invocation is kept, whatever was counted. *)
Definition store_to_database `{Runtime} `{Clock} `{Db.Postgres}
    (validated_data : list dict) (database : Db.database) (taken : nat)
  : store_result * Db.database * nat :=
  let run :=
    store_records validated_data
      {| reached := store_start database taken; aborted := false |} in
  let st := reached run in
  ({| res_success_count := success_count st;
      res_failed_count := failed_count st;
      total_processed := Z.of_nat (length validated_data) |},
   if aborted run then Db.rollback database (db st) else db st,
   clock_readings st).

(** *** File moves *)

Record move_state := {
  objects : bucket;
  moved_success : list string;
  moved_failed : list string;
  moved_review : list string
}.

(** The three-way branch: the new key, and the list the file is counted in. *)
Definition route (data : dict) (file_key : string) (st : move_state)
  : string * move_state :=
  if eq_str (data !! "status") "failed" then
    (Str.replace "incoming/" "failed/" file_key,
     {| objects := objects st; moved_success := moved_success st;
        moved_failed := moved_failed st ++ [file_key];
        moved_review := moved_review st |})
  else if negb (truthy (get_default data "validation_passed" (VBool true))) then
    (Str.replace "incoming/" "review/" file_key,
     {| objects := objects st; moved_success := moved_success st;
        moved_failed := moved_failed st;
        moved_review := moved_review st ++ [file_key] |})
  else
    (Str.replace "incoming/" "processed/" file_key,
     {| objects := objects st; moved_success := moved_success st ++ [file_key];
        moved_failed := moved_failed st;
        moved_review := moved_review st |}).

Definition with_objects (st : move_state) (o : bucket) : move_state :=
  {| objects := o; moved_success := moved_success st;
     moved_failed := moved_failed st; moved_review := moved_review st |}.

(** One turn of the [for data in validated_data] loop.  A key that is not a
    string has no [replace]: the exception is caught before anything is
    counted. *)
Definition move_file `{Minio} (data : dict) (st : move_state) : move_state :=
  let file_key := get_default data "file_key" VNone in
  if negb (truthy file_key) then st
  else
    match file_key with
    | VStr file_key =>
        let '(new_key, st) := route data file_key st in
        match copy_object (objects st) new_key file_key with
        | Raise _ => st
        | Ok copied =>
            match remove_object copied file_key with
            | Raise _ => with_objects st copied
            | Ok removed => with_objects st removed
            end
        end
    | _ => st
    end.

Definition move_files `{Minio} (validated_data : list dict) (st : move_state)
  : move_state :=
  fold_left (fun st data => move_file data st) validated_data st.

(** What [move_processed_files] returns. *)
Record move_result := {
  res_moved_success : Z;
  res_moved_review : Z;
  res_moved_failed : Z
}.

Definition move_processed_files `{Minio} (validated_data : list dict)
    (stored : bucket) : move_result * bucket :=
  let st :=
    move_files validated_data
      {| objects := stored; moved_success := []; moved_failed := [];
         moved_review := [] |} in
  ({| res_moved_success := Z.of_nat (length (moved_success st));
      res_moved_review := Z.of_nat (length (moved_review st));
      res_moved_failed := Z.of_nat (length (moved_failed st)) |},
   objects st).

(** *** File moves as the specification words them

    The destination prefix is a function of the status. *)

Definition status_prefix (data : dict) : option string :=
  if eq_str (data !! "status") "failed" then Some "failed/"
  else if eq_str (data !! "status") "needs_review" then Some "review/"
  else if eq_str (data !! "status") "success" then Some "processed/"
  else None.

(** The file key of a record that has one. *)
Definition file_key_of (data : dict) : option string :=
  match data !! "file_key" with
  | Some (VStr key) => if String.eqb key "" then None else Some key
  | _ => None
  end.

(** The loop state [move_processed_files] starts from. *)
Definition move_start (stored : bucket) : move_state :=
  {| objects := stored; moved_success := []; moved_failed := [];
     moved_review := [] |}.

(** The keys of the records routed to [prefix], in order. *)
Definition routed_to (prefix : string) (validated_data : list dict) : list string :=
  omap (fun data =>
          if bool_decide (status_prefix data = Some prefix) then file_key_of data
          else None)
       validated_data.

(** What one move leaves in the bucket: nothing changed when the copy
    fails, both objects when only the delete fails, the object under its new
    key otherwise. *)
Definition moved `{Minio} (stored : bucket) (new_key key : string) : bucket :=
  match copy_object stored new_key key with
  | Raise _ => stored
  | Ok copied =>
      match remove_object copied key with
      | Raise _ => copied
      | Ok removed => removed
      end
  end.

(** ** Notions the further properties are stated with *)


(** A document the extraction stage sends to the vendor: it carries no
    extraction error and some text. *)
Definition readable (d : pdf_data) : bool :=
  negb (bool_decide (is_Some (pdf_error d)) || negb (truthy (VStr (pdf_text d)))).

(** The keys the extraction stage writes into what the vendor returned. *)
Definition stage_keys : list string :=
  ["file_key"; "provider"; "model"; "tokens_used"; "cost"; "latency_ms";
   "processed_at"].

(** The keys validation writes. *)
Definition validation_keys : list string :=
  ["status"; "validation_passed"; "validation_errors"].

(** What the constraint [ge=0] lets through: a float that is not below
    zero, and so is not NaN. *)
Definition amount (f : float) : Prop :=
  (0 <=? f)%float = true /\ is_nan f = false.

(** The constraints the fields of an [InvoiceItem] declare. *)
Definition item_constraints (item : Models.InvoiceItem) : Prop :=
  Models.nome item <> ""
  /\ 1 <= Models.quantidade item
  /\ amount (Models.preco_unitario item)
  /\ amount (Models.preco_total item).

(** A record that persistence skips, or whose order id the table holds
    already. *)
Definition already_stored (table : list Db.row) (data : dict) : Prop :=
  is_failed data = true
  \/ exists key, data !! "order_id" = Some (VStr key) /\ key ∈ Db.order_ids table.

(** The key the file of a record is copied to, and the destination of a
    record that has a file key. *)
Definition destination (data : dict) (file_key : string) : string :=
  (route data file_key (move_start ∅)).1.

Definition destination_of (data : dict) : option string :=
  destination data <$> file_key_of data.

(** A record whose file, if it has one, lies under [incoming/]. *)
Definition pending (data : dict) : Prop :=
  forall key, file_key_of data = Some key -> Str.startswith "incoming/" key = true.

(** An object store none of whose requests fails for a reason of its own
    (a copy still fails when its source is missing). *)
Definition quiet `{Minio} : Prop :=
  (forall stored new_key source, copy_error stored new_key source = None)
  /\ (forall stored key, remove_error stored key = None).

(* DEMO *)

(** ** A concrete world for examples *)

Module Demo.

(** A vendor client needs a credential; the second request of a run hits a
    rate limit, every other one is answered with the same document. *)
#[global] Instance sdk : Llm.Sdk := {|
  Llm.client_init _ api_key _ :=
    match api_key with
    | Some _ => None
    | None => Some (OtherError "missing credential")
    end;
  Llm.send _ sent _ :=
    if (length sent =? 1)%nat then Raise (OtherError "rate limit")
    else Ok {| Llm.text := "INVOICE"; Llm.prompt_tokens := 1000;
               Llm.completion_tokens := 500; Llm.total_tokens := 1500;
               Llm.elapsed := 0.5 |}
|}.

Definition gpt_4o_mini : Llm.provider :=
  {| Llm.vendor_of := Llm.OpenAI; Llm.api_key := Some "sk-test";
     Llm.model := "gpt-4o-mini"; Llm.temperature := 0.1;
     Llm.max_tokens := 1500 |}.

(** Fallback switched off, no OpenAI credential, a Gemini credential. *)
Definition env_no_fallback : Llm.environ :=
  list_to_map [("LLM_ENABLE_FALLBACK", "false"); ("GEMINI_API_KEY", "g-key")].

(** The defaults, with a Gemini credential only. *)
Definition env_gemini_only : Llm.environ :=
  list_to_map [("GEMINI_API_KEY", "g-key")].

(** No credential at all. *)
Definition env_no_credentials : Llm.environ := ∅.

Definition noon : datetime :=
  {| year := 2024; month := 1; day := 15; hour := 12; minute := 30;
     second := 0; microsecond := 0; utcoffset := Some 0 |}.

(** The clock advances by one microsecond per reading. *)
#[global] Instance clock : Clock := {|
  now n :=
    {| year := 2024; month := 1; day := 15; hour := 12; minute := 30;
       second := 0; microsecond := Z.of_nat n; utcoffset := None |}
|}.

Definition item (quantidade : Z) (preco_unitario preco_total : float) : value :=
  VDict (list_to_map
    [("nome", VStr "Pizza"); ("quantidade", VInt quantidade);
     ("preco_unitario", VFloat preco_unitario);
     ("preco_total", VFloat preco_total)]).

(** What the vendor extracted: two pizzas at 10.00, delivery 5.00, total
    25.00. *)
Definition invoice_fields : dict :=
  list_to_map
    [("order_id", VStr "ORD-1"); ("restaurante", VStr "Sabor");
     ("data_hora", VStr "2024-01-15T12:30:00Z");
     ("itens", VList [item 2 10.0 20.0]);
     ("subtotal", VFloat 20.0); ("taxa_entrega", VFloat 5.0);
     ("total", VFloat 25.0)].

(** A runtime that prints a float as mantissa and exponent, reads the one
    date above and parses the one document above. *)
#[global] Instance runtime : Runtime := {|
  show_float f :=
    match Prim2SF f with
    | S754_zero _ => "0"
    | S754_infinity _ => "inf"
    | S754_nan => "nan"
    | S754_finite s m e =>
        ((if s then "-" else "") ++ pretty (Zpos m) ++ "p" ++ pretty e)%string
    end;
  show_float_2f f :=
    match Prim2SF f with
    | S754_zero _ => "0.00"
    | S754_infinity _ => "inf"
    | S754_nan => "nan"
    | S754_finite s m e =>
        ((if s then "-" else "") ++ pretty (Zpos m) ++ "p" ++ pretty e)%string
    end;
  fromisoformat s :=
    if String.eqb s "2024-01-15T12:30:00+00:00" then Some noon else None;
  isoformat t := ("2024-01-15T12:30:00." ++ pretty (microsecond t))%string;
  timestamp t :=
    SF2Prim (binary_normalize prec emax (1705321800000000 + microsecond t) (-20) false);
  json_dumps _ := "{...}";
  json_loads s :=
    if String.eqb s "INVOICE" then Ok (VDict invoice_fields)
    else Raise (ValueError "Expecting value")
|}.

(** JSON numbers for numeric fields, strings for string fields. *)
#[global] Instance pydantic : Models.Pydantic := {|
  Models.str_validate v := match v with VStr s => Some s | _ => None end;
  Models.int_validate v := match v with VInt n => Some n | _ => None end;
  Models.float_validate v :=
    match v with
    | VFloat f => Some f
    | VInt n => match float_of_int n with Ok f => Some f | Raise _ => None end
    | _ => None
    end;
  Models.datetime_validate _ := None
|}.

(** An object store without failures of its own; a document is unreadable
    when its bytes are [corrupt]. *)
#[global] Instance minio : Minio := {|
  get_error _ _ := None;
  copy_error _ _ _ := None;
  remove_error _ _ := None;
  read_pages bytes :=
    if String.eqb bytes "corrupt" then Raise (OtherError "EOF marker not found")
    else Ok [bytes]
|}.

(** A server that accepts every statement and stores what it is given. *)
#[global] Instance postgres : Db.Postgres := {|
  Db.reject _ := None;
  Db.aborts _ := true;
  Db.cast_text _ := "?";
  Db.as_stored b := b
|}.

Definition empty_db : Db.database :=
  {| Db.rows := []; Db.next_id := 1; Db.current_timestamp := noon |}.

(** The extraction of [incoming/a.pdf] as the extraction stage hands it on. *)
Definition extraction : dict :=
  <["file_key" := VStr "incoming/a.pdf"]>
  (<["provider" := VStr "gemini"]>
  (<["model" := VStr "gemini-1.5-flash"]>
  (<["tokens_used" := VInt 1500]>
  (<["cost" := VFloat 0.0]>
  (<["latency_ms" := VFloat 500.0]>
  (<["processed_at" := VStr "2024-01-15T12:30:00.0"]> invoice_fields)))))).

(** The same, the vendor having read a total of 26.00. *)
Definition extraction_wrong_total : dict := <["total" := VFloat 26.0]> extraction.

(** Its fields as pydantic reads them. *)
Definition invoice_wrong_total : Models.InvoiceData :=
  {| Models.order_id := "ORD-1"; Models.restaurante := "Sabor";
     Models.cnpj := None; Models.endereco := None; Models.data_hora := noon;
     Models.itens :=
       [{| Models.nome := "Pizza"; Models.quantidade := 2;
           Models.preco_unitario := 10.0; Models.preco_total := 20.0 |}];
     Models.subtotal := 20.0; Models.taxa_entrega := 5.0;
     Models.taxa_servico := 0.0; Models.gorjeta := 0.0; Models.total := 26.0;
     Models.pagamento := None; Models.endereco_entrega := None;
     Models.tempo_entrega := None; Models.entregador := None |}.

(** The same, the vendor having read a subtotal of 21.00 (and total 26.00). *)
Definition extraction_wrong_subtotal : dict :=
  <["subtotal" := VFloat 21.0]> extraction_wrong_total.

(** The same, the vendor having read a line total of 21.00 (with subtotal
    21.00 and total 26.00). *)
Definition extraction_wrong_line : dict :=
  <["itens" := VList [item 2 10.0 21.0]]> extraction_wrong_subtotal.

(** The same without an order id. *)
Definition extraction_no_order_id : dict := delete "order_id" extraction.

(** The start of a persistence run on the empty table. *)
Definition fresh_store : store_state :=
  {| db := empty_db; clock_readings := 0; success_count := 0; failed_count := 0 |}.

(** A later run, one second on. *)
Definition one_second_later : datetime :=
  {| year := 2024; month := 1; day := 15; hour := 12; minute := 30;
     second := 1; microsecond := 0; utcoffset := Some 0 |}.

(** The bucket before a run: three documents, the second unreadable. *)
Definition stored_objects : bucket :=
  list_to_map
    [("incoming/a.pdf", "bytes of a"); ("incoming/b.pdf", "corrupt");
     ("incoming/c.pdf", "bytes of c")].

(** What validation is handed for them: a good record, one with a line
    total off, and a failed marker. *)
Definition extractions : list dict :=
  [extraction;
   <["file_key" := VStr "incoming/c.pdf"]> extraction_wrong_line;
   failed_result "incoming/b.pdf" "EOF marker not found"].

(** The statuses of what a stage returned, for display. *)
Definition statuses (r : result (list dict)) : result (list (option value)) :=
  validated <~ r ;; Ok (map (fun d => d !! "status") validated).

(** A runtime whose parser finds a [status] of [failed] in what the vendor
    returned. *)
Definition runtime_status_failed : Runtime :=
  {| show_float := show_float; show_float_2f := show_float_2f;
     fromisoformat := fromisoformat; isoformat := isoformat;
     timestamp := timestamp; json_dumps := json_dumps;
     json_loads _ := Ok (VDict (<["status" := VStr "failed"]> invoice_fields)) |}.

(** A document with text, as [extract_batch_texts] returns it. *)
Definition document : pdf_data :=
  {| pdf_file_key := "incoming/a.pdf"; pdf_text := "bytes of a";
     pdf_num_pages := Some 1; pdf_error := None |}.

(** The extraction stage before its first request. *)
Definition idle : llm_state := {| sent := []; readings := 0 |}.

(** An invoice on which every amount is infinite. *)
Definition invoice_infinite : Models.InvoiceData :=
  {| Models.order_id := "ORD-1"; Models.restaurante := "Sabor";
     Models.cnpj := None; Models.endereco := None; Models.data_hora := noon;
     Models.itens :=
       [{| Models.nome := "Pizza"; Models.quantidade := 2;
           Models.preco_unitario := infinity; Models.preco_total := infinity |}];
     Models.subtotal := infinity; Models.taxa_entrega := 5.0;
     Models.taxa_servico := 0.0; Models.gorjeta := 0.0; Models.total := infinity;
     Models.pagamento := None; Models.endereco_entrega := None;
     Models.tempo_entrega := None; Models.entregador := None |}.

(** The extraction with a date no parser reads. *)
Definition extraction_bad_date : dict :=
  <["data_hora" := VStr "yesterday at noon"]> extraction.

(** A record whose file lies outside [incoming/]. *)
Definition archived : dict :=
  <["file_key" := VStr "archive/a.pdf"]> extraction.

End Demo.

(** * Properties *)

(** ** Batcher *)

Section Batches.
Context {A : Type}.
Implicit Types (l : list A) (b k cnt : nat).

(** With bounds in range order, a slice is a [take] of a [drop]. *)
Lemma slice_take_drop l (i j : Z) :
  0 <= i <= j ->
  Py.slice l i j = take (Z.to_nat (j - i)) (drop (Z.to_nat i) l).
Proof.
  intros Hij. unfold Py.slice, Py.clamp.
  destruct (Z.ltb_spec i 0); [lia|].
  destruct (Z.ltb_spec j 0); [lia|].
  destruct (Z_le_gt_dec i (Z.of_nat (length l))) as [Hi|Hi].
  - rewrite (Z.min_l i) by lia.
    destruct (Z_le_gt_dec j (Z.of_nat (length l))) as [Hj|Hj].
    + by rewrite (Z.min_l j) by lia.
    + rewrite (Z.min_r j) by lia.
      rewrite !take_ge; [done| |]; rewrite length_drop; lia.
  - rewrite (Z.min_r i), (Z.min_r j) by lia.
    rewrite Nat2Z.id, !drop_ge by lia. by rewrite !take_nil.
Qed.

Lemma concat_groups b l cnt :
  concat (map (group b l) (seq 0 cnt)) = take (cnt * b) l.
Proof.
  induction cnt as [|cnt IH]; [done|].
  rewrite seq_S, map_app, concat_app, IH. simpl.
  rewrite app_nil_r. unfold group.
  rewrite take_take_drop. f_equal. lia.
Qed.

Lemma length_group b l k :
  length (group b l k) = (b `min` (length l - k * b))%nat.
Proof. unfold group. by rewrite length_take, length_drop. Qed.

(** Number of groups: the ceiling of [n / b]. *)
Lemma range_len_ceil (n b : Z) :
  0 <= n -> 0 < b ->
  Py.range_len 0 n b = n / b + (if n mod b =? 0 then 0 else 1).
Proof.
  intros Hn Hb. unfold Py.range_len.
  destruct (Z.ltb_spec 0 b); [|lia].
  pose proof (Z.div_mod n b ltac:(lia)) as Hdm.
  pose proof (Z.mod_pos_bound n b Hb) as Hr.
  destruct (Z.ltb_spec 0 n) as [Hpos|Hz].
  - rewrite Z.sub_0_r.
    destruct (Z.eqb_spec (n mod b) 0) as [Hr0|Hr0].
    + symmetry. rewrite Z.add_0_r. apply Z.div_unique with (r := b - 1); [lia|].
      rewrite Hr0 in Hdm. lia.
    + symmetry. apply Z.div_unique with (r := n mod b - 1); lia.
  - assert (n = 0) as -> by lia. by rewrite Z.div_0_l, Z.mod_0_l by lia.
Qed.

(** [create_batches] cuts the list into the groups [0 .. cnt-1]. *)
Lemma create_batches_groups l (batch_size : Z) :
  0 < batch_size ->
  create_batches l batch_size =
    Ok (map (group (Z.to_nat batch_size) l)
            (seq 0 (Z.to_nat (Py.range_len 0 (Z.of_nat (length l)) batch_size)))).
Proof.
  intros Hb. destruct l as [|x l].
  { unfold Py.range_len. by destruct (Z.ltb_spec 0 batch_size); [|lia]. }
  unfold create_batches, Py.range.
  destruct (Z.eqb_spec batch_size 0); [lia|]. simpl bind.
  f_equal. rewrite map_map. apply map_ext_in. intros k _.
  rewrite slice_take_drop by lia. unfold group. f_equal; [f_equal; lia|].
  f_equal. rewrite Z.add_0_l, Z2Nat.inj_mul, Nat2Z.id; lia.
Qed.

Lemma lookup_groups b l cnt k g :
  map (group b l) (seq 0 cnt) !! k = Some g ->
  (k < cnt)%nat /\ g = group b l k.
Proof.
  rewrite list_lookup_fmap. intros Hk.
  destruct (seq 0 cnt !! k) as [k'|] eqn:Hs; [|done].
  apply lookup_seq in Hs as [-> ?]. simpl in Hk. by inversion Hk.
Qed.

(** Quotient and remainder of the list length, on [nat]. *)
Lemma length_div_mod l (batch_size : Z) :
  0 < batch_size ->
  let n := Z.of_nat (length l) in
  let b := Z.to_nat batch_size in
  Z.to_nat (n / batch_size) = (length l / b)%nat
  /\ n mod batch_size = Z.of_nat (length l mod b)
  /\ (b <> 0)%nat.
Proof.
  intros Hb n b.
  assert (batch_size = Z.of_nat b) as Hbb by (subst b; lia).
  subst n. rewrite Hbb at 1 2.
  rewrite <- Nat2Z.inj_div, <- Nat2Z.inj_mod, Nat2Z.id. lia.
Qed.

Lemma map_length_groups_full b l q :
  (q * b <= length l)%nat ->
  map (fun g => Z.of_nat (length g)) (map (group b l) (seq 0 q))
  = replicate q (Z.of_nat b).
Proof.
  intros Hq. induction q as [|q IH]; [done|].
  rewrite seq_S, !map_app, IH by lia. simpl.
  rewrite length_group.
  replace (b `min` (length l - q * b))%nat with b by lia.
  change [Z.of_nat b] with (replicate 1 (Z.of_nat b)).
  rewrite <- replicate_add, Nat.add_1_r. done.
Qed.

Lemma map_length_groups l (batch_size : Z) :
  0 < batch_size ->
  map (fun g => Z.of_nat (length g))
      (map (group (Z.to_nat batch_size) l)
           (seq 0 (Z.to_nat (Py.range_len 0 (Z.of_nat (length l)) batch_size))))
  = batch_sizes (Z.of_nat (length l)) batch_size.
Proof.
  intros Hb. rewrite range_len_ceil by lia. unfold batch_sizes.
  destruct (length_div_mod l batch_size Hb) as (Hq & Hr & Hb0).
  pose proof (Nat.div_mod (length l) (Z.to_nat batch_size) Hb0) as Hdm.
  pose proof (Nat.mod_upper_bound (length l) (Z.to_nat batch_size) Hb0) as Hlt.
  assert (0 <= Z.of_nat (length l) / batch_size) by (apply Z.div_pos; lia).
  destruct (Z.eqb_spec (Z.of_nat (length l) mod batch_size) 0) as [Hr0|Hr0].
  - rewrite Z.add_0_r, app_nil_r, Hq.
    rewrite map_length_groups_full by lia. f_equal. lia.
  - rewrite Z2Nat.inj_add, Hq by lia. change (Z.to_nat 1) with 1%nat.
    rewrite seq_app, !map_app, map_length_groups_full by lia.
    f_equal; [f_equal; lia|]. simpl. rewrite length_group. f_equal. lia.
Qed.
End Batches.

(** C7 -- [create_batches] with a positive batch size returns contiguous
    groups whose concatenation is the input (order preserved); the group
    sizes are [size, ..., size] followed by the remainder when there is one,
    so every group is non-empty, none is longer than [size] and only the last
    can be shorter; the empty list gives no group, ten files with size 5 give
    sizes [5; 5] and seven files give [5; 2]. *)
Theorem create_batches_partition {A} (file_keys : list A) (batch_size : Z) :
  0 < batch_size ->
  exists batches,
    create_batches file_keys batch_size = Ok batches
    /\ concat batches = file_keys
    /\ map (fun g => Z.of_nat (length g)) batches
       = batch_sizes (Z.of_nat (length file_keys)) batch_size
    /\ (forall k g, batches !! k = Some g ->
          (0 < length g)%nat
          /\ Z.of_nat (length g) <= batch_size
          /\ ((S k < length batches)%nat -> Z.of_nat (length g) = batch_size))
    /\ (file_keys = [] -> batches = [])
    /\ (length file_keys = 10%nat -> batch_size = 5 ->
        map length batches = [5; 5]%nat)
    /\ (length file_keys = 7%nat -> batch_size = 5 ->
        map length batches = [5; 2]%nat).
Proof.
  intros Hb. eexists. split; [by apply create_batches_groups|].
  pose proof (map_length_groups file_keys batch_size Hb) as Hsz.
  set (b := Z.to_nat batch_size) in *.
  set (cnt := Z.to_nat (Py.range_len 0 (Z.of_nat (length file_keys)) batch_size)) in *.
  destruct (length_div_mod file_keys batch_size Hb) as (Hq & Hr & Hb0).
  fold b in Hq, Hr, Hb0.
  pose proof (Nat.div_mod (length file_keys) b Hb0) as Hdm.
  pose proof (Nat.mod_upper_bound (length file_keys) b Hb0) as Hlt.
  assert (0 <= Z.of_nat (length file_keys) / batch_size) as Hq0
    by (apply Z.div_pos; lia).
  assert (cnt = length file_keys / b + (if decide (length file_keys mod b = 0) then 0 else 1))%nat
    as Hcnt.
  { subst cnt. rewrite range_len_ceil by lia.
    destruct (Z.eqb_spec (Z.of_nat (length file_keys) mod batch_size) 0);
      case_decide; lia. }
  split_and!.
  - rewrite concat_groups, take_ge; [done|]. rewrite Hcnt. case_decide; nia.
  - done.
  - intros k g [Hk ->]%lookup_groups. rewrite length_group, length_map, length_seq.
    assert (k * b < length file_keys)%nat by (rewrite Hcnt in Hk; case_decide; nia).
    split_and!; [lia|lia|]. intros Hk'.
    assert (S k * b <= length file_keys)%nat by (rewrite Hcnt in Hk'; case_decide; nia).
    lia.
  - intros ->. subst cnt. unfold Py.range_len. simpl. by destruct (0 <? batch_size).
  - intros Hlen ->. apply (f_equal (map Z.to_nat)) in Hsz.
    rewrite map_map, Hlen in Hsz. erewrite map_ext in Hsz; [|intros; apply Nat2Z.id].
    exact Hsz.
  - intros Hlen ->. apply (f_equal (map Z.to_nat)) in Hsz.
    rewrite map_map, Hlen in Hsz. erewrite map_ext in Hsz; [|intros; apply Nat2Z.id].
    exact Hsz.
Qed.

Lemma create_batches_partition_witness :
  exists batches,
    create_batches ["a"; "b"; "c"; "d"; "e"; "f"; "g"]%string 5 = Ok batches
    /\ batches = [["a"; "b"; "c"; "d"; "e"]; ["f"; "g"]]%string.
Proof.
  destruct (create_batches_partition ["a"; "b"; "c"; "d"; "e"; "f"; "g"]%string 5
              ltac:(lia)) as (batches & Hrun & _).
  exists batches. split; [exact Hrun|].
  vm_compute in Hrun. by inversion Hrun.
Defined.

(** ** Cost accounting *)

Lemma get_pricing_known (self : Llm.provider) (r : Llm.pricing) :
  Llm.pricing_map (Llm.vendor_of self) !! Llm.model self = Some r ->
  Llm._get_pricing self = r.
Proof. unfold Llm._get_pricing. by intros ->. Qed.

Lemma get_pricing_unknown (self : Llm.provider) :
  Llm.pricing_map (Llm.vendor_of self) !! Llm.model self = None ->
  Llm._get_pricing self = Llm.default_pricing (Llm.vendor_of self).
Proof. unfold Llm._get_pricing. by intros ->. Qed.

(** C8 -- for every provider and token counts (that Python can convert to
    [float]), the cost is
    [(input_tokens * input_rate + output_tokens * output_rate) / 1_000_000]
    in binary64 arithmetic, with the rates of the provider's own table for
    its model and the table's default for a model the table does not list;
    1000 input and 500 output tokens at rates 0.15 / 0.60 cost [0.00045]. *)
Theorem calculate_cost_formula (self : Llm.provider)
    (input_tokens output_tokens : Z) (i o : float) :
  float_of_int input_tokens = Ok i ->
  float_of_int output_tokens = Ok o ->
  Llm._calculate_cost self input_tokens output_tokens
  = Ok ((i * Llm.input (Llm._get_pricing self)
         + o * Llm.output (Llm._get_pricing self)) / 1000000)%float
  /\ (forall r,
        Llm.pricing_map (Llm.vendor_of self) !! Llm.model self = Some r ->
        Llm._get_pricing self = r)
  /\ (Llm.pricing_map (Llm.vendor_of self) !! Llm.model self = None ->
      Llm._get_pricing self = Llm.default_pricing (Llm.vendor_of self))
  /\ (Llm._get_pricing self = {| Llm.input := 0.15; Llm.output := 0.60 |} ->
      Llm._calculate_cost self 1000 500 = Ok 0.00045%float).
Proof.
  intros Hi Ho. split_and!.
  - unfold Llm._calculate_cost. by rewrite Hi, Ho.
  - apply get_pricing_known.
  - apply get_pricing_unknown.
  - intros Hp. unfold Llm._calculate_cost. rewrite Hp. reflexivity.
Qed.

Lemma calculate_cost_formula_witness :
  Llm._calculate_cost Demo.gpt_4o_mini 1000 500 = Ok 0.00045%float.
Proof.
  destruct (calculate_cost_formula Demo.gpt_4o_mini 1000 500 1000 500
              eq_refl eq_refl) as (_ & _ & _ & Hex).
  apply Hex. reflexivity.
Defined.

(** Every listed model resolves to its own row, every other one to the
    default of its vendor. *)
Lemma get_pricing_table (v : Llm.vendor) (k : option string) (m : string)
    (t : float) (mt : Z) :
  Llm._get_pricing
    {| Llm.vendor_of := v; Llm.api_key := k; Llm.model := m;
       Llm.temperature := t; Llm.max_tokens := mt |}
  = match v with
    | Llm.OpenAI =>
        if String.eqb m "gpt-4o" then {| Llm.input := 2.50; Llm.output := 10.00 |}
        else if String.eqb m "gpt-4-turbo" then {| Llm.input := 10.00; Llm.output := 30.00 |}
        else {| Llm.input := 0.15; Llm.output := 0.60 |}
    | Llm.Anthropic =>
        if String.eqb m "claude-3-opus-20240229" then {| Llm.input := 15.00; Llm.output := 75.00 |}
        else if String.eqb m "claude-3-sonnet-20240229" then {| Llm.input := 3.00; Llm.output := 15.00 |}
        else {| Llm.input := 0.25; Llm.output := 1.25 |}
    | Llm.Gemini =>
        if String.eqb m "gemini-1.5-pro" then {| Llm.input := 1.25; Llm.output := 5.00 |}
        else {| Llm.input := 0.0; Llm.output := 0.0 |}
    end%float.
Proof.
  unfold Llm._get_pricing, Llm.pricing_map. simpl Llm.vendor_of. simpl Llm.model.
  destruct v; simpl list_to_map;
    repeat (match goal with
            | |- context [String.eqb m ?s] =>
                destruct (String.eqb_spec m s) as [->|?]; [reflexivity|]
            end);
    repeat (rewrite lookup_insert; case_decide; subst; try done).
Qed.

(** ** Provider selection *)

Section Selector.
Context `{Llm.Sdk}.
Variables (env : Llm.environ) (api_key model : option string).

Local Abbreviation loop := (Llm.fallback_loop env api_key model).
Local Abbreviation attempt := (SelectorSpec.attempt env api_key model).
Local Abbreviation first_constructed := (SelectorSpec.first_constructed env api_key model).

(** The accumulators only grow: the loop can be run from empty ones. *)
Lemma fallback_loop_acc cands providers tried log :
  loop cands providers tried log
  = (providers ++ (loop cands [] tried []).1, log ++ (loop cands [] tried []).2).
Proof.
  revert providers tried log.
  induction cands as [|c cs IH]; intros providers tried log; simpl.
  { by rewrite !app_nil_r. }
  case_decide; [apply IH|].
  destruct (Llm.create_provider env c api_key model) as [p|e].
  - rewrite (IH (providers ++ [p])), (IH [p] _ [_]). simpl.
    rewrite <- !app_assoc. reflexivity.
  - rewrite (IH providers), (IH [] _ [_]). simpl.
    rewrite <- !app_assoc. reflexivity.
Qed.

(** Started with nothing tried, the first provider built is the first
    candidate that can be constructed. *)
Lemma fallback_loop_head cands :
  head (loop cands [] ∅ []).1 = first_constructed cands.
Proof.
  induction cands as [|c cs IH]; [done|]. simpl.
  rewrite decide_False by set_solver.
  destruct (Llm.create_provider env c api_key model) as [p|e].
  - by rewrite fallback_loop_acc.
  - rewrite fallback_loop_acc. simpl. apply IH.
Qed.

(** With no name listed twice and none tried yet, every candidate is
    attempted once, in order. *)
Lemma fallback_loop_log_nodup cands tried :
  NoDup cands ->
  (forall c, c ∈ cands -> c ∉ tried) ->
  (loop cands [] tried []).2 = map attempt cands.
Proof.
  revert tried. induction cands as [|c cs IH]; intros tried Hnd Hout; [done|].
  apply NoDup_cons in Hnd as [Hc Hnd]. simpl.
  rewrite decide_False by (apply Hout; set_solver).
  unfold SelectorSpec.attempt at 1.
  destruct (Llm.create_provider env c api_key model) as [p|e];
    rewrite fallback_loop_acc; simpl; f_equal; apply IH; try done.
  - intros c' Hc'. pose proof (Hout c'). set_solver.
  - intros c' Hc'. apply Hout. set_solver.
Qed.

(** Whatever the order lists, the attempts follow the candidates' order
    and no candidate is left out. *)
Lemma fallback_loop_attempts cands tried :
  sublist (map Llm.attempted (loop cands [] tried []).2) cands
  /\ (forall c, c ∈ cands ->
        c ∈ tried \/ c ∈ map Llm.attempted (loop cands [] tried []).2).
Proof.
  revert tried. induction cands as [|c cs IH]; intros tried.
  { split; [done|]. intros c Hc. by apply elem_of_nil in Hc. }
  simpl. case_decide as Hin.
  - destruct (IH tried) as [Hs Hall]. split; [by apply sublist_cons|].
    intros c' [->|Hc']%elem_of_cons; [by left|by apply Hall].
  - destruct (Llm.create_provider env c api_key model) as [p|e];
      rewrite fallback_loop_acc; simpl.
    + destruct (IH ({[c]} ∪ tried)) as [Hs Hall]. split; [by apply sublist_skip|].
      intros c' [->|Hc']%elem_of_cons; [right; set_solver|].
      destruct (Hall c' Hc') as [Ht|Ha]; [|right; set_solver].
      apply elem_of_union in Ht as [->%elem_of_singleton|Ht];
        [right; set_solver|by left].
    + destruct (IH tried) as [Hs Hall]. split; [by apply sublist_skip|].
      intros c' [->|Hc']%elem_of_cons; [right; set_solver|].
      destruct (Hall c' Hc') as [Ht|Ha]; [by left|right; set_solver].
Qed.

(** Removing later duplicates does not change which candidate is first to
    construct. *)
Lemma first_constructed_dedup seen l :
  (forall c, c ∈ seen -> exists e, Llm.create_provider env c api_key model = Raise e) ->
  first_constructed (SelectorSpec.dedup seen l) = first_constructed l.
Proof.
  revert seen. induction l as [|x l IH]; intros seen Hseen; [done|]. simpl.
  case_decide as Hin.
  - destruct (Hseen x Hin) as [e ->]. by apply IH.
  - simpl. destruct (Llm.create_provider env x api_key model) as [p|e] eqn:Hx; [done|].
    apply IH. intros c [->|Hc]%elem_of_cons; eauto.
Qed.

Lemma first_constructed_filter primary l :
  first_constructed (primary :: filter (fun c => c <> primary) l)
  = first_constructed (primary :: l).
Proof.
  simpl. destruct (Llm.create_provider env primary api_key model) as [p|e] eqn:Hp; [done|].
  induction l as [|x l IH]; [done|].
  rewrite filter_cons. case_decide as Hx; simpl.
  - destruct (Llm.create_provider env x api_key model); [done|apply IH].
  - subst x. by rewrite Hp.
Qed.

(** On a list without repetition the code's candidates are the
    specification's. *)
Lemma dedup_nodup seen l :
  NoDup l -> (forall c, c ∈ l -> c ∉ seen) -> SelectorSpec.dedup seen l = l.
Proof.
  revert seen. induction l as [|x l IH]; intros seen Hnd Hout; [done|].
  apply NoDup_cons in Hnd as [Hx Hnd]. simpl.
  rewrite decide_False by (apply Hout; set_solver). f_equal.
  apply IH; [done|]. intros c Hc [->|Hs]%elem_of_cons; [done|].
  apply (Hout c); set_solver.
Qed.

Lemma dedup_seen x seen l :
  x ∈ seen -> SelectorSpec.dedup seen (filter (fun c => c <> x) l) = SelectorSpec.dedup seen l.
Proof.
  revert seen. induction l as [|y l IH]; intros seen Hx; [done|].
  rewrite filter_cons. case_decide as Hy; simpl.
  - case_decide; [by apply IH|]. f_equal. apply IH. set_solver.
  - subst y. rewrite decide_True by done. by apply IH.
Qed.

Lemma candidates_strip primary fallback :
  Llm.candidates primary fallback
  = primary :: filter (fun c => c <> primary) (map Str.strip fallback).
Proof.
  unfold Llm.candidates. f_equal.
  induction fallback as [|x l IH]; [done|].
  rewrite !filter_cons. simpl. rewrite filter_cons.
  repeat case_decide; simpl; try done; by f_equal.
Qed.
End Selector.

(** C3, as amended -- with fallback enabled, the provider returned is the
    first candidate that can be constructed, the candidates being the
    configured primary followed by the (stripped) fallback entries other than
    the primary, and the call fails with the no-provider error when no
    candidate constructs; candidates are attempted in order and none is left
    out; when the candidates name no provider twice the run is exactly the
    specified one: every candidate attempted once, failures skipped.  With
    fallback disabled the call is the construction of the primary alone,
    its error included. *)
Theorem get_primary_provider_selects `{Llm.Sdk} (env : Llm.environ)
    (api_key model : option string) :
  let cands :=
    Llm.candidates (SelectorSpec.configured_primary env)
                   (SelectorSpec.configured_fallback env) in
  let run := Llm.get_primary_provider env api_key model in
  (SelectorSpec.fallback_enabled env = true ->
     run.1 = (SelectorSpec.select env api_key model).1
     /\ sublist (map Llm.attempted run.2) cands
     /\ (forall c, c ∈ cands -> c ∈ map Llm.attempted run.2)
     /\ (NoDup cands -> run = SelectorSpec.select env api_key model))
  /\ (SelectorSpec.fallback_enabled env = false ->
       run = (Llm.create_provider env (SelectorSpec.configured_primary env)
                                  api_key model, [])).
Proof.
  intros cands run. split; [intros Hon|].
  2:{ intros Hoff. subst run. unfold Llm.get_primary_provider.
      unfold SelectorSpec.fallback_enabled in Hoff. by rewrite Hoff. }
  assert (run = (match head (Llm.fallback_loop env api_key model cands [] ∅ []).1 with
                 | Some p => Ok p
                 | None => Raise (RuntimeError "No LLM providers could be initialized")
                 end,
                 (Llm.fallback_loop env api_key model cands [] ∅ []).2)) as Hrun.
  { subst run. unfold Llm.get_primary_provider.
    unfold SelectorSpec.fallback_enabled in Hon. rewrite Hon.
    unfold Llm.create_with_fallback. fold (SelectorSpec.configured_primary env).
    fold (SelectorSpec.configured_fallback env). fold cands.
    destruct (Llm.fallback_loop env api_key model cands [] ∅ []) as [[|p ps] log];
      reflexivity. }
  assert (SelectorSpec.first_constructed env api_key model
            (SelectorSpec.candidate_sequence env)
          = SelectorSpec.first_constructed env api_key model cands) as Hfirst.
  { unfold SelectorSpec.candidate_sequence.
    rewrite first_constructed_dedup by (intros c Hc; by apply elem_of_nil in Hc).
    subst cands. by rewrite candidates_strip, first_constructed_filter. }
  destruct (fallback_loop_attempts env api_key model cands ∅) as [Hsub Hall].
  rewrite Hrun. cbn [fst snd]. split_and!.
  - unfold SelectorSpec.select. cbn [fst]. by rewrite fallback_loop_head, Hfirst.
  - done.
  - intros c Hc. destruct (Hall c Hc) as [Hin|Hin]; [set_solver|done].
  - intros Hnd. unfold SelectorSpec.select. clear Hsub Hall.
    rewrite fallback_loop_head, Hfirst. f_equal.
    rewrite fallback_loop_log_nodup by (done || set_solver). f_equal.
    unfold SelectorSpec.candidate_sequence. subst cands.
    rewrite candidates_strip in *. simpl.
    f_equal.
    rewrite <- (dedup_seen (SelectorSpec.configured_primary env)) by set_solver.
    apply NoDup_cons in Hnd as [Hp Hnd].
    symmetry. apply dedup_nodup; [done|]. intros c Hc [->|Hn]%elem_of_cons; [done|].
    by apply elem_of_nil in Hn.
Qed.

Lemma get_primary_provider_selects_witness :
  Llm.get_primary_provider Demo.env_gemini_only None None
  = SelectorSpec.select Demo.env_gemini_only None None.
Proof.
  destruct (get_primary_provider_selects Demo.env_gemini_only None None)
    as [Hon _].
  destruct (Hon eq_refl) as (_ & _ & _ & Hrun).
  apply Hrun. vm_compute.
  repeat (apply NoDup_cons; split;
          [rewrite ?elem_of_cons, elem_of_nil; intuition congruence|]).
  apply NoDup_nil_2.
Defined.

(** C3, as stated, fails when fallback is switched off: the primary cannot
    be constructed, the fallback candidate [gemini] can, and the call raises
    the primary's construction error instead of returning it. *)
Lemma get_primary_provider_without_fallback :
  Llm.get_primary_provider Demo.env_no_fallback None None
  = (Raise (OtherError "missing credential"), [])
  /\ (exists p, (SelectorSpec.select Demo.env_no_fallback None None).1 = Ok p
                /\ Llm.vendor_of p = Llm.Gemini)
  /\ Llm.get_primary_provider Demo.env_no_fallback None None
     <> SelectorSpec.select Demo.env_no_fallback None None.
Proof.
  split_and!.
  - reflexivity.
  - eexists. split; reflexivity.
  - vm_compute. discriminate.
Qed.

(** A fallback order that repeats a provider whose construction fails gets
    it attempted again. *)
Lemma fallback_repeats_failed_candidate :
  map Llm.attempted
    (Llm.get_primary_provider (<["LLM_FALLBACK_ORDER" := "gemini,gemini"]> ∅) None None).2
  = ["openai"; "gemini"; "gemini"]%string.
Proof. reflexivity. Qed.

(** ** Extraction stage *)

Section Extraction.
Context `{Runtime} `{Clock} `{Llm.Sdk}.

Lemma failed_result_file_key key error :
  failed_result key error !! "file_key" = Some (VStr key).
Proof. reflexivity. Qed.

Lemma failed_result_status key error :
  failed_result key error !! "status" = Some (VStr "failed").
Proof. reflexivity. Qed.

(** A document without text is marked failed and no request is sent. *)
Lemma process_document_unreadable provider d st :
  is_Some (pdf_error d) \/ pdf_text d = "" ->
  process_document provider d st
  = (failed_result (pdf_file_key d) (default "No text extracted" (pdf_error d)), st).
Proof.
  intros Hd. unfold process_document.
  destruct Hd as [He|Ht].
  - by rewrite bool_decide_eq_true_2.
  - rewrite Ht. simpl. by rewrite orb_true_r.
Qed.

(** A failing call (vendor error, malformed JSON, JSON that is not an
    object) marks the document failed with the error's text. *)
Lemma process_document_call_failed provider d st e st' :
  pdf_error d = None -> pdf_text d <> "" ->
  call_llm provider d st = (Raise e, st') ->
  process_document provider d st = (failed_result (pdf_file_key d) (str_exn e), st').
Proof.
  intros He Ht Hc. unfold process_document.
  rewrite He. rewrite bool_decide_eq_false_2 by (by intros [? ?]).
  destruct (pdf_text d) as [|c s] eqn:Hs; [done|]. simpl. by rewrite Hc.
Qed.

(** A call that returns gives the document its record. *)
Lemma process_document_call_returned provider d st r st' :
  pdf_error d = None -> pdf_text d <> "" ->
  call_llm provider d st = (Ok r, st') ->
  process_document provider d st = (r, st').
Proof.
  intros He Ht Hc. unfold process_document.
  rewrite He. rewrite bool_decide_eq_false_2 by (by intros [? ?]).
  destruct (pdf_text d) as [|c s] eqn:Hs; [done|]. simpl. by rewrite Hc.
Qed.

Lemma call_llm_file_key provider d st r st' :
  call_llm provider d st = (Ok r, st') ->
  r !! "file_key" = Some (VStr (pdf_file_key d)).
Proof.
  unfold call_llm.
  destruct (Llm.extract_invoice_data _ _ _ _ _) as [resp sent'].
  destruct (bind resp _) as [[llm_response fields]|e]; [|done].
  intros [= <- _]. by simplify_map_eq.
Qed.

(** Whatever happens, the result of a document carries its file key. *)
Lemma process_document_file_key provider d st :
  (process_document provider d st).1 !! "file_key" = Some (VStr (pdf_file_key d)).
Proof.
  unfold process_document.
  destruct (_ || _); [done|].
  destruct (call_llm provider d st) as [[r|e] st'] eqn:Hc; [|done].
  by eapply call_llm_file_key.
Qed.

(** The loop takes the documents one after the other: a batch cut in two is
    processed as the first part, then the second part from the state the
    first part left. *)
Lemma process_documents_app provider l1 l2 st :
  process_documents provider (l1 ++ l2) st
  = let r1 := process_documents provider l1 st in
    let r2 := process_documents provider l2 r1.2 in
    (r1.1 ++ r2.1, r2.2).
Proof.
  revert st. induction l1 as [|d l1 IH]; intros st; simpl.
  { by destruct (process_documents provider l2 st). }
  destruct (process_document provider d st) as [r st1].
  rewrite IH. simpl.
  destruct (process_documents provider l1 st1) as [rs st2]. simpl.
  by destruct (process_documents provider l2 st2).
Qed.

Lemma process_documents_length provider l st :
  length (process_documents provider l st).1 = length l.
Proof.
  revert st. induction l as [|d l IH]; intros st; simpl; [done|].
  destruct (process_document provider d st) as [r st1].
  specialize (IH st1). destruct (process_documents provider l st1). simpl in *.
  by rewrite IH.
Qed.

(** The [i]-th result is the outcome of the [i]-th document, processed in
    the state left by the documents before it. *)
Lemma process_documents_lookup provider l st i d :
  l !! i = Some d ->
  (process_documents provider l st).1 !! i
  = Some (process_document provider d
            (process_documents provider (take i l) st).2).1.
Proof.
  intros Hi.
  rewrite <- (take_drop_middle l i d Hi) at 1.
  rewrite process_documents_app. cbn zeta. simpl.
  destruct (process_document provider d _) as [r st1] eqn:Hd.
  destruct (process_documents provider (drop (S i) l) st1) as [rs st2]. simpl.
  rewrite lookup_app_r; rewrite process_documents_length, length_take_le;
    try (apply lookup_lt_Some in Hi; lia).
  by rewrite Nat.sub_diag.
Qed.
End Extraction.

(** C5 -- the extraction stage returns one entry per input document, each
    carrying its document's file key.  When no provider can be selected every
    entry is the failed marker with the selection error and nothing is sent to
    a vendor.  Otherwise the documents are taken in order, each from the
    state the previous ones left: a document with an extraction error or
    without text is marked failed without a request, a document whose call
    fails (vendor error, malformed JSON, JSON that is not an object) is marked
    failed with the error, and a document whose call returns gets the record
    the call returned, not a failed marker; in each case the documents after
    it are processed all the same. *)
Theorem process_batch_with_llm_isolates_failures `{Runtime} `{Clock} `{Llm.Sdk}
    (env : Llm.environ) (batch_data : list pdf_data) (st : llm_state) :
  let out := process_batch_with_llm env batch_data st in
  length out.1 = length batch_data
  /\ (forall i d, batch_data !! i = Some d ->
        exists r, out.1 !! i = Some r
                  /\ r !! "file_key" = Some (VStr (pdf_file_key d)))
  /\ (forall e, (Llm.get_primary_provider env None None).1 = Raise e ->
        out.1 = map (fun d => failed_result (pdf_file_key d) (str_exn e)) batch_data
        /\ out.2 = st)
  /\ (forall provider, (Llm.get_primary_provider env None None).1 = Ok provider ->
        (forall i d, batch_data !! i = Some d ->
           let before := (process_documents provider (take i batch_data) st).2 in
           let step := process_document provider d before in
           out.1 !! i = Some step.1
           /\ (process_documents provider (take (S i) batch_data) st).2 = step.2
           /\ (is_Some (pdf_error d) \/ pdf_text d = "" ->
               step = (failed_result (pdf_file_key d)
                         (default "No text extracted" (pdf_error d)), before))
           /\ (forall e st', pdf_error d = None -> pdf_text d <> "" ->
                 call_llm provider d before = (Raise e, st') ->
                 step = (failed_result (pdf_file_key d) (str_exn e), st'))
           /\ (forall r st', pdf_error d = None -> pdf_text d <> "" ->
                 call_llm provider d before = (Ok r, st') ->
                 step = (r, st')))).
Proof.
  intros out. subst out. unfold process_batch_with_llm.
  destruct (Llm.get_primary_provider env None None).1 as [provider|e] eqn:Hsel.
  - split_and!.
    + apply process_documents_length.
    + intros i d Hi. eexists. split; [by apply process_documents_lookup|].
      apply process_document_file_key.
    + intros e [=].
    + intros p [= <-] i d Hi. cbn zeta. split_and!.
      * by apply process_documents_lookup.
      * rewrite (take_S_r _ _ _ Hi), process_documents_app. simpl.
        by destruct (process_document provider d _).
      * apply process_document_unreadable.
      * intros e st'. apply process_document_call_failed.
      * intros r st'. apply process_document_call_returned.
  - simpl. split_and!.
    + by rewrite length_map.
    + intros i d Hi. eexists. split.
      * rewrite list_lookup_fmap, Hi. reflexivity.
      * reflexivity.
    + by intros e' [= <-].
    + intros p [=].
Qed.

Lemma process_batch_with_llm_isolates_failures_witness :
  let batch_data :=
    extract_batch_texts Demo.stored_objects
      ["incoming/a.pdf"; "incoming/b.pdf"; "incoming/c.pdf"; "incoming/a.pdf"]%string in
  let out := process_batch_with_llm Demo.env_gemini_only batch_data Demo.idle in
  length out.1 = 4%nat
  /\ map (fun r : dict => r !! "error") out.1
     = [None; Some (VStr "EOF marker not found"); Some (VStr "rate limit"); None]
  /\ exists r, out.1 !! 0%nat = Some r /\ r !! "order_id" = Some (VStr "ORD-1").
Proof.
  intros batch_data out.
  destruct (process_batch_with_llm_isolates_failures Demo.env_gemini_only
              batch_data Demo.idle) as (Hlen & _ & _ & Hrun).
  fold out in Hlen, Hrun.
  assert (exists provider,
             (Llm.get_primary_provider Demo.env_gemini_only None None).1 = Ok provider)
    as [provider Hsel] by (vm_compute; eexists; reflexivity).
  assert (exists d, batch_data !! 0%nat = Some d
                    /\ pdf_error d = None /\ pdf_text d <> ""
                    /\ pdf_file_key d = "incoming/a.pdf"%string)
    as (d & Hd & Herr & Htext & Hkey).
  { eexists. split; [reflexivity|]. by split_and!; vm_compute. }
  destruct (Hrun provider Hsel 0%nat d Hd) as (Hstep & _ & _ & _ & Hreturned).
  change (process_documents provider (take 0 batch_data) Demo.idle).2
    with Demo.idle in Hstep, Hreturned.
  set (observe := fun x : result dict * llm_state =>
                    match x.1 with
                    | Ok r => r !! "order_id"
                    | Raise _ => None
                    end).
  assert (observe (call_llm provider d Demo.idle) = Some (VStr "ORD-1")) as Hobs.
  { clear Hstep Hreturned Hrun Hlen. subst observe.
    assert (d = extract_text Demo.stored_objects "incoming/a.pdf") as ->
      by (by injection Hd as <-).
    revert Hsel. vm_compute. intros [= <-]. reflexivity. }
  destruct (call_llm provider d Demo.idle) as [[r|e] st'] eqn:Hcall; [|done].
  rewrite (Hreturned r st' Herr Htext eq_refl) in Hstep.
  split_and!.
  - rewrite Hlen. reflexivity.
  - vm_compute. reflexivity.
  - exists r. split; [exact Hstep|exact Hobs].
Defined.

(** ** Validation *)

Section Validation.
Context `{Runtime} `{Models.Pydantic}.

(** *** Where field errors are reported *)

Lemma located_error_at name m : located (Models.error_at name m).
Proof. by repeat constructor. Qed.

Lemma located_below item errors : located (Models.below item errors).
Proof. unfold located, Models.below. by rewrite Forall_fmap, Forall_forall. Qed.

Lemma located_app e1 e2 : located e1 -> located e2 -> located (e1 ++ e2).
Proof. apply Forall_app_2. Qed.

Lemma located_nil : located [].
Proof. constructor. Qed.

Create HintDb located.
#[local] Hint Resolve located_error_at located_below located_app located_nil : located.

Lemma located_required_str d name : located (Models.errors_of (Models.required_str d name)).
Proof.
  unfold Models.required_str.
  repeat (case_match; simpl; auto with located).
Qed.

Lemma located_optional_str d name : located (Models.errors_of (Models.optional_str d name)).
Proof.
  unfold Models.optional_str.
  repeat (case_match; simpl; auto with located).
Qed.

Lemma located_float_ge_0 name v : located (Models.errors_of (Models.float_ge_0 name v)).
Proof.
  unfold Models.float_ge_0.
  repeat (case_match; simpl; auto with located).
Qed.

Lemma located_required_float d name : located (Models.errors_of (Models.required_float d name)).
Proof.
  unfold Models.required_float.
  case_match; simpl; auto using located_float_ge_0 with located.
Qed.

Lemma located_default_float d name : located (Models.errors_of (Models.default_float d name)).
Proof.
  unfold Models.default_float.
  case_match; simpl; auto using located_float_ge_0 with located.
Qed.

Lemma located_required_datetime d : located (Models.errors_of (Models.required_datetime d)).
Proof.
  unfold Models.required_datetime, Models.parse_datetime.
  repeat (case_match; simpl; auto with located).
Qed.

Lemma located_required_items d errors :
  Models.required_items d = Ok (Models.Invalid errors) -> located errors.
Proof.
  unfold Models.required_items.
  destruct (d !! "itens") as [[]|]; try (intros [= <-]; auto with located).
  destruct (Models.validate_items 0 l) as [[[|item items]|errs]|e]; [| | |done];
    simpl; intros ?; simplify_eq; auto with located.
Qed.

(** An entry that names a place gets its message; one that names none makes
    the subscript [err['loc'][0]] fail. *)
Lemma error_details_of_located errors :
  located errors -> error_details_of errors = Ok (map detail_text errors).
Proof.
  induction 1 as [|err errors Hloc _ IH]; [done|]. simpl.
  unfold error_detail, detail_text. destruct (Models.loc err); [done|]. simpl.
  by rewrite IH.
Qed.

Lemma error_details_of_unlocated err errors :
  Models.loc err = [] -> error_details_of (err :: errors) = Raise IndexError.
Proof. intros Hloc. simpl. unfold error_detail. by rewrite Hloc. Qed.

(** *** The record validator *)

Lemma validate_invoice_total_spec self :
  Models.validate_invoice_total self
  = if Models.total_mismatch self || Models.subtotal_mismatch self
    then Models.Invalid
           (match Models.validate_invoice_total self with
            | Models.Invalid errors => errors
            | Models.Valid _ => []
            end)
    else Models.Valid self.
Proof.
  unfold Models.validate_invoice_total, Models.total_mismatch, Models.subtotal_mismatch.
  destruct (0.01 <? _)%float; [done|]. simpl.
  by destruct (0.01 <? _)%float.
Qed.

(** The record is accepted exactly when neither check trips. *)
Lemma validate_invoice_total_accepts self r :
  Models.validate_invoice_total self = Models.Valid r <->
  r = self /\ Models.total_mismatch self = false
  /\ Models.subtotal_mismatch self = false.
Proof.
  unfold Models.validate_invoice_total, Models.total_mismatch, Models.subtotal_mismatch.
  destruct (0.01 <? _)%float; [naive_solver|].
  destruct (0.01 <? _)%float; naive_solver.
Qed.

(** A rejection is one error, reported at the model itself. *)
Lemma validate_invoice_total_rejects self :
  Models.total_mismatch self || Models.subtotal_mismatch self = true ->
  exists m, Models.validate_invoice_total self
            = Models.Invalid [{| Models.loc := []; Models.msg := m |}].
Proof.
  unfold Models.validate_invoice_total, Models.total_mismatch, Models.subtotal_mismatch.
  destruct (0.01 <? _)%float; [by eexists|]. simpl.
  destruct (0.01 <? _)%float; [by eexists|done].
Qed.

(** *** Constructing [InvoiceData] *)

(** Split on the outcome of the next field the constructor looks at. *)
Ltac next_field :=
  match goal with
  | |- context [match ?x with Models.Valid _ => _ | Models.Invalid _ => _ end] =>
      destruct x eqn:?
  end.

#[local] Hint Resolve located_required_str located_optional_str located_required_float
  located_default_float located_required_datetime : located.

(** When every field passes, the outcome is the record validator's. *)
Lemma InvoiceData_validate_fields extraction inv :
  Models.fields_valid extraction inv ->
  Models.InvoiceData_validate extraction = Ok (Models.validate_invoice_total inv).
Proof.
  intros (H1 & H2 & H3 & H4 & H5 & H6 & H7 & H8 & H9 & H10 & H11 & H12 & H13
          & H14 & H15).
  unfold Models.InvoiceData_validate.
  rewrite H1, H2, H3, H4, H5, H6, H7, H8, H9, H10, H11, H12, H13, H14, H15.
  simpl. by destruct inv.
Qed.

(** The constructor returns a record only when every field passed and the
    record validator accepted it. *)
Lemma InvoiceData_validate_Valid extraction inv :
  Models.InvoiceData_validate extraction = Ok (Models.Valid inv) ->
  Models.fields_valid extraction inv
  /\ Models.total_mismatch inv = false
  /\ Models.subtotal_mismatch inv = false.
Proof.
  unfold Models.InvoiceData_validate.
  destruct (Models.required_items extraction) as [items|e] eqn:Hitems; [|done].
  simpl. do 15 (next_field; [|done]). subst items.
  intros [= (-> & Ht & Hs)%validate_invoice_total_accepts].
  split; [|done]. unfold Models.fields_valid. split_and!; assumption.
Qed.

Ltac refuse :=
  intros [= <-]; left; cbn [Models.errors_of];
  repeat apply located_app; assumption.

(** A refusal comes either from the fields, and then every entry names a
    place, or from the record validator. *)
Lemma InvoiceData_validate_Invalid extraction errors :
  Models.InvoiceData_validate extraction = Ok (Models.Invalid errors) ->
  located errors
  \/ (exists inv, Models.fields_valid extraction inv
                  /\ Models.validate_invoice_total inv = Models.Invalid errors).
Proof.
  unfold Models.InvoiceData_validate, Models.fields_valid.
  destruct (Models.required_items extraction) as [items|e] eqn:Hitems; [|done].
  cbn [bind].
  assert (located (Models.errors_of items)) as Hl.
  { destruct items; simpl; [auto with located|by eapply located_required_items]. }
  clear Hitems. revert Hl.
  generalize (located_required_str extraction "order_id").
  generalize (Models.required_str extraction "order_id").
  generalize (located_required_str extraction "restaurante").
  generalize (Models.required_str extraction "restaurante").
  generalize (located_optional_str extraction "cnpj").
  generalize (Models.optional_str extraction "cnpj").
  generalize (located_optional_str extraction "endereco").
  generalize (Models.optional_str extraction "endereco").
  generalize (located_required_datetime extraction).
  generalize (Models.required_datetime extraction).
  generalize (located_required_float extraction "subtotal").
  generalize (Models.required_float extraction "subtotal").
  generalize (located_default_float extraction "taxa_entrega").
  generalize (Models.default_float extraction "taxa_entrega").
  generalize (located_default_float extraction "taxa_servico").
  generalize (Models.default_float extraction "taxa_servico").
  generalize (located_default_float extraction "gorjeta").
  generalize (Models.default_float extraction "gorjeta").
  generalize (located_required_float extraction "total").
  generalize (Models.required_float extraction "total").
  generalize (located_optional_str extraction "pagamento").
  generalize (Models.optional_str extraction "pagamento").
  generalize (located_optional_str extraction "endereco_entrega").
  generalize (Models.optional_str extraction "endereco_entrega").
  generalize (located_optional_str extraction "tempo_entrega").
  generalize (Models.optional_str extraction "tempo_entrega").
  generalize (located_optional_str extraction "entregador").
  generalize (Models.optional_str extraction "entregador").
  intros f15 L15 f14 L14 f13 L13 f12 L12 f11 L11 f10 L10 f9 L9 f8 L8 f7 L7
         f5 L5 f4 L4 f3 L3 f2 L2 f1 L1 L6.
  destruct f1; [|refuse]. destruct f2; [|refuse]. destruct f3; [|refuse].
  destruct f4; [|refuse]. destruct f5; [|refuse]. destruct items; [|refuse].
  destruct f7; [|refuse]. destruct f8; [|refuse]. destruct f9; [|refuse].
  destruct f10; [|refuse]. destruct f11; [|refuse]. destruct f12; [|refuse].
  destruct f13; [|refuse]. destruct f14; [|refuse]. destruct f15; [|refuse].
  intros [= Hv]. right. eexists. split; [|exact Hv].
  cbn. split_and!; reflexivity.
Qed.

(** *** Lines *)

Lemma validate_total_checked v q pu fq :
  float_of_int q = Ok fq ->
  exists m,
    Models.validate_total v (Some q) (Some pu)
    = Ok (if (0.01 <? abs (v - fq * pu))%float
          then Models.Invalid [{| Models.loc := []; Models.msg := m |}]
          else Models.Valid v).
Proof.
  intros Hq. unfold Models.validate_total. rewrite Hq. cbn [bind].
  eexists. destruct (0.01 <? abs (v - fq * pu))%float; reflexivity.
Qed.

(** A line is accepted only when its total is within the tolerance of
    quantity times unit price. *)
Lemma InvoiceItem_validate_Valid v item :
  Models.InvoiceItem_validate v = Ok (Models.Valid item) ->
  exists q, float_of_int (Models.quantidade item) = Ok q
            /\ Models.line_mismatch q item = false
            /\ 1 <= Models.quantidade item.
Proof.
  unfold Models.InvoiceItem_validate. destruct v; try done.
  destruct (Models.required_int d "quantidade") as [q|?] eqn:Hq;
    destruct (Models.required_float d "preco_unitario") as [pu|?];
    destruct (Models.required_float d "preco_total") as [pt|?];
    cbn [Models.to_option Models.validate_total bind];
    try (destruct (float_of_int q) as [fq|] eqn:Hfq; cbn [bind];
         [destruct (0.01 <? abs (pt - fq * pu))%float eqn:Hm|]);
    destruct (Models.required_str d "nome") as [n|?]; try done.
  cbn. intros [= <-]. exists fq. unfold Models.line_mismatch. cbn.
  split_and!; [done|done|].
  unfold Models.required_int in Hq. repeat case_match; simplify_eq. lia.
Qed.

(** A line whose total is off is refused, below [preco_total]. *)
Lemma InvoiceItem_validate_mismatch d n q pu pt fq :
  Models.required_str d "nome" = Models.Valid n ->
  Models.required_int d "quantidade" = Models.Valid q ->
  Models.required_float d "preco_unitario" = Models.Valid pu ->
  Models.required_float d "preco_total" = Models.Valid pt ->
  float_of_int q = Ok fq ->
  (0.01 <? abs (pt - fq * pu))%float = true ->
  exists m,
    Models.InvoiceItem_validate (VDict d)
    = Ok (Models.Invalid
            [{| Models.loc := [Models.LKey "preco_total"]; Models.msg := m |}]).
Proof.
  intros Hn Hq Hpu Hpt Hfq Hm. unfold Models.InvoiceItem_validate.
  rewrite Hn, Hq, Hpu, Hpt. cbn [Models.to_option].
  destruct (validate_total_checked pt q pu fq Hfq) as [m ->]. rewrite Hm.
  cbn. by eexists.
Qed.

Lemma validate_items_Valid i l items :
  Models.validate_items i l = Ok (Models.Valid items) ->
  length items = length l /\ Forall Models.line_ok items.
Proof.
  revert i items. induction l as [|v l IH]; intros i items; simpl.
  { by intros [= <-]. }
  destruct (Models.InvoiceItem_validate v) as [[item|errs]|] eqn:Hv; [| |done];
    simpl; destruct (Models.validate_items (S i) l) as [[its|es]|] eqn:Hl;
    try done; simpl.
  intros [= <-]. destruct (IH _ _ Hl) as [Hlen Hall].
  split; [simpl; by rewrite Hlen|]. constructor; [|done].
  by eapply InvoiceItem_validate_Valid.
Qed.

(** One refused line refuses the list. *)
Lemma validate_items_Invalid i l k v errs :
  l !! k = Some v ->
  Models.InvoiceItem_validate v = Ok (Models.Invalid errs) ->
  exists r, Models.validate_items i l = r
            /\ forall items, r <> Ok (Models.Valid items).
Proof.
  revert i k. induction l as [|w l IH]; intros i k Hk Hv; [done|].
  eexists; split; [done|]. intros items. simpl.
  destruct k as [|k]; simpl in Hk.
  - simplify_eq. rewrite Hv. simpl.
    by destruct (Models.validate_items (S i) l) as [[]|].
  - destruct (IH (S i) k Hk Hv) as (r & <- & Hr).
    destruct (Models.InvoiceItem_validate w) as [[]|]; simpl; [| |done];
      destruct (Models.validate_items (S i) l) as [[its|]|]; simpl; try done.
    by destruct (Hr its).
Qed.

Lemma required_items_Valid d items :
  Models.required_items d = Ok (Models.Valid items) ->
  items <> [] /\ Forall Models.line_ok items
  /\ exists l, d !! "itens" = Some (VList l) /\ length items = length l.
Proof.
  unfold Models.required_items.
  destruct (d !! "itens") as [[]|]; try done.
  destruct (Models.validate_items 0 l) as [[[|item its]|]|] eqn:Hl; try done.
  simpl. intros [= <-]. apply validate_items_Valid in Hl as [Hlen Hall].
  split_and!; [done|done|]. by eexists.
Qed.

(** Only the conversion of an oversized quantity can raise. *)
Lemma InvoiceItem_validate_Raise v e :
  Models.InvoiceItem_validate v = Raise e -> e = OverflowError.
Proof.
  unfold Models.InvoiceItem_validate. destruct v; try done.
  destruct (Models.required_float d "preco_total") as [pt|?]; [|done].
  destruct (Models.required_int d "quantidade") as [q|?];
    destruct (Models.required_float d "preco_unitario") as [pu|?];
    cbn [Models.to_option Models.validate_total bind]; try done.
  unfold float_of_int. destruct (is_infinity _); cbn [bind]; [by intros [= <-]|].
  by destruct (0.01 <? _)%float.
Qed.

Lemma validate_items_Raise i l e :
  Models.validate_items i l = Raise e -> e = OverflowError.
Proof.
  revert i. induction l as [|v l IH]; intros i; [done|]. simpl.
  destruct (Models.InvoiceItem_validate v) as [r|e'] eqn:Hv; simpl.
  - destruct (Models.validate_items (S i) l) as [rest|e'] eqn:Hl; simpl; [done|].
    intros [= <-]. by eapply IH.
  - intros [= <-]. by eapply InvoiceItem_validate_Raise.
Qed.

Lemma InvoiceData_validate_Raise extraction e :
  Models.InvoiceData_validate extraction = Raise e -> e = OverflowError.
Proof.
  unfold Models.InvoiceData_validate, Models.required_items.
  destruct (extraction !! "itens") as [[]|]; try done.
  destruct (Models.validate_items 0 l) as [r|e'] eqn:Hl; [done|].
  intros [= <-]. by eapply validate_items_Raise.
Qed.

(** *** The stage *)

Lemma located_ExtractionResult inv a b c d e f errors :
  Models.ExtractionResult_validate inv a b c d e f = Models.Invalid errors ->
  located errors.
Proof.
  unfold Models.ExtractionResult_validate, Models.plain.
  destruct (Models.str_validate a), (Models.str_validate b), (Models.str_validate c),
    (Models.int_validate d), (Models.float_validate e), (Models.float_validate f);
    cbn; intros ?; simplify_eq; unfold located, Models.error_at;
    repeat constructor; done.
Qed.

Lemma check_extraction_Invalid extraction errors :
  check_extraction extraction = Ok (Models.Invalid errors) ->
  located errors
  \/ (exists inv, Models.fields_valid extraction inv
                  /\ Models.validate_invoice_total inv = Models.Invalid errors).
Proof.
  unfold check_extraction.
  destruct (Models.InvoiceData_validate extraction) as [[inv|errs]|] eqn:Hv;
    [| |done]; cbn [bind].
  - destruct (subscript extraction "file_key"); [|done]. cbn [bind].
    intros [= Hr]. left. by eapply located_ExtractionResult.
  - intros [= <-]. by apply InvoiceData_validate_Invalid.
Qed.

Lemma validate_extraction_failed extraction :
  eq_str (extraction !! "status") "failed" = true ->
  validate_extraction extraction = Ok extraction.
Proof. unfold validate_extraction. by intros ->. Qed.

(** A record whose fields all pass and whose totals do not reconcile makes
    the stage raise: the error is reported at the empty location, which has
    no first component. *)
Lemma validate_extraction_record_mismatch extraction inv :
  eq_str (extraction !! "status") "failed" = false ->
  Models.fields_valid extraction inv ->
  Models.total_mismatch inv || Models.subtotal_mismatch inv = true ->
  validate_extraction extraction = Raise IndexError.
Proof.
  intros Hst Hf Hm. unfold validate_extraction, check_extraction. rewrite Hst.
  rewrite (InvoiceData_validate_fields _ _ Hf).
  destruct (validate_invoice_total_rejects inv Hm) as [m ->]. reflexivity.
Qed.

(** When the stage returns for an extraction, it did one of the three
    things of [outcome]. *)
Lemma validate_extraction_Ok extraction validated :
  validate_extraction extraction = Ok validated -> outcome extraction validated.
Proof.
  unfold validate_extraction, outcome.
  destruct (eq_str (extraction !! "status") "failed") eqn:Hst.
  { intros [= <-]. by left. }
  destruct (check_extraction extraction) as [[r|errors]|] eqn:Hc; [| |done];
    cbn [bind].
  - intros [= <-]. right. left. eauto.
  - destruct (check_extraction_Invalid _ _ Hc) as [Hl|(inv & Hf & Hv)].
    + rewrite (error_details_of_located _ Hl). cbn [bind].
      destruct (subscript extraction "file_key"); [|done]. cbn [bind].
      intros [= <-]. right. right. eauto.
    + destruct (Models.validate_invoice_total inv) eqn:Hvi; [done|].
      assert (Models.total_mismatch inv || Models.subtotal_mismatch inv = true) as Hm.
      { destruct (Models.total_mismatch inv || Models.subtotal_mismatch inv) eqn:Hm;
          [done|]. apply orb_false_elim in Hm as [Ht Hs].
        assert (Models.validate_invoice_total inv = Models.Valid inv)
          by (by apply validate_invoice_total_accepts).
        congruence. }
      destruct (validate_invoice_total_rejects inv Hm) as [m Hr].
      simplify_eq. rewrite Hvi in Hr. injection Hr as ->.
      by rewrite error_details_of_unlocated.
Qed.

Lemma validate_extractions_Ok extractions validated_results :
  validate_extractions extractions = Ok validated_results ->
  Forall2 outcome extractions validated_results.
Proof.
  revert validated_results.
  induction extractions as [|x xs IH]; intros ys; simpl.
  { intros [= <-]. constructor. }
  destruct (validate_extraction x) as [y|] eqn:Hx; [|done]. cbn [bind].
  destruct (validate_extractions xs) as [ys'|]; [|done]. cbn [bind].
  intros [= <-]. constructor; [by apply validate_extraction_Ok|by apply IH].
Qed.

(** Records before a raising one do not save the run. *)
Lemma validate_extractions_raise before extraction after validated e :
  validate_extractions before = Ok validated ->
  validate_extraction extraction = Raise e ->
  validate_extractions (before ++ extraction :: after) = Raise e.
Proof.
  revert validated. induction before as [|x xs IH]; intros ys; simpl.
  { intros _ ->. done. }
  destruct (validate_extraction x) as [y|]; [|done]. cbn [bind].
  destruct (validate_extractions xs) as [ys'|] eqn:Hxs; [|done]. cbn [bind].
  intros _ He. by rewrite (IH _ eq_refl He).
Qed.

Lemma outcome_status extraction validated :
  outcome extraction validated ->
  (validated = extraction /\ eq_str (validated !! "status") "failed" = true)
  \/ (validated !! "status" = Some (VStr "success")
      /\ validated !! "validation_passed" = Some (VBool true))
  \/ (validated !! "status" = Some (VStr "needs_review")
      /\ validated !! "validation_passed" = Some (VBool false)).
Proof.
  intros [[Hf ->]|[(Hf & _ & ->)|(Hf & errors & _ & _ & ->)]].
  - by left.
  - right. left. unfold passed. by simplify_map_eq.
  - right. right. unfold needs_review. by simplify_map_eq.
Qed.
End Validation.

(** What is accepted is within the three tolerances: the record is built
    only when neither [total] nor [subtotal] is off by more than 0.01 and no
    line total is. *)
Lemma InvoiceData_accepts_within_tolerance `{Runtime} `{Models.Pydantic}
    (extraction : dict) (inv : Models.InvoiceData) :
  Models.InvoiceData_validate extraction = Ok (Models.Valid inv) ->
  Models.total_mismatch inv = false
  /\ Models.subtotal_mismatch inv = false
  /\ Forall Models.line_ok (Models.itens inv)
  /\ Models.itens inv <> [].
Proof.
  intros (Hf & Ht & Hs)%InvoiceData_validate_Valid.
  destruct Hf as (_ & _ & _ & _ & _ & Hitems & _).
  apply required_items_Valid in Hitems as (Hne & Hall & _). done.
Qed.

(** A line total that is off sends the record to review -- unless another
    line carries a quantity too large for a float, which raises. *)
Lemma line_mismatch_needs_review `{Runtime} `{Models.Pydantic}
    (extraction : dict) (l : list value) (k : nat) (d : dict)
    (n : string) (q : Z) (pu pt fq : float) :
  eq_str (extraction !! "status") "failed" = false ->
  is_Some (extraction !! "file_key") ->
  extraction !! "itens" = Some (VList l) ->
  l !! k = Some (VDict d) ->
  Models.required_str d "nome" = Models.Valid n ->
  Models.required_int d "quantidade" = Models.Valid q ->
  Models.required_float d "preco_unitario" = Models.Valid pu ->
  Models.required_float d "preco_total" = Models.Valid pt ->
  float_of_int q = Ok fq ->
  (0.01 <? abs (pt - fq * pu))%float = true ->
  validate_extraction extraction = Raise OverflowError
  \/ exists errors,
       located errors
       /\ validate_extraction extraction
          = Ok (needs_review extraction (map detail_text errors)).
Proof.
  intros Hst [key Hkey] Hl Hk Hn Hq Hpu Hpt Hfq Hm.
  destruct (InvoiceItem_validate_mismatch d n q pu pt fq Hn Hq Hpu Hpt Hfq Hm)
    as [m Hitem].
  destruct (validate_items_Invalid 0 l k _ _ Hk Hitem) as (r & Hr & Hnot).
  assert (forall items, Models.required_items extraction <> Ok (Models.Valid items))
    as Hreq.
  { intros items. unfold Models.required_items. rewrite Hl, Hr.
    destruct r as [[[|item items']|]|]; cbn; try done. }
  unfold validate_extraction, check_extraction. rewrite Hst.
  destruct (Models.InvoiceData_validate extraction) as [[inv|errors]|e] eqn:Hv.
  - apply InvoiceData_validate_Valid in Hv as [Hf _].
    destruct Hf as (_ & _ & _ & _ & _ & Hitems & _). by destruct (Hreq _ Hitems).
  - right. exists errors.
    destruct (InvoiceData_validate_Invalid _ _ Hv) as [Hloc|(inv & Hf & _)].
    + split; [done|]. cbn [bind]. rewrite (error_details_of_located _ Hloc).
      unfold subscript. by rewrite Hkey.
    + destruct Hf as (_ & _ & _ & _ & _ & Hitems & _). by destruct (Hreq _ Hitems).
  - left. by rewrite (InvoiceData_validate_Raise _ _ Hv).
Qed.

(** C1 -- the record validator refuses a record whose [total] or [subtotal]
    is off by more than 0.01, with one error reported at the model itself;
    the stage then raises [IndexError] while building the message for that
    error, so the record -- and every other record of the run -- gets no
    status at all instead of [needs_review]. *)
Theorem record_mismatch_raises `{Runtime} `{Models.Pydantic}
    (extraction : dict) (inv : Models.InvoiceData) (rest : list dict) :
  eq_str (extraction !! "status") "failed" = false ->
  Models.fields_valid extraction inv ->
  Models.total_mismatch inv || Models.subtotal_mismatch inv = true ->
  (exists m, Models.InvoiceData_validate extraction
             = Ok (Models.Invalid [{| Models.loc := []; Models.msg := m |}]))
  /\ validate_extractions (extraction :: rest) = Raise IndexError.
Proof.
  intros Hst Hf Hm. split.
  - destruct (validate_invoice_total_rejects inv Hm) as [m Hr]. exists m.
    by rewrite (InvoiceData_validate_fields _ _ Hf), Hr.
  - simpl. by rewrite (validate_extraction_record_mismatch _ _ Hst Hf Hm).
Qed.

Lemma record_mismatch_raises_witness :
  validate_extractions [Demo.extraction_wrong_total; Demo.extraction]
  = Raise IndexError.
Proof.
  apply (record_mismatch_raises Demo.extraction_wrong_total
           Demo.invoice_wrong_total [Demo.extraction]).
  - vm_compute; reflexivity.
  - unfold Models.fields_valid. split_and!; vm_compute; reflexivity.
  - vm_compute; reflexivity.
Defined.

(** C2 -- when the stage returns, every failed extraction is handed on
    unchanged and every other one is marked [success] (both models passed)
    or [needs_review] with one message per error, never [failed], and the
    output lists the records in the input's order; but an extraction whose
    fields all pass and whose totals do not reconcile makes the whole stage
    raise [IndexError], whatever was validated before it. *)
Theorem validate_extractions_outcomes `{Runtime} `{Models.Pydantic}
    (extractions : list dict) :
  (forall validated_results,
      validate_extractions extractions = Ok validated_results ->
      Forall2 outcome extractions validated_results)
  /\ (forall before extraction after validated inv,
        extractions = before ++ extraction :: after ->
        validate_extractions before = Ok validated ->
        eq_str (extraction !! "status") "failed" = false ->
        Models.fields_valid extraction inv ->
        Models.total_mismatch inv || Models.subtotal_mismatch inv = true ->
        validate_extractions extractions = Raise IndexError).
Proof.
  split.
  - apply validate_extractions_Ok.
  - intros before extraction after validated inv -> Hb Hst Hf Hm.
    eapply validate_extractions_raise; [done|].
    by eapply validate_extraction_record_mismatch.
Qed.

(** A run of three: a good record, one whose total is off by one, and a
    failed one.  Nothing comes out. *)
Example validate_extractions_run_lost :
  validate_extractions
    [Demo.extraction; Demo.extraction_wrong_total;
     failed_result "incoming/c.pdf" "rate limit"]
  = Raise IndexError.
Proof. vm_compute. reflexivity. Qed.

(** The same run with a line total off instead goes through: the second
    record is sent to review. *)
Example validate_extractions_run_kept :
  Demo.statuses
    (validate_extractions
       [Demo.extraction; Demo.extraction_wrong_line;
        failed_result "incoming/c.pdf" "rate limit"])
  = Ok [Some (VStr "success"); Some (VStr "needs_review"); Some (VStr "failed")].
Proof. vm_compute. reflexivity. Qed.

(** ** Persistence *)

Section Table.
Context `{Db.Postgres}.

Lemma order_ids_app t1 t2 :
  Db.order_ids (t1 ++ t2) = Db.order_ids t1 ++ Db.order_ids t2.
Proof.
  induction t1 as [|r t1 IH]; [done|]. simpl.
  destruct (Db.row_order_id r); simpl; by rewrite IH.
Qed.

Lemma existsb_conflicts key table :
  existsb (Db.conflicts (Some key)) table = true <-> key ∈ Db.order_ids table.
Proof.
  induction table as [|r table IH]; simpl.
  { split; [done|]. by intros ?%elem_of_nil. }
  rewrite orb_true_iff, IH. unfold Db.conflicts.
  destruct (Db.row_order_id r) as [k|]; simpl.
  - rewrite elem_of_cons. destruct (String.eqb_spec key k); naive_solver.
  - naive_solver.
Qed.

Lemma existsb_conflicts_null table :
  existsb (Db.conflicts None) table = false.
Proof. by induction table. Qed.

(** The conflict action keeps the key, so it keeps the list of keys. *)
Lemma order_ids_update db p key table :
  Db.order_ids
    (map (fun r => if Db.conflicts key r then Db.do_update db p r else r) table)
  = Db.order_ids table.
Proof.
  induction table as [|r table IH]; [done|]. simpl.
  destruct (Db.conflicts key r); simpl; by rewrite IH.
Qed.

(** The statement keeps the UNIQUE constraint. *)
Lemma insert_invoice_unique db p db' :
  Db.unique_order_ids (Db.rows db) ->
  Db.insert_invoice db p = Ok db' ->
  Db.unique_order_ids (Db.rows db').
Proof.
  unfold Db.insert_invoice, Db.unique_order_ids.
  destruct (Db.reject p); [done|]. intros Hu [= <-]. simpl.
  destruct (existsb _ _) eqn:Hex.
  - by rewrite order_ids_update.
  - rewrite order_ids_app. simpl.
    destruct (Db.order_id_text (Db.order_id p)) as [k|] eqn:Hk; simpl.
    + apply NoDup_app. split_and!; [done| |apply NoDup_singleton].
      intros x Hx ->%list_elem_of_singleton.
      apply existsb_conflicts in Hx. congruence.
    + by rewrite app_nil_r.
Qed.

(** Under the constraint a key that is present is on exactly one row. *)
Lemma unique_row key table :
  Db.unique_order_ids table ->
  key ∈ Db.order_ids table ->
  exists before r after,
    table = before ++ r :: after
    /\ Db.row_order_id r = Some key
    /\ (key ∉ Db.order_ids before)
    /\ (key ∉ Db.order_ids after).
Proof.
  unfold Db.unique_order_ids.
  induction table as [|r table IH]; simpl; [by intros _ ?%elem_of_nil|].
  destruct (Db.row_order_id r) as [k|] eqn:Hr; simpl.
  - intros (Hk & Hnd)%NoDup_cons Hin. apply elem_of_cons in Hin as [->|Hin].
    + exists [], r, table. split_and!; try done. by intros ?%elem_of_nil.
    + destruct (IH Hnd Hin) as (before & r' & after & -> & Hr' & Hb & Ha).
      exists (r :: before), r', after. split_and!; try done.
      simpl. rewrite Hr. simpl. intros [->|?]%elem_of_cons; [|done].
      apply Hk. rewrite order_ids_app. simpl. rewrite Hr'. set_solver.
  - intros Hnd Hin.
    destruct (IH Hnd Hin) as (before & r' & after & -> & Hr' & Hb & Ha).
    exists (r :: before), r', after. split_and!; try done.
    simpl. by rewrite Hr.
Qed.

Lemma update_absent db p key table :
  key ∉ Db.order_ids table ->
  map (fun r => if Db.conflicts (Some key) r then Db.do_update db p r else r) table
  = table.
Proof.
  induction table as [|r table IH]; [done|]. intros Hk. cbn [map].
  assert (Db.conflicts (Some key) r = false) as ->.
  { unfold Db.conflicts. simpl in Hk.
    destruct (Db.row_order_id r) as [k|]; [|done].
    destruct (String.eqb_spec key k) as [->|]; [set_solver|done]. }
  rewrite IH; [done|]. simpl in Hk. destruct (Db.row_order_id r); set_solver.
Qed.

(** A write whose key is absent appends one row, holding what was sent. *)
Lemma insert_invoice_new db p db' key :
  Db.order_id_text (Db.order_id p) = Some key ->
  key ∉ Db.order_ids (Db.rows db) ->
  Db.insert_invoice db p = Ok db' ->
  Db.rows db' = Db.rows db ++ [Db.new_row db p].
Proof.
  unfold Db.insert_invoice. intros Hk Hout.
  destruct (Db.reject p); [done|]. intros [= <-]. simpl. rewrite Hk.
  destruct (existsb _ _) eqn:Hex; [|done].
  by apply existsb_conflicts in Hex.
Qed.

(** A write whose key is present changes the raw payload and [updated_at]
    of that one row, and nothing else. *)
Lemma insert_invoice_conflict db p db' key before r after :
  Db.order_id_text (Db.order_id p) = Some key ->
  Db.rows db = before ++ r :: after ->
  Db.row_order_id r = Some key ->
  key ∉ Db.order_ids before ->
  key ∉ Db.order_ids after ->
  Db.insert_invoice db p = Ok db' ->
  Db.rows db' = before ++ Db.do_update db p r :: after.
Proof.
  unfold Db.insert_invoice. intros Hk Hrows Hr Hb Ha.
  destruct (Db.reject p); [done|]. intros [= <-]. simpl. rewrite Hk, Hrows.
  assert (Db.conflicts (Some key) r = true) as Hc.
  { unfold Db.conflicts. by rewrite Hr, String.eqb_refl. }
  rewrite existsb_app. cbn [existsb]. rewrite Hc, orb_true_r.
  rewrite map_app. cbn [map]. rewrite Hc.
  by rewrite !update_absent.
Qed.
End Table.

Section Store.
Context `{Runtime} `{Clock} `{Db.Postgres}.


(** A record that is not failed is written when its timestamp parses and
    the server takes the statement. *)
Lemma store_record_written data st order_datetime db' :
  eq_str (data !! "status") "failed" = false ->
  order_datetime_of data = Ok order_datetime ->
  Db.insert_invoice (db st) (insert_params data order_datetime (clock_readings st))
  = Ok db' ->
  store_record data st
  = {| db := db'; clock_readings := S (clock_readings st);
       success_count := success_count st + 1;
       failed_count := failed_count st |}.
Proof. unfold store_record. by intros -> -> ->. Qed.

(** The success counter moves exactly when a statement went through. *)
Lemma store_record_counted data st :
  success_count (store_record data st) = success_count st + 1 ->
  exists order_datetime,
    eq_str (data !! "status") "failed" = false
    /\ order_datetime_of data = Ok order_datetime
    /\ Db.insert_invoice (db st)
         (insert_params data order_datetime (clock_readings st))
       = Ok (db (store_record data st))
    /\ clock_readings (store_record data st) = S (clock_readings st).
Proof.
  unfold store_record.
  destruct (eq_str (data !! "status") "failed"); simpl; [lia|].
  destruct (order_datetime_of data) as [odt|]; simpl; [|lia].
  destruct (Db.insert_invoice _ _) as [db'|] eqn:Hins; simpl; [|lia].
  intros _. by exists odt.
Qed.






Lemma store_records_cons data l run :
  store_records (data :: l) run = store_records l (store_turn data run).
Proof. done. Qed.




End Store.

Section Unreadable.
Context `{Runtime} `{Clock} `{Llm.Sdk} `{Minio}.


End Unreadable.

Section Keys.
Context `{Runtime} `{Clock} `{Db.Postgres}.

Lemma insert_params_order_id data order_datetime reading key :
  data !! "order_id" = Some (VStr key) ->
  Db.order_id_text (Db.order_id (insert_params data order_datetime reading))
  = Some key.
Proof. intros Hk. simpl. unfold get_default. by rewrite Hk. Qed.

Lemma insert_params_unknown data order_datetime reading :
  data !! "order_id" = None ->
  Db.order_id (insert_params data order_datetime reading)
  = VStr (unknown_order_id reading).
Proof. intros Hk. simpl. unfold get_default. by rewrite Hk. Qed.

(** After a successful write the key is in the table. *)
Lemma insert_invoice_present db p db' key :
  Db.order_id_text (Db.order_id p) = Some key ->
  Db.insert_invoice db p = Ok db' ->
  key ∈ Db.order_ids (Db.rows db').
Proof.
  intros Hk Hins. unfold Db.insert_invoice in Hins.
  destruct (Db.reject p); [done|]. injection Hins as <-. simpl. rewrite Hk.
  destruct (existsb _ _) eqn:Hex.
  - rewrite order_ids_update. by apply existsb_conflicts.
  - rewrite order_ids_app. simpl. rewrite Hk. set_solver.
Qed.
End Keys.

Section Accepted.
Context `{Runtime} `{Clock} `{Db.Postgres}.






End Accepted.



(** C4 -- two successful writes with the same order id, the second in any
    later state of the same table: after the first the id is on exactly one
    row; after the second the table is the same but for that row, of which
    only the raw payload (now the second record's) and [updated_at] (now the
    second transaction's time) changed; and when the id was new the row holds
    the columns of the first record. *)
Theorem second_write_refreshes_payload_only `{Runtime} `{Clock} `{Db.Postgres}
    (data1 data2 : dict) (key : string) (st later : store_state) :
  Db.unique_order_ids (Db.rows (db st)) ->
  data1 !! "order_id" = Some (VStr key) ->
  data2 !! "order_id" = Some (VStr key) ->
  let first := store_record data1 st in
  let second := store_record data2 later in
  success_count first = success_count st + 1 ->
  Db.rows (db later) = Db.rows (db first) ->
  success_count second = success_count later + 1 ->
  exists before r1 r2 after,
    Db.rows (db first) = before ++ r1 :: after
    /\ Db.rows (db second) = before ++ r2 :: after
    /\ Db.row_order_id r1 = Some key
    /\ (key ∉ Db.order_ids before) /\ (key ∉ Db.order_ids after)
    /\ Db.same_business r1 r2
    /\ Db.row_raw_data r2 = json_dumps (VDict data2)
    /\ Db.updated_at r2 = Db.current_timestamp (db later)
    /\ (key ∉ Db.order_ids (Db.rows (db st)) ->
        exists order_datetime,
          order_datetime_of data1 = Ok order_datetime
          /\ r1 = Db.new_row (db st)
                    (insert_params data1 order_datetime (clock_readings st))).
Proof.
  intros Hu Hk1 Hk2 first second Hs1 Hrows Hs2.
  destruct (store_record_counted _ _ Hs1) as (odt1 & Hf1 & Hd1 & Hins1 & _).
  destruct (store_record_counted _ _ Hs2) as (odt2 & Hf2 & Hd2 & Hins2 & _).
  fold first in Hins1. fold second in Hins2.
  pose proof (insert_params_order_id data1 odt1 (clock_readings st) key Hk1) as Hp1.
  pose proof (insert_params_order_id data2 odt2 (clock_readings later) key Hk2) as Hp2.
  pose proof (insert_invoice_unique _ _ _ Hu Hins1) as Hu1.
  pose proof (insert_invoice_present _ _ _ _ Hp1 Hins1) as Hin1.
  destruct (unique_row key _ Hu1 Hin1) as (before & r1 & after & Hr & Hid & Hb & Ha).
  rewrite <- Hrows in Hr.
  pose proof (insert_invoice_conflict _ _ _ _ _ _ _ Hp2 Hr Hid Hb Ha Hins2) as Hr2.
  rewrite Hrows in Hr.
  exists before, r1, (Db.do_update (db later)
                     (insert_params data2 odt2 (clock_readings later)) r1), after.
  split_and!; try done.
  intros Hnew. exists odt1. split; [done|].
  pose proof (insert_invoice_new _ _ _ _ Hp1 Hnew Hins1) as Happ.
  rewrite Happ in Hr.
  assert (key ∉ Db.order_ids after -> after = [] /\ r1 = Db.new_row (db st)
            (insert_params data1 odt1 (clock_readings st))) as Hlast.
  { intros _. destruct (decide (after = [])) as [->|Hne].
    - apply app_inj_tail in Hr as [_ <-]. done.
    - exfalso. destruct (exists_last Hne) as (after' & last & ->).
      rewrite app_comm_cons, app_assoc in Hr. apply app_inj_tail in Hr as [Hr _].
      apply Hnew. rewrite Hr, !order_ids_app. simpl. rewrite Hid. set_solver. }
  by destruct (Hlast Ha).
Qed.

Lemma second_write_refreshes_payload_only_witness :
  let first := store_record Demo.extraction Demo.fresh_store in
  let later := next_invocation first Demo.one_second_later 1 in
  let second := store_record Demo.extraction_wrong_line later in
  exists r1 r2,
    Db.rows (db first) = [r1]
    /\ Db.rows (db second) = [r2]
    /\ Db.same_business r1 r2
    /\ Db.updated_at r2 = Demo.one_second_later.
Proof.
  intros first later second.
  destruct (second_write_refreshes_payload_only
              Demo.extraction Demo.extraction_wrong_line "ORD-1"
              Demo.fresh_store later)
    as (before & r1 & r2 & after & Hr1 & Hr2 & _ & _ & _ & Hsame & _ & Hup & _).
  - apply NoDup_nil_2.
  - vm_compute; reflexivity.
  - vm_compute; reflexivity.
  - vm_compute; reflexivity.
  - reflexivity.
  - vm_compute; reflexivity.
  - fold first in Hr1. fold second in Hr2.
    assert (length (Db.rows (db first)) = 1%nat) as Hlen by (vm_compute; reflexivity).
    rewrite Hr1, length_app in Hlen. simpl in Hlen.
    destruct before; [|simpl in Hlen; lia]. destruct after; [|simpl in Hlen; lia].
    exists r1, r2. by split_and!.
Defined.

(** C10 -- a record that is not failed and has no [order_id] key is sent
    with the order id ["UNKNOWN_"] followed by the clock reading taken for
    it; when the server takes the statement the write counts as a success and
    the id is in the table; persisting the same record again takes the next
    reading, and when the two ids differ and neither was in the table, the
    table has grown by two rows. *)
Theorem missing_order_id_is_not_idempotent `{Runtime} `{Clock} `{Db.Postgres}
    (data : dict) (order_datetime : Db.timestamp_param) (st : store_state) :
  data !! "order_id" = None ->
  is_failed data = false ->
  order_datetime_of data = Ok order_datetime ->
  let reading := clock_readings st in
  let p1 := insert_params data order_datetime reading in
  let p2 := insert_params data order_datetime (S reading) in
  let first := store_record data st in
  let second := store_record data first in
  Db.order_id p1 = VStr (unknown_order_id reading)
  /\ (Db.reject p1 = None ->
      success_count first = success_count st + 1
      /\ clock_readings first = S reading
      /\ unknown_order_id reading ∈ Db.order_ids (Db.rows (db first))
      /\ (Db.reject p2 = None ->
          unknown_order_id (S reading) <> unknown_order_id reading ->
          unknown_order_id reading ∉ Db.order_ids (Db.rows (db st)) ->
          unknown_order_id (S reading) ∉ Db.order_ids (Db.rows (db st)) ->
          success_count second = success_count st + 2
          /\ Db.rows (db second)
             = Db.rows (db st) ++ [Db.new_row (db st) p1; Db.new_row (db first) p2])).
Proof.
  intros Hk Hf Hd reading p1 p2 first second.
  assert (Db.order_id p1 = VStr (unknown_order_id reading)) as Hp1
    by (by apply insert_params_unknown).
  assert (Db.order_id p2 = VStr (unknown_order_id (S reading))) as Hp2
    by (by apply insert_params_unknown).
  split; [done|]. intros Hacc1.
  assert (exists db1, Db.insert_invoice (db st) p1 = Ok db1) as [db1 Hins1].
  { unfold Db.insert_invoice. rewrite Hacc1. by eexists. }
  assert (first = {| db := db1; clock_readings := S reading;
                     success_count := success_count st + 1;
                     failed_count := failed_count st |}) as Hfirst.
  { subst first. by eapply store_record_written. }
  assert (Db.order_id_text (Db.order_id p1) = Some (unknown_order_id reading))
    as Hkey1 by (by rewrite Hp1).
  assert (Db.order_id_text (Db.order_id p2) = Some (unknown_order_id (S reading)))
    as Hkey2 by (by rewrite Hp2).
  subst second. rewrite Hfirst. cbn [db clock_readings success_count].
  split_and!; [done|done|by eapply insert_invoice_present|].
  intros Hacc2 Hne Hnew1 Hnew2.
  pose proof (insert_invoice_new _ _ _ _ Hkey1 Hnew1 Hins1) as Hrows1.
  assert (exists db2, Db.insert_invoice db1 p2 = Ok db2) as [db2 Hins2].
  { unfold Db.insert_invoice. rewrite Hacc2. by eexists. }
  rewrite (store_record_written data
             {| db := db1; clock_readings := S reading;
                success_count := success_count st + 1;
                failed_count := failed_count st |} order_datetime db2 Hf Hd Hins2).
  cbn [db success_count]. split; [lia|].
  assert (unknown_order_id (S reading) ∉ Db.order_ids (Db.rows db1)) as Hnew2'.
  { rewrite Hrows1, order_ids_app.
    cbn [Db.order_ids Db.row_order_id Db.new_row]. rewrite Hkey1. set_solver. }
  rewrite (insert_invoice_new _ _ _ _ Hkey2 Hnew2' Hins2).
  rewrite Hrows1, <- app_assoc. reflexivity.
Qed.

Lemma missing_order_id_is_not_idempotent_witness :
  length (Db.rows (db (store_record Demo.extraction_no_order_id
                         (store_record Demo.extraction_no_order_id Demo.fresh_store))))
  = 2%nat.
Proof.
  destruct (missing_order_id_is_not_idempotent
              Demo.extraction_no_order_id (Db.Parsed Demo.noon) Demo.fresh_store)
    as [_ Hrun].
  - vm_compute; reflexivity.
  - vm_compute; reflexivity.
  - vm_compute; reflexivity.
  - destruct Hrun as (_ & _ & _ & Htwice); [reflexivity|].
    destruct Htwice as [_ Hrows].
    + reflexivity.
    + vm_compute. discriminate.
    + by intros ?%elem_of_nil.
    + by intros ?%elem_of_nil.
    + rewrite Hrows. reflexivity.
Defined.

(** ** File moves *)

(** A key under [incoming/] lands under the new prefix. *)
Lemma replace_incoming (prefix name : string) :
  Str.replace "incoming/" prefix ("incoming/" ++ name)
  = (prefix ++ Str.replace "incoming/" prefix name)%string.
Proof. vm_compute. reflexivity. Qed.

Section Moves.
Context `{Runtime} `{Models.Pydantic} `{Minio}.

(** The status of a validated record decides the branch taken. *)
Lemma outcome_route extraction validated key st :
  outcome extraction validated ->
  exists prefix,
    status_prefix validated = Some prefix
    /\ (route validated key st).1 = Str.replace "incoming/" prefix key
    /\ moved_failed (route validated key st).2
       = moved_failed st ++ (if String.eqb prefix "failed/" then [key] else [])
    /\ moved_review (route validated key st).2
       = moved_review st ++ (if String.eqb prefix "review/" then [key] else [])
    /\ moved_success (route validated key st).2
       = moved_success st ++ (if String.eqb prefix "processed/" then [key] else [])
    /\ objects (route validated key st).2 = objects st.
Proof.
  intros Hout. unfold route, status_prefix.
  destruct (outcome_status _ _ Hout) as [[_ Hf]|[[Hs Hp]|[Hs Hp]]].
  - rewrite Hf. exists "failed/"%string. simpl. by rewrite !app_nil_r.
  - rewrite Hs. unfold get_default. rewrite Hp. simpl.
    exists "processed/"%string. simpl. by rewrite !app_nil_r.
  - rewrite Hs. unfold get_default. rewrite Hp. simpl.
    exists "review/"%string. simpl. by rewrite !app_nil_r.
Qed.

(** One turn of the loop on a record with a file key. *)
Lemma move_file_keyed data key st :
  file_key_of data = Some key ->
  move_file data st
  = with_objects (route data key st).2
      (moved (objects (route data key st).2) (route data key st).1 key).
Proof.
  unfold file_key_of, move_file, get_default, moved.
  destruct (data !! "file_key") as [[]|]; try done. simpl.
  destruct (String.eqb_spec s ""); [done|]. intros [= ->]. simpl.
  destruct (route data key st) as [new_key st']. simpl.
  destruct (copy_object _ _ _) as [copied|]; [|by destruct st'].
  by destruct (remove_object _ _).
Qed.

(** A record without a file key is passed over. *)
Lemma move_file_unkeyed data st :
  file_key_of data = None -> move_file data st = st.
Proof.
  unfold file_key_of, move_file, get_default.
  destruct (data !! "file_key") as [[]|]; simpl; try done;
    try by destruct (negb _).
  by destruct (String.eqb_spec s "").
Qed.

Lemma routed_to_cons prefix data l :
  routed_to prefix (data :: l)
  = match file_key_of data with
    | Some key =>
        if bool_decide (status_prefix data = Some prefix) then key :: routed_to prefix l
        else routed_to prefix l
    | None => routed_to prefix l
    end.
Proof.
  unfold routed_to. simpl.
  destruct (bool_decide _), (file_key_of data); reflexivity.
Qed.

(** Each list holds the keys of the records of its status, in order. *)
Lemma move_files_lists validated_data st :
  Forall (fun validated => exists extraction, outcome extraction validated)
         validated_data ->
  moved_failed (move_files validated_data st)
  = moved_failed st ++ routed_to "failed/" validated_data
  /\ moved_review (move_files validated_data st)
     = moved_review st ++ routed_to "review/" validated_data
  /\ moved_success (move_files validated_data st)
     = moved_success st ++ routed_to "processed/" validated_data.
Proof.
  intros Hall. revert st.
  induction Hall as [|data l [x Hout] _ IH]; intros st.
  { simpl. by rewrite !app_nil_r. }
  unfold move_files in *. cbn [fold_left]. rewrite !routed_to_cons.
  destruct (IH (move_file data st)) as (-> & -> & ->).
  destruct (file_key_of data) as [key|] eqn:Hkey.
  - rewrite (move_file_keyed _ _ _ Hkey). unfold with_objects. simpl.
    destruct (outcome_route x data key st Hout)
      as (prefix & Hp & _ & -> & -> & -> & _).
    rewrite Hp. unfold status_prefix in Hp.
    repeat case_match; simplify_eq; simpl; by rewrite <- ?app_assoc, ?app_nil_r.
  - by rewrite (move_file_unkeyed _ _ Hkey).
Qed.

(** Every record with a file key is on exactly one of the three lists. *)
Lemma routed_to_total validated_data :
  Forall (fun validated => exists extraction, outcome extraction validated)
         validated_data ->
  (length (routed_to "failed/" validated_data)
   + length (routed_to "review/" validated_data)
   + length (routed_to "processed/" validated_data))%nat
  = length (omap file_key_of validated_data).
Proof.
  induction 1 as [|data l [x Hout] _ IH]; [done|].
  rewrite !routed_to_cons.
  change (omap file_key_of (data :: l))
    with (match file_key_of data with
          | Some key => key :: omap file_key_of l
          | None => omap file_key_of l
          end).
  destruct (file_key_of data) as [key|]; [|done].
  destruct (outcome_route x data key (move_start ∅) Hout) as (prefix & Hp & _).
  rewrite Hp. unfold status_prefix in Hp.
  repeat case_match; simplify_eq;
    rewrite ?bool_decide_eq_true_2 by done;
    rewrite ?bool_decide_eq_false_2 by done; cbn [length]; lia.
Qed.

(** The turns of the loop follow one another whatever the earlier ones
    did. *)
Lemma move_files_snoc validated_data data st :
  move_files (validated_data ++ [data]) st
  = move_file data (move_files validated_data st).
Proof. unfold move_files. by rewrite fold_left_app. Qed.

(** With the object present and no failure of the store, the object ends
    under its new key and nowhere else. *)
Lemma moved_clean stored new_key key bytes :
  stored !! key = Some bytes ->
  copy_error stored new_key key = None ->
  remove_error (<[new_key := bytes]> stored) key = None ->
  moved stored new_key key = delete key (<[new_key := bytes]> stored).
Proof.
  intros Hk Hc Hr. unfold moved, copy_object, remove_object.
  by rewrite Hc, Hk, Hr.
Qed.
End Moves.

(** C6 -- for the records validation returns: the three counters are the
    numbers of records with a file key whose status is failed, needs_review
    and success, and they add up to the number of records with a file key;
    the record at any position is given the destination of its status
    ([failed/], [review/], [processed/] in place of [incoming/]) and its copy
    and delete are attempted on the bucket as the records before it left it,
    a failed copy leaving the bucket as it was and a failed delete leaving
    both objects, the loop going on in either case. *)
Theorem move_processed_files_routes_by_status
    `{Runtime} `{Models.Pydantic} `{Minio}
    (extractions validated_data : list dict) (stored : bucket) :
  Forall2 outcome extractions validated_data ->
  let out := move_processed_files validated_data stored in
  res_moved_failed out.1 = Z.of_nat (length (routed_to "failed/" validated_data))
  /\ res_moved_review out.1 = Z.of_nat (length (routed_to "review/" validated_data))
  /\ res_moved_success out.1
     = Z.of_nat (length (routed_to "processed/" validated_data))
  /\ res_moved_failed out.1 + res_moved_review out.1 + res_moved_success out.1
     = Z.of_nat (length (omap file_key_of validated_data))
  /\ (forall i data key,
        validated_data !! i = Some data ->
        file_key_of data = Some key ->
        exists prefix,
          status_prefix data = Some prefix
          /\ prefix ∈ ["failed/"; "review/"; "processed/"]%string
          /\ objects (move_files (take (S i) validated_data) (move_start stored))
             = moved (objects (move_files (take i validated_data) (move_start stored)))
                     (Str.replace "incoming/" prefix key) key)
  /\ (forall prefix name,
        Str.replace "incoming/" prefix ("incoming/" ++ name)
        = (prefix ++ Str.replace "incoming/" prefix name)%string).
Proof.
  intros Hout out.
  assert (Forall (fun validated => exists extraction, outcome extraction validated)
                 validated_data) as Hall.
  { clear out. induction Hout; constructor; eauto. }
  subst out. unfold move_processed_files. cbn [fst snd res_moved_failed
    res_moved_review res_moved_success].
  fold (move_start stored).
  destruct (move_files_lists validated_data (move_start stored) Hall)
    as (-> & -> & ->). simpl.
  split_and!; try done.
  - rewrite <- (routed_to_total _ Hall). lia.
  - intros i data key Hi Hkey.
    rewrite (take_S_r _ _ _ Hi), move_files_snoc.
    rewrite (move_file_keyed _ _ _ Hkey).
    assert (exists x, outcome x data) as [x Hx].
    { rewrite Forall_forall in Hall. apply Hall. by eapply list_elem_of_lookup_2. }
    destruct (outcome_route x data key
                (move_files (take i validated_data) (move_start stored)) Hx)
      as (prefix & Hp & -> & _ & _ & _ & ->).
    exists prefix. split_and!; [done| |done].
    unfold status_prefix in Hp. repeat case_match; simplify_eq; set_solver.
Qed.

Lemma move_processed_files_routes_by_status_witness :
  exists validated_data,
    validate_extractions Demo.extractions = Ok validated_data
    /\ res_moved_failed (move_processed_files validated_data Demo.stored_objects).1
       = Z.of_nat (length (routed_to "failed/" validated_data)).
Proof.
  destruct (validate_extractions Demo.extractions) as [validated_data|e] eqn:Hrun.
  - exists validated_data. split; [done|].
    apply (move_processed_files_routes_by_status Demo.extractions validated_data
             Demo.stored_objects (validate_extractions_Ok _ _ Hrun)).
  - vm_compute in Hrun. discriminate.
Defined.

(** * Further properties *)

(** ** The provider factory *)

Lemma lower_char_idemp c : Str.lower_char (Str.lower_char c) = Str.lower_char c.
Proof. by destruct c as [[] [] [] [] [] [] [] []]. Qed.

Lemma lower_idemp s : Str.lower (Str.lower s) = Str.lower s.
Proof. induction s as [|c s IH]; [done|]. simpl. by rewrite lower_char_idemp, IH. Qed.

Lemma provider_name_vendor (p : Llm.provider) :
  Llm.provider_name p
  = match Llm.vendor_of p with
    | Llm.OpenAI => "openai"
    | Llm.Anthropic => "anthropic"
    | Llm.Gemini => "gemini"
    end.
Proof. unfold Llm.provider_name. by destruct (Llm.vendor_of p). Qed.

Section Factory.
Context `{Llm.Sdk}.
Variables (env : Llm.environ) (api_key model : option string).

Local Abbreviation construct := (fun c => Llm.create_provider env c api_key model).
Local Abbreviation built :=
  (fun c => match Llm.create_provider env c api_key model with
            | Ok p => Some p
            | Raise _ => None
            end).

Lemma new_provider_vendor v k m p :
  Llm.new_provider v k m = Ok p -> Llm.vendor_of p = v.
Proof. unfold Llm.new_provider. destruct (Llm.client_init v k m); by intros [= <-]. Qed.

(** The loop builds the candidates that construct, each at its first
    occurrence: [tried] holds the candidates of [seen] that constructed. *)
Lemma fallback_loop_built cands seen (tried : gset string) :
  (forall c, c ∈ tried <-> c ∈ seen /\ is_Some (built c)) ->
  (Llm.fallback_loop env api_key model cands [] tried []).1
  = omap built (SelectorSpec.dedup seen cands).
Proof.
  revert seen tried. induction cands as [|c cs IH]; intros seen tried Hinv; [done|].
  simpl. case_decide as Htried.
  - apply Hinv in Htried as [Hseen _]. rewrite decide_True by done. by apply IH.
  - destruct (Llm.create_provider env c api_key model) as [p|e] eqn:Hc.
    + rewrite decide_False.
      2:{ intros Hseen. apply Htried, Hinv. split; [done|]. by rewrite Hc. }
      rewrite fallback_loop_acc. cbn [fst]. simpl. rewrite Hc. f_equal.
      apply IH. intros c'. rewrite elem_of_union, elem_of_singleton, elem_of_cons, Hinv.
      split; [intros [->|[? ?]]; [by rewrite Hc; eauto|by eauto]|].
      intros [[->|?] ?]; [by left|by right].
    + rewrite fallback_loop_acc. cbn [fst]. simpl. case_decide as Hseen.
      * by apply IH.
      * simpl. rewrite Hc. apply IH. intros c'. rewrite elem_of_cons, Hinv.
        split; [intros [? ?]; by eauto|].
        intros [[->|?] Hb]; [|done]. rewrite Hc in Hb. by destruct Hb.
Qed.
End Factory.

(** Split on the next comparison of the provider type. *)
Ltac split_type tac :=
  match goal with
  | |- context [String.eqb ?t ?s] =>
      let Heq := fresh "Heq" in
      destruct (String.eqb_spec t s) as [Heq|Heq]; [tac Heq|]
  end.

(** X1 -- [create_provider] reads the provider type without regard to case;
    when it returns a provider, the lowered type is one of [openai],
    [anthropic], [gemini] and is the provider's own [provider_name]; every
    other type, [ollama] of [LLMProviderType] included, raises [ValueError]
    with the lowered type in the message, before any client is built. *)
Theorem create_provider_by_name `{Llm.Sdk} (env : Llm.environ)
    (provider_type : string) (api_key model : option string) :
  Llm.create_provider env (Str.lower provider_type) api_key model
  = Llm.create_provider env provider_type api_key model
  /\ (forall p, Llm.create_provider env provider_type api_key model = Ok p ->
        Llm.provider_name p = Str.lower provider_type
        /\ Str.lower provider_type ∈ ["openai"; "anthropic"; "gemini"]%string)
  /\ (Str.lower provider_type ∉ ["openai"; "anthropic"; "gemini"]%string ->
      Llm.create_provider env provider_type api_key model
      = Raise (ValueError ("Unsupported provider: " ++ Str.lower provider_type)))
  /\ Llm.create_provider env "ollama" api_key model
     = Raise (ValueError "Unsupported provider: ollama").
Proof.
  split_and!.
  - unfold Llm.create_provider. by rewrite lower_idemp.
  - intros p. unfold Llm.create_provider. rewrite provider_name_vendor.
    repeat split_type
      ltac:(fun Heq => intros Hv%new_provider_vendor; rewrite Hv, Heq; set_solver).
    done.
  - intros Hout. unfold Llm.create_provider.
    repeat split_type ltac:(fun Heq => exfalso; apply Hout; rewrite Heq; set_solver).
    done.
  - reflexivity.
Qed.

(** X2 -- when the configured primary provider can be constructed it is the
    provider returned, with fallback enabled or not, whatever the fallback
    order holds. *)
Theorem primary_is_selected_when_it_constructs `{Llm.Sdk} (env : Llm.environ)
    (api_key model : option string) (p : Llm.provider) :
  Llm.create_provider env (SelectorSpec.configured_primary env) api_key model = Ok p ->
  (Llm.get_primary_provider env api_key model).1 = Ok p.
Proof.
  intros Hp. unfold Llm.get_primary_provider.
  fold (SelectorSpec.configured_primary env).
  destruct (String.eqb _ "true"); [|done].
  unfold Llm.create_with_fallback, Llm.candidates. simpl.
  rewrite decide_False by set_solver. rewrite Hp, fallback_loop_acc.
  by destruct (Llm.fallback_loop _ _ _ _ [] _ []).
Qed.

Lemma primary_is_selected_when_it_constructs_witness :
  exists p,
    (Llm.get_primary_provider
       (<["LLM_PRIMARY_PROVIDER" := "Gemini"]> Demo.env_gemini_only) None None).1
    = Ok p
    /\ Llm.vendor_of p = Llm.Gemini.
Proof.
  eexists. split.
  - apply primary_is_selected_when_it_constructs. vm_compute. reflexivity.
  - reflexivity.
Defined.

(** X3 -- [create_with_fallback] returns every candidate that can be
    constructed, once, at its first place in the candidate list (the primary,
    then the stripped fallback entries other than the primary), in that
    order, and raises [RuntimeError] exactly when there is none; a fallback
    order passed by the caller replaces the one of the environment. *)
Theorem create_with_fallback_lists_constructible `{Llm.Sdk} (env : Llm.environ)
    (primary_provider : string) (fallback_order : option (list string))
    (api_key model : option string) :
  let order := default (SelectorSpec.configured_fallback env) fallback_order in
  let constructible :=
    omap (fun c => match Llm.create_provider env c api_key model with
                   | Ok p => Some p
                   | Raise _ => None
                   end)
         (SelectorSpec.dedup [] (Llm.candidates primary_provider order)) in
  (Llm.create_with_fallback env primary_provider fallback_order api_key model).1
  = match constructible with
    | [] => Raise (RuntimeError "No LLM providers could be initialized")
    | _ :: _ => Ok constructible
    end.
Proof.
  intros order constructible. unfold Llm.create_with_fallback.
  assert (match fallback_order with
          | Some l => l
          | None => Str.split ","
                      (default "gemini,openai,anthropic" (env !! "LLM_FALLBACK_ORDER"))
          end = order) as -> by (by destruct fallback_order).
  pose proof (fallback_loop_built env api_key model
                (Llm.candidates primary_provider order) [] ∅) as Hloop.
  destruct (Llm.fallback_loop _ _ _ _ [] ∅ []) as [providers log].
  cbn [fst] in Hloop. subst constructible. rewrite <- Hloop by set_solver.
  by destruct providers.
Qed.

(** ** Provider calls *)

Lemma substring_idemp (n : nat) (s : string) :
  String.substring 0 n (String.substring 0 n s) = String.substring 0 n s.
Proof.
  revert s. induction n as [|n IH]; intros [|c s]; try done.
  simpl. by rewrite IH.
Qed.

Lemma substring_app (n : nat) (s rest : string) :
  (n <= String.length s)%nat ->
  String.substring 0 n (s ++ rest) = String.substring 0 n s.
Proof.
  revert s. induction n as [|n IH]; intros [|c s] Hn; try done; simpl in *.
  - by destruct rest.
  - lia.
  - rewrite IH; [done|lia].
Qed.

Lemma user_prompt_cut `{Runtime} v (pdf_text system_prompt : string) schema :
  Llm.user_prompt v (String.substring 0 3500 pdf_text) system_prompt schema
  = Llm.user_prompt v pdf_text system_prompt schema.
Proof. unfold Llm.user_prompt. by rewrite substring_idemp. Qed.

(** The literal each subclass tags its responses with is its
    [provider_name]. *)
Lemma extract_invoice_data_tags `{Runtime} `{Llm.Sdk} (self : Llm.provider)
    (pdf_text system_prompt : string) (invoice_schema : value)
    (sent sent' : list Llm.request) (r : Llm.LLMResponse) :
  Llm.extract_invoice_data self pdf_text system_prompt invoice_schema sent
  = (Ok r, sent') ->
  Llm.provider_ r = Llm.provider_name self /\ Llm.model_ r = Llm.model self.
Proof.
  unfold Llm.extract_invoice_data. rewrite provider_name_vendor.
  destruct (Llm.send self sent _) as [response|e]; [|done]. simpl.
  destruct (Llm._calculate_cost self _ _) as [c|e]; [|done]. simpl.
  intros [= <- <-]. simpl. by destruct (Llm.vendor_of self).
Qed.

(** X4 -- a response that [extract_invoice_data] returns carries the
    provider's own [provider_name] and model, its cost is [_calculate_cost]
    of the prompt and completion tokens the vendor reported, its latency the
    elapsed seconds times 1000, and exactly one request was added to those
    sent. *)
Theorem response_names_its_provider `{Runtime} `{Llm.Sdk} (self : Llm.provider)
    (pdf_text system_prompt : string) (invoice_schema : value)
    (sent sent' : list Llm.request) (r : Llm.LLMResponse) :
  Llm.extract_invoice_data self pdf_text system_prompt invoice_schema sent
  = (Ok r, sent') ->
  Llm.provider_ r = Llm.provider_name self
  /\ Llm.model_ r = Llm.model self
  /\ exists req response,
       sent' = sent ++ [req]
       /\ Llm.send self sent req = Ok response
       /\ Llm.content r = Llm.text response
       /\ Llm._calculate_cost self (Llm.prompt_tokens response)
            (Llm.completion_tokens response) = Ok (Llm.cost r)
       /\ Llm.latency_ms r = (Llm.elapsed response * 1000)%float.
Proof.
  unfold Llm.extract_invoice_data. rewrite provider_name_vendor.
  set (req := (_, Llm.user_prompt _ _ _ _)).
  destruct (Llm.send self sent req) as [response|e] eqn:Hsend; [|done]. simpl.
  destruct (Llm._calculate_cost self _ _) as [c|e] eqn:Hcost; [|done]. simpl.
  intros [= <- <-]. simpl. split_and!; [by destruct (Llm.vendor_of self)|done|].
  exists req, response. by split_and!.
Qed.

Lemma response_names_its_provider_witness :
  exists r sent',
    Llm.extract_invoice_data Demo.gpt_4o_mini "INVOICE TEXT" SYSTEM_PROMPT
      invoice_schema [] = (Ok r, sent')
    /\ Llm.provider_ r = "openai"
    /\ length sent' = 1%nat.
Proof.
  destruct (Llm.extract_invoice_data Demo.gpt_4o_mini "INVOICE TEXT" SYSTEM_PROMPT
              invoice_schema []) as [[r|e] sent'] eqn:Hrun;
    [|vm_compute in Hrun; discriminate].
  exists r, sent'.
  destruct (response_names_its_provider _ _ _ _ _ _ _ Hrun)
    as (Hname & _ & req & response & -> & _).
  split_and!; [done|by rewrite Hname|done].
Defined.

(** X5 -- only the first 3500 characters of a document reach the vendor: a
    call on a document is the call on its first 3500 characters, so text
    appended to a document that is at least that long changes neither the
    request nor the outcome. *)
Theorem prompt_keeps_3500_characters `{Runtime} `{Llm.Sdk} (self : Llm.provider)
    (pdf_text system_prompt : string) (invoice_schema : value)
    (sent : list Llm.request) :
  Llm.extract_invoice_data self pdf_text system_prompt invoice_schema sent
  = Llm.extract_invoice_data self (String.substring 0 3500 pdf_text)
      system_prompt invoice_schema sent
  /\ (forall rest,
        (3500 <= String.length pdf_text)%nat ->
        Llm.extract_invoice_data self (pdf_text ++ rest) system_prompt
          invoice_schema sent
        = Llm.extract_invoice_data self pdf_text system_prompt invoice_schema sent).
Proof.
  split.
  - unfold Llm.extract_invoice_data. by rewrite user_prompt_cut.
  - intros rest Hlen. unfold Llm.extract_invoice_data, Llm.user_prompt.
    by rewrite substring_app.
Qed.

(** ** The extraction stage, further *)

Section Requests.
Context `{Runtime} `{Clock} `{Llm.Sdk}.

Lemma extract_invoice_data_sent self text system_prompt schema sent :
  exists req,
    (Llm.extract_invoice_data self text system_prompt schema sent).2 = sent ++ [req].
Proof. unfold Llm.extract_invoice_data. by eexists. Qed.

Lemma call_llm_sent provider d st :
  length (sent (call_llm provider d st).2) = S (length (sent st)).
Proof.
  unfold call_llm.
  destruct (extract_invoice_data_sent provider (pdf_text d) SYSTEM_PROMPT
              invoice_schema (sent st)) as [req Hreq].
  destruct (Llm.extract_invoice_data _ _ _ _ _) as [r sent']. simpl in Hreq.
  subst sent'.
  destruct (_ <~ r ;; _) as [[? ?]|?]; simpl; rewrite length_app; simpl; lia.
Qed.

Lemma process_document_sent provider d st :
  length (sent (process_document provider d st).2)
  = (length (sent st) + if readable d then 1 else 0)%nat.
Proof.
  unfold process_document, readable.
  destruct (_ || _); simpl; [lia|].
  pose proof (call_llm_sent provider d st) as Hsent.
  destruct (call_llm provider d st) as [[r|e] st']; simpl in *; lia.
Qed.

Lemma process_documents_sent provider batch_data st :
  length (sent (process_documents provider batch_data st).2)
  = (length (sent st) + length (filter (fun d => readable d = true) batch_data))%nat.
Proof.
  revert st. induction batch_data as [|d rest IH]; intros st; simpl; [lia|].
  pose proof (process_document_sent provider d st) as Hd.
  destruct (process_document provider d st) as [r st'].
  specialize (IH st'). destruct (process_documents provider rest st') as [rs st''].
  simpl in *. rewrite IH, Hd, filter_cons.
  case_decide as Hr; [rewrite Hr|destruct (readable d); [done|]]; simpl; lia.
Qed.

(** What a successful call hands on: the vendor's fields under the stage's
    seven keys. *)
Lemma call_llm_Ok provider d st r st' :
  call_llm provider d st = (Ok r, st') ->
  exists response fields,
    (Llm.extract_invoice_data provider (pdf_text d) SYSTEM_PROMPT invoice_schema
       (sent st)).1 = Ok response
    /\ json_loads (Llm.content response) = Ok (VDict fields)
    /\ r = <["processed_at" := VStr (isoformat (now (readings st)))]>
           (<["latency_ms" := VFloat (Llm.latency_ms response)]>
           (<["cost" := VFloat (Llm.cost response)]>
           (<["tokens_used" := VInt (Llm.tokens_used response)]>
           (<["model" := VStr (Llm.model_ response)]>
           (<["provider" := VStr (Llm.provider_ response)]>
           (<["file_key" := VStr (pdf_file_key d)]> fields)))))).
Proof.
  unfold call_llm.
  destruct (Llm.extract_invoice_data _ _ _ _ _) as [[response|e] sent']; [|done].
  simpl. destruct (json_loads (Llm.content response)) as [[| | | | | |fields]|e]
    eqn:Hjson; try done.
  simpl. intros [= <- <-]. exists response, fields.
  split_and!; [reflexivity|exact Hjson|reflexivity].
Qed.

Lemma call_llm_returns provider d st response sent' fields :
  Llm.extract_invoice_data provider (pdf_text d) SYSTEM_PROMPT invoice_schema
    (sent st) = (Ok response, sent') ->
  json_loads (Llm.content response) = Ok (VDict fields) ->
  call_llm provider d st
  = (Ok (<["processed_at" := VStr (isoformat (now (readings st)))]>
         (<["latency_ms" := VFloat (Llm.latency_ms response)]>
         (<["cost" := VFloat (Llm.cost response)]>
         (<["tokens_used" := VInt (Llm.tokens_used response)]>
         (<["model" := VStr (Llm.model_ response)]>
         (<["provider" := VStr (Llm.provider_ response)]>
         (<["file_key" := VStr (pdf_file_key d)]> fields))))))),
     {| sent := sent'; readings := S (readings st) |}).
Proof. unfold call_llm. intros -> Hjson. cbn [bind]. by rewrite Hjson. Qed.
End Requests.

(** X6 -- the extraction stage sends one request per document that has
    text and no extraction error, and none for the others; when no provider
    can be selected it sends none at all. *)
Theorem one_request_per_readable_document `{Runtime} `{Clock} `{Llm.Sdk}
    (env : Llm.environ) (batch_data : list pdf_data) (st : llm_state) :
  let out := process_batch_with_llm env batch_data st in
  length (sent out.2)
  = (length (sent st)
     + match (Llm.get_primary_provider env None None).1 with
       | Ok _ => length (filter (fun d => readable d = true) batch_data)
       | Raise _ => 0
       end)%nat.
Proof.
  intros out. subst out. unfold process_batch_with_llm.
  destruct (Llm.get_primary_provider env None None).1 as [provider|e].
  - apply process_documents_sent.
  - simpl. lia.
Qed.

(** X7 -- in the record of a successful call the stage's seven keys
    ([file_key], [provider], [model], [tokens_used], [cost], [latency_ms],
    [processed_at]) hold the stage's own values even when the vendor's JSON
    has keys of these names, and every other key, [status] included, holds
    what the vendor returned. *)
Theorem call_llm_overrides_only_stage_keys `{Runtime} `{Clock} `{Llm.Sdk}
    (provider : Llm.provider) (d : pdf_data) (st st' : llm_state) (r : dict) :
  call_llm provider d st = (Ok r, st') ->
  exists response fields,
    (Llm.extract_invoice_data provider (pdf_text d) SYSTEM_PROMPT invoice_schema
       (sent st)).1 = Ok response
    /\ json_loads (Llm.content response) = Ok (VDict fields)
    /\ (forall k, k ∉ stage_keys -> r !! k = fields !! k)
    /\ is_failed r = eq_str (fields !! "status") "failed"
    /\ r !! "file_key" = Some (VStr (pdf_file_key d))
    /\ r !! "provider" = Some (VStr (Llm.provider_name provider))
    /\ r !! "model" = Some (VStr (Llm.model provider))
    /\ r !! "tokens_used" = Some (VInt (Llm.tokens_used response))
    /\ r !! "cost" = Some (VFloat (Llm.cost response))
    /\ r !! "latency_ms" = Some (VFloat (Llm.latency_ms response))
    /\ r !! "processed_at" = Some (VStr (isoformat (now (readings st)))).
Proof.
  intros (response & fields & Hresp & Hjson & ->)%call_llm_Ok.
  exists response, fields.
  destruct (Llm.extract_invoice_data provider (pdf_text d) SYSTEM_PROMPT
              invoice_schema (sent st)) as [r' sent'] eqn:Hcall.
  simpl in Hresp. subst r'.
  destruct (extract_invoice_data_tags _ _ _ _ _ _ _ Hcall) as [Hname Hmodel].
  rewrite <- Hname, <- Hmodel.
  split_and!; try done; try by simplify_map_eq.
  - intros k Hk. unfold stage_keys in Hk.
    rewrite !lookup_insert_ne; [done|..]; intros <-; apply Hk; set_solver.
  - unfold is_failed. by rewrite !lookup_insert_ne.
Qed.

Lemma call_llm_overrides_only_stage_keys_witness :
  exists r st',
    @call_llm Demo.runtime_status_failed _ _ Demo.gpt_4o_mini Demo.document Demo.idle
    = (Ok r, st')
    /\ r !! "file_key" = Some (VStr "incoming/a.pdf")
    /\ r !! "order_id" = Some (VStr "ORD-1")
    /\ is_failed r = true.
Proof.
  assert (exists response sent',
             @Llm.extract_invoice_data Demo.runtime_status_failed _
               Demo.gpt_4o_mini (pdf_text Demo.document) SYSTEM_PROMPT invoice_schema
               (sent Demo.idle) = (Ok response, sent'))
    as (response & sent' & Hcall) by (vm_compute; eexists _, _; reflexivity).
  pose proof (@call_llm_returns Demo.runtime_status_failed _ _ _ Demo.document
                Demo.idle _ _ _ Hcall eq_refl) as Hrun.
  eexists _, _. split; [exact Hrun|].
  destruct (@call_llm_overrides_only_stage_keys Demo.runtime_status_failed _ _
              _ _ _ _ _ Hrun)
    as (response' & fields & _ & Hjson & Hkeep & Hfailed & Hkey & _).
  injection Hjson as <-.
  split_and!; [exact Hkey| |].
  - rewrite Hkeep; [vm_compute; reflexivity|]. unfold stage_keys.
    rewrite !elem_of_cons, elem_of_nil. intuition discriminate.
  - rewrite Hfailed. vm_compute. reflexivity.
Defined.

(** ** From the bucket to validation *)

Section Keys.
Context `{Runtime} `{Clock} `{Llm.Sdk} `{Models.Pydantic} `{Minio}.

Lemma process_documents_file_keys provider batch_data st :
  map (fun r : dict => r !! "file_key") (process_documents provider batch_data st).1
  = map (fun d => Some (VStr (pdf_file_key d))) batch_data.
Proof.
  revert st. induction batch_data as [|d rest IH]; intros st; [done|]. simpl.
  pose proof (process_document_file_key provider d st) as Hd.
  destruct (process_document provider d st) as [r st'].
  specialize (IH st'). destruct (process_documents provider rest st') as [rs st''].
  simpl in *. by rewrite Hd, IH.
Qed.

Lemma process_batch_file_keys env batch_data st :
  map (fun r : dict => r !! "file_key") (process_batch_with_llm env batch_data st).1
  = map (fun d => Some (VStr (pdf_file_key d))) batch_data.
Proof.
  unfold process_batch_with_llm.
  destruct (Llm.get_primary_provider env None None).1 as [provider|e].
  - apply process_documents_file_keys.
  - simpl. rewrite map_map. by apply map_ext.
Qed.

Lemma extract_batch_texts_file_keys objects keys :
  map pdf_file_key (extract_batch_texts objects keys) = keys.
Proof.
  unfold extract_batch_texts. rewrite map_map. rewrite <- (map_id keys) at 2.
  apply map_ext. intros key. unfold extract_text. by destruct (_ <~ _ ;; _).
Qed.

Lemma validate_extractions_failed (extractions : list dict) :
  Forall (fun extraction => is_failed extraction = true) extractions ->
  validate_extractions extractions = Ok extractions.
Proof.
  induction 1 as [|extraction rest Hf _ IH]; [done|]. simpl.
  unfold validate_extraction. unfold is_failed in Hf. rewrite Hf. simpl.
  by rewrite IH.
Qed.

Lemma outcome_file_key extraction validated :
  outcome extraction validated ->
  validated !! "file_key" = extraction !! "file_key".
Proof.
  intros [[_ ->]|[(_ & _ & ->)|(_ & errors & _ & _ & ->)]]; [done| |];
    unfold passed, needs_review; by rewrite !lookup_insert_ne.
Qed.
End Keys.

(** X8 -- whenever validation returns for what the extraction stage made of
    a batch of keys, it returns one record per key, in the order of the keys,
    each carrying its key under [file_key]: no document is dropped, doubled
    or renamed on the way from the bucket to validation, whether it was
    unreadable, failed at the vendor or was extracted. *)
Theorem file_keys_reach_validation
    `{Runtime} `{Clock} `{Llm.Sdk} `{Models.Pydantic} `{Minio}
    (env : Llm.environ) (objects : bucket) (keys : list string) (st : llm_state)
    (validated_results : list dict) :
  validate_extractions
    (process_batch_with_llm env (extract_batch_texts objects keys) st).1
  = Ok validated_results ->
  map (fun r : dict => r !! "file_key") validated_results
  = map (fun key => Some (VStr key)) keys.
Proof.
  intros Hall%validate_extractions_Ok.
  rewrite <- (extract_batch_texts_file_keys objects keys).
  rewrite map_map, <- (process_batch_file_keys env _ st).
  induction Hall as [|extraction validated ? ? Hout _ IH]; [done|]. simpl.
  by rewrite IH, (outcome_file_key _ _ Hout).
Qed.

Lemma file_keys_reach_validation_witness :
  exists validated_results,
    validate_extractions
      (process_batch_with_llm Demo.env_gemini_only
         (extract_batch_texts Demo.stored_objects
            ["incoming/a.pdf"; "incoming/b.pdf"; "incoming/c.pdf"]%string)
         Demo.idle).1
    = Ok validated_results
    /\ map (fun r : dict => r !! "file_key") validated_results
       = [Some (VStr "incoming/a.pdf"); Some (VStr "incoming/b.pdf");
          Some (VStr "incoming/c.pdf")]
    /\ map (fun r : dict => r !! "status") validated_results
       = [Some (VStr "success"); Some (VStr "failed"); Some (VStr "failed")].
Proof.
  assert (Demo.statuses
            (validate_extractions
               (process_batch_with_llm Demo.env_gemini_only
                  (extract_batch_texts Demo.stored_objects
                     ["incoming/a.pdf"; "incoming/b.pdf"; "incoming/c.pdf"]%string)
                  Demo.idle).1)
          = Ok [Some (VStr "success"); Some (VStr "failed"); Some (VStr "failed")])
    as Hstatuses by (vm_compute; reflexivity).
  destruct (validate_extractions _) as [validated_results|e] eqn:Hrun;
    [|discriminate Hstatuses].
  exists validated_results. split_and!.
  - reflexivity.
  - exact (file_keys_reach_validation Demo.env_gemini_only Demo.stored_objects
             ["incoming/a.pdf"; "incoming/b.pdf"; "incoming/c.pdf"]%string
             Demo.idle validated_results Hrun).
  - by injection Hstatuses.
Defined.

(** ** Documents without text *)

Lemma concat_nl_empty (pages : list string) :
  String.concat Llm.nl pages = "" <-> pages = [] \/ pages = [""].
Proof.
  destruct pages as [|p [|q rest]].
  - naive_solver.
  - simpl. split; [intros ->; by right|]. by intros [?|[= ->]].
  - split; [|by intros [?|?]].
    cbn [String.concat]. unfold Llm.nl. by destruct p.
Qed.

(** X24 -- a document that is read without error is held back from the
    vendor, as failed with [No text extracted], exactly when the text joined
    from its pages is empty, that is when it has no page or one page without
    text; a document of two or more pages without text has the text of the
    line breaks between them and is sent. *)
Theorem no_text_extracted_for_blank_single_page
    `{Runtime} `{Clock} `{Llm.Sdk} `{Minio}
    (objects : bucket) (key : string) (pages : list string)
    (provider : Llm.provider) (st : llm_state) :
  (pdf_bytes <~ get_object objects key ;; read_pages pdf_bytes) = Ok pages ->
  let d := extract_text objects key in
  (readable d = false <-> pages = [] \/ pages = [""])
  /\ (readable d = false ->
      process_document provider d st
      = (failed_result key "No text extracted", st))
  /\ (readable d = true ->
      length (sent (process_document provider d st).2) = S (length (sent st))).
Proof.
  intros Hread d. subst d. unfold extract_text. rewrite Hread.
  unfold readable, process_document. cbn [pdf_error pdf_text pdf_file_key].
  rewrite bool_decide_eq_false_2 by (by intros [? ?]).
  cbn [orb truthy]. rewrite !negb_involutive, <- concat_nl_empty.
  destruct (String.eqb_spec (String.concat Llm.nl pages) "") as [Heq|Hne].
  - split_and!; [done|done|done].
  - split_and!; [done|done|]. intros _.
    pose proof (call_llm_sent provider
                  {| pdf_file_key := key; pdf_text := String.concat Llm.nl pages;
                     pdf_num_pages := Some (Z.of_nat (length pages));
                     pdf_error := None |} st) as Hsent.
    by destruct (call_llm _ _ _) as [[r|e] st'].
Qed.

Lemma no_text_extracted_for_blank_single_page_witness :
  process_document Demo.gpt_4o_mini
    (extract_text (<["incoming/blank.pdf" := ""]> ∅) "incoming/blank.pdf") Demo.idle
  = (failed_result "incoming/blank.pdf" "No text extracted", Demo.idle).
Proof.
  destruct (no_text_extracted_for_blank_single_page
              (<["incoming/blank.pdf" := ""]> ∅) "incoming/blank.pdf" [""]
              Demo.gpt_4o_mini Demo.idle) as (Hiff & Hfail & _).
  - reflexivity.
  - apply Hfail, Hiff. by right.
Defined.

(** ** The models, further *)

(** *** Floats that are not below zero *)

Lemma SFcompare_refl (x : spec_float) :
  x <> S754_nan -> SFcompare x x = Some Eq.
Proof.
  destruct x as [s|s| |s m e]; try done; intros _; simpl.
  - by destruct s.
  - rewrite Z.compare_refl, Pos.compare_cont_refl. by destruct s.
Qed.

Lemma nonneg_cases (f : float) :
  (0 <=? f)%float = true ->
  (exists s, Prim2SF f = S754_zero s)
  \/ Prim2SF f = S754_infinity false
  \/ exists m e, Prim2SF f = S754_finite false m e.
Proof.
  rewrite leb_spec. change (Prim2SF 0) with (S754_zero false).
  destruct (Prim2SF f) as [s|[]| |[] m e]; try done; eauto.
Qed.

Lemma nonneg_amount (f : float) : (0 <=? f)%float = true -> amount f.
Proof.
  intros Hf. split; [done|]. unfold is_nan. rewrite FloatAxioms.eqb_spec.
  unfold SFeqb. rewrite SFcompare_refl; [done|].
  destruct (nonneg_cases f Hf) as [[s ->]|[->|(m & e & ->)]]; done.
Qed.

Lemma infinity_add (f : float) :
  (0 <=? f)%float = true -> (infinity + f)%float = infinity.
Proof.
  intros Hf. apply Prim2SF_inj. rewrite add_spec.
  change (Prim2SF infinity) with (S754_infinity false).
  destruct (nonneg_cases f Hf) as [[s ->]|[->|(m & e & ->)]]; done.
Qed.

(** *** What an accepted field holds *)

Section Fields.
Context `{Runtime} `{Models.Pydantic}.

Lemma required_str_Valid d name s :
  Models.required_str d name = Models.Valid s -> s <> "".
Proof.
  unfold Models.required_str. repeat case_match; try done.
  intros [= <-] ->. done.
Qed.

Lemma float_ge_0_Valid name v f :
  Models.float_ge_0 name v = Models.Valid f -> amount f.
Proof.
  unfold Models.float_ge_0. repeat case_match; try done.
  intros [= <-]. by apply nonneg_amount.
Qed.

Lemma required_float_Valid d name f :
  Models.required_float d name = Models.Valid f -> amount f.
Proof.
  unfold Models.required_float. case_match; [|done]. apply float_ge_0_Valid.
Qed.

Lemma default_float_Valid d name f :
  Models.default_float d name = Models.Valid f -> amount f.
Proof.
  unfold Models.default_float. case_match; [apply float_ge_0_Valid|].
  intros [= <-]. by apply nonneg_amount.
Qed.

Lemma required_int_Valid d name n :
  Models.required_int d name = Models.Valid n -> 1 <= n.
Proof.
  unfold Models.required_int. repeat case_match; try done.
  intros [= <-]. lia.
Qed.

Lemma InvoiceItem_validate_constraints v item :
  Models.InvoiceItem_validate v = Ok (Models.Valid item) -> item_constraints item.
Proof.
  unfold Models.InvoiceItem_validate. destruct v; try done.
  destruct (Models.required_str d "nome") as [n|?] eqn:Hn;
    destruct (Models.required_int d "quantidade") as [q|?] eqn:Hq;
    destruct (Models.required_float d "preco_unitario") as [pu|?] eqn:Hpu;
    destruct (Models.required_float d "preco_total") as [pt|?] eqn:Hpt;
    cbn [Models.to_option Models.validate_total bind];
    try (destruct (float_of_int q) as [fq|]; cbn [bind];
         [destruct (0.01 <? abs (pt - fq * pu))%float|]);
    try done.
  cbn. intros [= <-]. unfold item_constraints. cbn.
  split_and!; [by eapply required_str_Valid|by eapply required_int_Valid
              |by eapply required_float_Valid|by eapply required_float_Valid].
Qed.

Lemma validate_items_constraints i l items :
  Models.validate_items i l = Ok (Models.Valid items) ->
  Forall item_constraints items.
Proof.
  revert i items. induction l as [|v l IH]; intros i items; simpl.
  { by intros [= <-]. }
  destruct (Models.InvoiceItem_validate v) as [[item|errs]|] eqn:Hv; [| |done];
    simpl; destruct (Models.validate_items (S i) l) as [[its|es]|] eqn:Hl;
    try done; simpl.
  intros [= <-]. constructor; [by eapply InvoiceItem_validate_constraints|].
  by eapply IH.
Qed.

Lemma required_items_constraints d items :
  Models.required_items d = Ok (Models.Valid items) ->
  Forall item_constraints items.
Proof.
  unfold Models.required_items. destruct (d !! "itens") as [[]|]; try done.
  destruct (Models.validate_items 0 l) as [[[|item its]|errs]|e] eqn:Hl; try done.
  simpl. intros [= <-]. by eapply validate_items_constraints.
Qed.
End Fields.

(** X9 -- a record that [InvoiceData] accepts satisfies what its fields
    declare: the order id and the restaurant name are not empty, there is at
    least one item, every item has a name, a quantity of at least one and
    prices that are neither negative nor NaN, and the subtotal, the three
    fees and the total are neither negative nor NaN. *)
Theorem accepted_invoice_satisfies_constraints `{Runtime} `{Models.Pydantic}
    (extraction : dict) (inv : Models.InvoiceData) :
  Models.InvoiceData_validate extraction = Ok (Models.Valid inv) ->
  Models.order_id inv <> ""
  /\ Models.restaurante inv <> ""
  /\ Models.itens inv <> []
  /\ Forall item_constraints (Models.itens inv)
  /\ amount (Models.subtotal inv)
  /\ amount (Models.taxa_entrega inv)
  /\ amount (Models.taxa_servico inv)
  /\ amount (Models.gorjeta inv)
  /\ amount (Models.total inv).
Proof.
  intros [Hfields _]%InvoiceData_validate_Valid.
  destruct Hfields as (Ho & Hr & _ & _ & _ & Hi & Hs & Hte & Hts & Hg & Ht & _).
  split_and!.
  - by eapply required_str_Valid.
  - by eapply required_str_Valid.
  - by apply required_items_Valid in Hi as [? _].
  - by eapply required_items_constraints.
  - by eapply required_float_Valid.
  - by eapply default_float_Valid.
  - by eapply default_float_Valid.
  - by eapply default_float_Valid.
  - by eapply required_float_Valid.
Qed.

Lemma accepted_invoice_satisfies_constraints_witness :
  exists inv,
    Models.InvoiceData_validate Demo.extraction = Ok (Models.Valid inv)
    /\ Models.itens inv <> []
    /\ amount (Models.total inv).
Proof.
  destruct (Models.InvoiceData_validate Demo.extraction) as [[inv|errors]|e] eqn:Hrun;
    [|vm_compute in Hrun; discriminate..].
  exists inv.
  destruct (accepted_invoice_satisfies_constraints _ _ Hrun)
    as (_ & _ & Hitems & _ & _ & _ & _ & _ & Htotal).
  by split_and!.
Defined.

(** *** Infinite amounts *)

Lemma items_sum_infinite (items : list Models.InvoiceItem) (acc : float) :
  acc = 0%float \/ acc = infinity ->
  items <> [] ->
  Forall (fun item => Models.preco_total item = infinity) items ->
  fold_left (fun acc item => (acc + Models.preco_total item)%float) items acc
  = infinity.
Proof.
  intros Hacc Hne Hall. revert acc Hacc Hne.
  induction Hall as [|item items Hitem Hall IH]; intros acc Hacc Hne; [done|].
  simpl. rewrite Hitem.
  assert ((acc + infinity)%float = infinity) as -> by (by destruct Hacc as [->| ->]).
  destruct items as [|item' items']; [done|]. apply IH; [by right|done].
Qed.

(** X10 -- the reconciliation of totals lets infinite amounts through: a
    record whose total, subtotal and item totals are all [+inf], whatever
    (non-negative) fees it carries, passes [validate_invoice_total], the
    differences it compares with 0.01 being NaN. *)
Theorem infinite_amounts_reconcile `{Runtime} (self : Models.InvoiceData) :
  Models.total self = infinity ->
  Models.subtotal self = infinity ->
  (0 <=? Models.taxa_entrega self)%float = true ->
  (0 <=? Models.taxa_servico self)%float = true ->
  (0 <=? Models.gorjeta self)%float = true ->
  Models.itens self <> [] ->
  Forall (fun item => Models.preco_total item = infinity) (Models.itens self) ->
  Models.validate_invoice_total self = Models.Valid self
  /\ Models.total_mismatch self = false
  /\ Models.subtotal_mismatch self = false.
Proof.
  intros Ht Hs Hte Hts Hg Hne Hall.
  assert (Models.total_mismatch self = false) as Htm.
  { unfold Models.total_mismatch. by rewrite Ht, Hs, !infinity_add. }
  assert (Models.subtotal_mismatch self = false) as Hsm.
  { unfold Models.subtotal_mismatch, Models.items_sum.
    rewrite Hs, items_sum_infinite; [done|by left|done|done]. }
  split_and!; [|done|done]. by apply validate_invoice_total_accepts.
Qed.

Lemma infinite_amounts_reconcile_witness :
  Models.validate_invoice_total Demo.invoice_infinite
  = Models.Valid Demo.invoice_infinite.
Proof.
  apply infinite_amounts_reconcile; try reflexivity.
  - discriminate.
  - by repeat constructor.
Defined.

(** ** The validation stage, further *)

Section Reads.
Context `{Runtime} `{Models.Pydantic}.

(** *** The keys validation reads

    A key written by validation is none of the keys the models are built
    from. *)

Lemma required_str_insert d k v name :
  k <> name -> Models.required_str (<[k := v]> d) name = Models.required_str d name.
Proof. intros Hk. unfold Models.required_str. by rewrite lookup_insert_ne. Qed.

Lemma optional_str_insert d k v name :
  k <> name -> Models.optional_str (<[k := v]> d) name = Models.optional_str d name.
Proof. intros Hk. unfold Models.optional_str. by rewrite lookup_insert_ne. Qed.

Lemma required_float_insert d k v name :
  k <> name -> Models.required_float (<[k := v]> d) name = Models.required_float d name.
Proof. intros Hk. unfold Models.required_float. by rewrite lookup_insert_ne. Qed.

Lemma default_float_insert d k v name :
  k <> name -> Models.default_float (<[k := v]> d) name = Models.default_float d name.
Proof. intros Hk. unfold Models.default_float. by rewrite lookup_insert_ne. Qed.

Lemma required_datetime_insert d k v :
  k <> "data_hora" ->
  Models.required_datetime (<[k := v]> d) = Models.required_datetime d.
Proof. intros Hk. unfold Models.required_datetime. by rewrite lookup_insert_ne. Qed.

Lemma required_items_insert d k v :
  k <> "itens" -> Models.required_items (<[k := v]> d) = Models.required_items d.
Proof. intros Hk. unfold Models.required_items. by rewrite lookup_insert_ne. Qed.

Lemma get_default_insert d k v name default :
  k <> name -> get_default (<[k := v]> d) name default = get_default d name default.
Proof. intros Hk. unfold get_default. by rewrite lookup_insert_ne. Qed.

Lemma subscript_insert d k v name :
  k <> name -> subscript (<[k := v]> d) name = subscript d name.
Proof. intros Hk. unfold subscript. by rewrite lookup_insert_ne. Qed.

Lemma check_extraction_insert extraction k v :
  k ∈ validation_keys ->
  check_extraction (<[k := v]> extraction) = check_extraction extraction.
Proof.
  intros Hk.
  assert (k = "status" \/ k = "validation_passed" \/ k = "validation_errors")
    as Hcases by (unfold validation_keys in Hk; set_solver).
  unfold check_extraction, Models.InvoiceData_validate.
  rewrite required_items_insert
    by (destruct Hcases as [->|[->| ->]]; discriminate).
  rewrite !required_str_insert, !optional_str_insert, !required_float_insert,
    !default_float_insert, required_datetime_insert, subscript_insert,
    !get_default_insert
    by (destruct Hcases as [->|[->| ->]]; discriminate).
  reflexivity.
Qed.

Lemma check_extraction_passed extraction :
  check_extraction (passed extraction) = check_extraction extraction.
Proof.
  unfold passed. rewrite !check_extraction_insert; [done|..];
    unfold validation_keys; set_solver.
Qed.

Lemma check_extraction_needs_review extraction error_details :
  check_extraction (needs_review extraction error_details)
  = check_extraction extraction.
Proof.
  unfold needs_review. rewrite !check_extraction_insert; [done|..];
    unfold validation_keys; set_solver.
Qed.

Lemma passed_passed extraction : passed (passed extraction) = passed extraction.
Proof.
  unfold passed. apply map_eq. intros k.
  destruct (decide (k = "status")) as [->|?]; [by simplify_map_eq|].
  destruct (decide (k = "validation_passed")) as [->|?]; by simplify_map_eq.
Qed.

Lemma needs_review_needs_review extraction error_details :
  needs_review (needs_review extraction error_details) error_details
  = needs_review extraction error_details.
Proof.
  unfold needs_review. apply map_eq. intros k.
  destruct (decide (k = "status")) as [->|?]; [by simplify_map_eq|].
  destruct (decide (k = "validation_errors")) as [->|?]; [by simplify_map_eq|].
  destruct (decide (k = "validation_passed")) as [->|?]; by simplify_map_eq.
Qed.

(** Validation writes its three keys and no other. *)
Lemma outcome_keeps extraction validated :
  outcome extraction validated ->
  forall k, k ∉ validation_keys -> validated !! k = extraction !! k.
Proof.
  intros [[_ ->]|[(_ & _ & ->)|(_ & errors & _ & _ & ->)]] k Hk; [done| |];
    unfold passed, needs_review, validation_keys in *;
    (rewrite !lookup_insert_ne; [done|..]); intros <-; apply Hk; set_solver.
Qed.

(** The two ways a record passes through the [try]. *)
Lemma validate_extraction_passed extraction r :
  eq_str (extraction !! "status") "failed" = false ->
  check_extraction extraction = Ok (Models.Valid r) ->
  validate_extraction extraction = Ok (passed extraction).
Proof. unfold validate_extraction. by intros -> ->. Qed.

Lemma validate_extraction_reviewed extraction errors error_details :
  eq_str (extraction !! "status") "failed" = false ->
  check_extraction extraction = Ok (Models.Invalid errors) ->
  error_details_of errors = Ok error_details ->
  is_Some (extraction !! "file_key") ->
  validate_extraction extraction = Ok (needs_review extraction error_details).
Proof.
  unfold validate_extraction. intros -> -> Hd [key Hkey]. cbn [bind].
  rewrite Hd. cbn [bind]. unfold subscript. by rewrite Hkey.
Qed.

(** Building the messages fails in one way only. *)
Lemma error_details_of_Raise errors e :
  error_details_of errors = Raise e -> e = IndexError.
Proof.
  induction errors as [|err errors IH]; [done|]. simpl.
  unfold error_detail at 1. destruct (Models.loc err); [by intros [= <-]|].
  simpl. destruct (error_details_of errors); [done|]. simpl.
  intros [= <-]. by apply IH.
Qed.
End Reads.

(** X11 -- validation is idempotent and leaves the extracted fields alone:
    when it returns for an extraction (one that carries the [file_key] its
    log lines read), the record it returns agrees with the extraction on
    every key but [status], [validation_passed] and [validation_errors], and
    validating that record again returns it unchanged. *)
Theorem validate_extraction_idempotent `{Runtime} `{Models.Pydantic}
    (extraction validated : dict) :
  is_Some (extraction !! "file_key") ->
  validate_extraction extraction = Ok validated ->
  validate_extraction validated = Ok validated
  /\ (forall k, k ∉ validation_keys -> validated !! k = extraction !! k).
Proof.
  intros [key Hkey] Hrun. pose proof Hrun as Hout%validate_extraction_Ok.
  split; [|by apply outcome_keeps].
  destruct Hout as [[Hst ->]|[(Hst & [r Hr] & ->)|(Hst & errors & Hr & Hl & ->)]].
  - done.
  - unfold validate_extraction.
    assert (eq_str (passed extraction !! "status") "failed" = false) as ->
      by (unfold passed; by rewrite lookup_insert_eq).
    rewrite check_extraction_passed, Hr. cbn [bind]. by rewrite passed_passed.
  - unfold validate_extraction.
    assert (eq_str (needs_review extraction (map detail_text errors) !! "status")
                   "failed" = false) as ->
      by (unfold needs_review; by rewrite lookup_insert_eq).
    rewrite check_extraction_needs_review, Hr. cbn [bind].
    rewrite (error_details_of_located _ Hl). cbn [bind].
    assert (subscript (needs_review extraction (map detail_text errors)) "file_key"
            = Ok key) as ->.
    { unfold subscript, needs_review. by rewrite !lookup_insert_ne, Hkey. }
    cbn [bind]. by rewrite needs_review_needs_review.
Qed.

Lemma validate_extraction_idempotent_witness :
  exists error_details,
    let validated := needs_review Demo.extraction_wrong_line error_details in
    validate_extraction Demo.extraction_wrong_line = Ok validated
    /\ validate_extraction validated = Ok validated
    /\ validated !! "total" = Demo.extraction_wrong_line !! "total".
Proof.
  assert (exists errors error_details,
             check_extraction Demo.extraction_wrong_line = Ok (Models.Invalid errors)
             /\ error_details_of errors = Ok error_details)
    as (errors & error_details & Hcheck & Hdetails)
    by (vm_compute; eexists _, _; split; reflexivity).
  exists error_details. intros validated.
  assert (validate_extraction Demo.extraction_wrong_line = Ok validated) as Hrun.
  { eapply validate_extraction_reviewed;
      [vm_compute; reflexivity|done|done|vm_compute; eexists; reflexivity]. }
  destruct (validate_extraction_idempotent Demo.extraction_wrong_line validated)
    as [Hagain Hkeep]; [vm_compute; eexists; reflexivity|exact Hrun|].
  split_and!; [exact Hrun|exact Hagain|].
  apply Hkeep. unfold validation_keys.
  rewrite !elem_of_cons, elem_of_nil. intros [[=]|[[=]|[[=]|[]]]].
Defined.

(** X12 -- validation of an extraction that carries the [file_key] its log
    lines read raises in two cases only: [IndexError], when every field passes and the total or
    the subtotal does not reconcile, and [OverflowError], when the
    construction of [InvoiceData] itself raises it (the quantity of an item
    is too large for a float); in every other case a record is returned. *)
Theorem validate_extraction_raises_only `{Runtime} `{Models.Pydantic}
    (extraction : dict) (e : exn) :
  is_Some (extraction !! "file_key") ->
  validate_extraction extraction = Raise e ->
  eq_str (extraction !! "status") "failed" = false
  /\ ((e = IndexError
       /\ exists inv, Models.fields_valid extraction inv
                      /\ Models.total_mismatch inv || Models.subtotal_mismatch inv = true)
      \/ (e = OverflowError
          /\ Models.InvoiceData_validate extraction = Raise OverflowError)).
Proof.
  intros [key Hkey]. unfold validate_extraction.
  destruct (eq_str (extraction !! "status") "failed"); [done|].
  intros Hrun. split; [done|]. revert Hrun.
  destruct (check_extraction extraction) as [[r|errors]|e'] eqn:Hc; cbn [bind] in *.
  - done.
  - destruct (error_details_of errors) as [details|e'] eqn:Hd;
      [cbn [bind]; unfold subscript; by rewrite Hkey|].
    cbn [bind]. intros [= <-]. left.
    split; [by eapply error_details_of_Raise|].
    destruct (check_extraction_Invalid _ _ Hc) as [Hl|(inv & Hf & Hv)].
    { by rewrite (error_details_of_located _ Hl) in Hd. }
    exists inv. split; [done|].
    destruct (Models.total_mismatch inv || Models.subtotal_mismatch inv) eqn:Hm;
      [done|].
    apply orb_false_elim in Hm as [Ht Hs].
    assert (Models.validate_invoice_total inv = Models.Valid inv)
      by (by apply validate_invoice_total_accepts).
    congruence.
  - intros [= <-]. right. unfold check_extraction, subscript in Hc.
    rewrite Hkey in Hc.
    destruct (Models.InvoiceData_validate extraction) as [[inv|errs]|e''] eqn:Hv;
      cbn [bind] in Hc; try done.
    injection Hc as <-.
    pose proof (InvoiceData_validate_Raise _ _ Hv) as ->. done.
Qed.

Lemma validate_extraction_raises_only_witness :
  exists inv,
    Models.fields_valid Demo.extraction_wrong_total inv
    /\ Models.total_mismatch inv || Models.subtotal_mismatch inv = true.
Proof.
  destruct (validate_extraction_raises_only Demo.extraction_wrong_total IndexError)
    as [_ [[_ Hinv]|[Hov _]]].
  - by eexists.
  - vm_compute. reflexivity.
  - exact Hinv.
  - discriminate Hov.
Defined.

(** ** Persistence, further *)

Lemma same_business_refl (r : Db.row) : Db.same_business r r.
Proof. done. Qed.

Lemma same_business_trans (r1 r2 r3 : Db.row) :
  Db.same_business r1 r2 -> Db.same_business r2 r3 -> Db.same_business r1 r3.
Proof.
  unfold Db.same_business. intros (? & ? & ? & ?) (? & ? & ? & ?).
  split_and!; congruence.
Qed.

Lemma Forall2_same_business_refl (table : list Db.row) :
  Forall2 Db.same_business table table.
Proof. induction table; constructor; [apply same_business_refl|done]. Qed.

Lemma Forall2_same_business_trans (t1 t2 t3 : list Db.row) :
  Forall2 Db.same_business t1 t2 -> Forall2 Db.same_business t2 t3 ->
  Forall2 Db.same_business t1 t3.
Proof.
  intros H12. revert t3. induction H12 as [|r1 r2 t1 t2 Hr _ IH]; intros t3 H23.
  - by inversion H23.
  - inversion H23 as [|? r3 ? t3' Hr' Ht']; subst. constructor.
    + by eapply same_business_trans.
    + by apply IH.
Qed.

Section Runs.
Context `{Runtime} `{Clock} `{Db.Postgres}.

Lemma update_same_business db p key table :
  Forall2 Db.same_business table
    (map (fun r => if Db.conflicts key r then Db.do_update db p r else r) table).
Proof.
  induction table as [|r table IH]; constructor; [|done].
  by destruct (Db.conflicts key r).
Qed.

(** What one statement does to the table: the rows it found keep their id,
    order id, business columns and creation time, and at most one row is
    added after them. *)
Lemma insert_invoice_keeps db p db' :
  Db.insert_invoice db p = Ok db' ->
  (exists kept added,
      Db.rows db' = kept ++ added
      /\ Forall2 Db.same_business (Db.rows db) kept
      /\ (length added <= 1)%nat)
  /\ Db.next_id db' = Db.next_id db + 1
  /\ Db.current_timestamp db' = Db.current_timestamp db.
Proof.
  unfold Db.insert_invoice. destruct (Db.reject p); [done|].
  intros [= <-]. simpl. split; [|done].
  destruct (existsb _ _).
  - eexists _, []. rewrite app_nil_r. split_and!; [done| |simpl; lia].
    apply update_same_business.
  - eexists _, [_]. split_and!; [done| |simpl; lia].
    apply Forall2_same_business_refl.
Qed.

(** The table after a record is the table before it, or the result of the
    one statement sent for it, which is then counted as a success. *)
Lemma store_record_db data st :
  (db (store_record data st) = db st
   /\ success_count (store_record data st) = success_count st
   /\ failed_count (store_record data st) = failed_count st + 1)
  \/ (exists order_datetime,
        is_failed data = false
        /\ order_datetime_of data = Ok order_datetime
        /\ Db.insert_invoice (db st)
             (insert_params data order_datetime (clock_readings st))
           = Ok (db (store_record data st))
        /\ success_count (store_record data st) = success_count st + 1
        /\ failed_count (store_record data st) = failed_count st).
Proof.
  unfold store_record, is_failed.
  destruct (eq_str (data !! "status") "failed"); simpl; [by left|].
  destruct (order_datetime_of data) as [order_datetime|]; simpl; [|by left].
  destruct (Db.insert_invoice _ _) as [db'|] eqn:Hins; simpl; [|by left].
  right. by exists order_datetime.
Qed.

(** The same of a turn of the loop, whatever the state of the transaction:
    in an aborted one nothing is written. *)
Lemma store_turn_db data run :
  (db (reached (store_turn data run)) = db (reached run)
   /\ success_count (reached (store_turn data run)) = success_count (reached run)
   /\ failed_count (reached (store_turn data run)) = failed_count (reached run) + 1)
  \/ (exists order_datetime,
        is_failed data = false
        /\ order_datetime_of data = Ok order_datetime
        /\ Db.insert_invoice (db (reached run))
             (insert_params data order_datetime (clock_readings (reached run)))
           = Ok (db (reached (store_turn data run)))
        /\ success_count (reached (store_turn data run))
           = success_count (reached run) + 1
        /\ failed_count (reached (store_turn data run)) = failed_count (reached run)).
Proof.
  unfold store_turn. destruct (aborted run); cbn [reached].
  - left. unfold store_record_aborted.
    destruct (eq_str (data !! "status") "failed"); [done|].
    by destruct (order_datetime_of data).
  - apply store_record_db.
Qed.

Lemma store_turn_clock data run :
  (clock_readings (reached run) <= clock_readings (reached (store_turn data run)))%nat
  /\ Z.of_nat (clock_readings (reached (store_turn data run)))
     <= Z.of_nat (clock_readings (reached run)) + (if is_failed data then 0 else 1).
Proof.
  unfold store_turn, store_record_aborted, store_record, is_failed.
  destruct (aborted run); cbn [reached];
    (destruct (eq_str (data !! "status") "failed"); simpl; [lia|]);
    (destruct (order_datetime_of data); simpl; [|lia]); [lia|].
  destruct (Db.insert_invoice _ _); simpl; lia.
Qed.

Lemma store_records_counts validated_data run :
  let st := reached run in
  let st' := reached (store_records validated_data run) in
  success_count st' + failed_count st'
  = success_count st + failed_count st + Z.of_nat (length validated_data)
  /\ success_count st <= success_count st'
  /\ failed_count st <= failed_count st'
  /\ (clock_readings st <= clock_readings st')%nat
  /\ Z.of_nat (clock_readings st') - Z.of_nat (clock_readings st)
     <= Z.of_nat (length (filter (fun d => is_failed d = false) validated_data)).
Proof.
  revert run. induction validated_data as [|data l IH]; intros run.
  { simpl. lia. }
  rewrite store_records_cons. cbn zeta.
  specialize (IH (store_turn data run)). cbn zeta in IH.
  destruct IH as (Hsum & Hs & Hf & Hc & Hr).
  rewrite filter_cons.
  destruct (store_turn_clock data run) as [? ?].
  assert (success_count (reached (store_turn data run))
          + failed_count (reached (store_turn data run))
          = success_count (reached run) + failed_count (reached run) + 1
          /\ success_count (reached run) <= success_count (reached (store_turn data run))
          /\ failed_count (reached run) <= failed_count (reached (store_turn data run)))
    as (? & ? & ?).
  { destruct (store_turn_db data run) as [(_ & -> & ->)|(? & _ & _ & _ & -> & ->)]; lia. }
  cbn [length]. split_and!; try lia.
  destruct (is_failed data); [rewrite decide_False by done|rewrite decide_True by done];
    cbn [length]; lia.
Qed.

Lemma store_records_keeps validated_data run :
  let st := reached run in
  let st' := reached (store_records validated_data run) in
  (exists kept added,
      Db.rows (db st') = kept ++ added
      /\ Forall2 Db.same_business (Db.rows (db st)) kept
      /\ Z.of_nat (length added) <= success_count st' - success_count st)
  /\ (Db.unique_order_ids (Db.rows (db st)) -> Db.unique_order_ids (Db.rows (db st')))
  /\ Db.next_id (db st') = Db.next_id (db st) + (success_count st' - success_count st)
  /\ Db.current_timestamp (db st') = Db.current_timestamp (db st).
Proof.
  revert run. induction validated_data as [|data l IH]; intros run.
  { simpl. split_and!; [|done|lia|done].
    exists (Db.rows (db (reached run))), []. rewrite app_nil_r.
    split_and!; [done|apply Forall2_same_business_refl|simpl; lia]. }
  rewrite store_records_cons. cbn zeta.
  specialize (IH (store_turn data run)). cbn zeta in IH.
  destruct IH as ((kept & added & Hrows & Hkept & Hadded) & Huniq & Hid & Hts).
  destruct (store_turn_db data run)
    as [(Hdb & Hs & Hf)|(order_datetime & _ & _ & Hins & Hs & Hf)].
  - rewrite Hdb, Hs in *. split_and!; [|done|done|done]. by exists kept, added.
  - destruct (insert_invoice_keeps _ _ _ Hins)
      as ((kept1 & added1 & Hrows1 & Hkept1 & Hadded1) & Hid1 & Hts1).
    split_and!.
    + rewrite Hrows1 in Hkept.
      apply Forall2_app_inv_l in Hkept as (kept2 & moved & Hk2 & Hm & ->).
      exists kept2, (moved ++ added). split_and!.
      * by rewrite Hrows, app_assoc.
      * by eapply Forall2_same_business_trans.
      * rewrite length_app, <- (Forall2_length _ _ _ Hm). lia.
    + intros Hu. apply Huniq. by eapply insert_invoice_unique.
    + rewrite Hid, Hid1. lia.
    + by rewrite Hts, Hts1.
Qed.

(** A record whose [data_hora] is a string that does not parse is counted
    as failed before anything is sent. *)
Lemma store_record_unparseable data s st :
  is_failed data = false ->
  data !! "data_hora" = Some (VStr s) ->
  fromisoformat (Str.replace "Z" "+00:00" s) = None ->
  store_record data st = bump 1 st.
Proof.
  unfold is_failed, store_record, order_datetime_of, get_default.
  intros -> -> Hparse. cbn [from_option id]. by rewrite Hparse.
Qed.

(** A statement for an order id the table holds adds no row and moves no
    key. *)
Lemma insert_invoice_known db p db' key :
  Db.order_id_text (Db.order_id p) = Some key ->
  key ∈ Db.order_ids (Db.rows db) ->
  Db.insert_invoice db p = Ok db' ->
  Db.order_ids (Db.rows db') = Db.order_ids (Db.rows db)
  /\ Forall2 Db.same_business (Db.rows db) (Db.rows db').
Proof.
  unfold Db.insert_invoice. intros Hk Hin. destruct (Db.reject p); [done|].
  intros [= <-]. simpl. rewrite Hk.
  apply existsb_conflicts in Hin. rewrite Hin.
  split; [apply order_ids_update|apply update_same_business].
Qed.

Lemma store_records_known validated_data run :
  Forall (already_stored (Db.rows (db (reached run)))) validated_data ->
  Db.order_ids (Db.rows (db (reached (store_records validated_data run))))
  = Db.order_ids (Db.rows (db (reached run)))
  /\ Forall2 Db.same_business (Db.rows (db (reached run)))
       (Db.rows (db (reached (store_records validated_data run)))).
Proof.
  revert run. induction validated_data as [|data l IH]; intros run Hall.
  { split; [done|apply Forall2_same_business_refl]. }
  apply Forall_cons in Hall as [Hdata Hall]. rewrite store_records_cons.
  assert (Db.order_ids (Db.rows (db (reached (store_turn data run))))
          = Db.order_ids (Db.rows (db (reached run)))
          /\ Forall2 Db.same_business (Db.rows (db (reached run)))
               (Db.rows (db (reached (store_turn data run))))) as [Hids Hsame].
  { destruct (store_turn_db data run)
      as [(-> & _)|(order_datetime & Hnf & _ & Hins & _)].
    { split; [done|apply Forall2_same_business_refl]. }
    destruct Hdata as [Hf|(key & Hkey & Hin)]; [congruence|].
    eapply insert_invoice_known; [|done|done].
    unfold insert_params, get_default. simpl. by rewrite Hkey. }
  destruct (IH (store_turn data run)) as [Hids' Hsame'].
  { eapply Forall_impl; [done|]. intros d [?|(key & ? & Hin)]; [by left|right].
    exists key. by rewrite Hids. }
  split; [congruence|]. by eapply Forall2_same_business_trans.
Qed.
End Runs.

(** X13 -- a persistence run counts every record exactly once: the success
    and the failure count add up to the number of records handed in, neither
    is negative, and the clock is read at most once per record that is not
    marked failed. *)
Theorem store_to_database_counts_every_record
    `{Runtime} `{Clock} `{Db.Postgres}
    (validated_data : list dict) (database : Db.database) (taken : nat) :
  let out := store_to_database validated_data database taken in
  res_success_count out.1.1 + res_failed_count out.1.1 = total_processed out.1.1
  /\ total_processed out.1.1 = Z.of_nat (length validated_data)
  /\ 0 <= res_success_count out.1.1
  /\ 0 <= res_failed_count out.1.1
  /\ (taken <= out.2)%nat
  /\ Z.of_nat out.2 - Z.of_nat taken
     <= Z.of_nat (length (filter (fun d => is_failed d = false) validated_data)).
Proof.
  intros out. subst out. unfold store_to_database. cbn [fst snd res_success_count
    res_failed_count total_processed].
  pose proof (store_records_counts validated_data
                {| reached := store_start database taken; aborted := false |}) as Hc.
  cbn zeta in Hc.
  cbn [reached store_start success_count failed_count clock_readings] in Hc.
  destruct Hc as (? & ? & ? & ? & ?). split_and!; try done; lia.
Qed.

(** X14 -- a persistence run never deletes a row and never changes the id,
    the order id, the business columns or the creation time of a row it
    found: the table it leaves is the rows it found, in place, followed by
    the rows it added, of which there are at most as many as counted
    successes; and it keeps the order ids distinct when they were. *)
Theorem store_to_database_keeps_rows `{Runtime} `{Clock} `{Db.Postgres}
    (validated_data : list dict) (database : Db.database) (taken : nat) :
  let out := store_to_database validated_data database taken in
  (exists kept added,
      Db.rows out.1.2 = kept ++ added
      /\ Forall2 Db.same_business (Db.rows database) kept
      /\ Z.of_nat (length added) <= res_success_count out.1.1)
  /\ (Db.unique_order_ids (Db.rows database) ->
      Db.unique_order_ids (Db.rows out.1.2)).
Proof.
  intros out. subst out. unfold store_to_database. cbn [fst snd res_success_count].
  pose proof (store_records_keeps validated_data
                {| reached := store_start database taken; aborted := false |}) as Hk.
  pose proof (store_records_counts validated_data
                {| reached := store_start database taken; aborted := false |}) as Hc.
  cbn zeta in Hk, Hc. cbn [reached store_start success_count db] in Hk, Hc.
  rewrite !Z.sub_0_r in Hk. destruct Hk as (Hrows & Huniq & _).
  destruct Hc as (_ & Hs & _).
  destruct (aborted _); [|by split]. cbn [Db.rollback Db.rows].
  split; [|done]. exists (Db.rows database), []. rewrite app_nil_r.
  split_and!; [done|apply Forall2_same_business_refl|simpl; lia].
Qed.

(** X15 -- a record whose [data_hora] is a string that does not parse is
    never persisted: the run counts it as failed without sending a statement
    or reading the clock; and since validation parses the date the same way,
    such a record comes out of validation as [needs_review], and is then not
    persisted either. *)
Theorem unparseable_datetime_is_not_stored
    `{Runtime} `{Clock} `{Db.Postgres} `{Models.Pydantic}
    (data : dict) (s : string) (st : store_state) :
  is_failed data = false ->
  data !! "data_hora" = Some (VStr s) ->
  fromisoformat (Str.replace "Z" "+00:00" s) = None ->
  store_record data st = bump 1 st
  /\ (forall validated,
        is_Some (data !! "file_key") ->
        validate_extraction data = Ok validated ->
        validated !! "status" = Some (VStr "needs_review")
        /\ store_record validated st = bump 1 st).
Proof.
  intros Hnf Hdate Hparse. split; [by eapply store_record_unparseable|].
  intros validated Hkey Hrun.
  apply validate_extraction_Ok in Hrun.
  pose proof (outcome_keeps _ _ Hrun) as Hkeep.
  destruct Hrun as [[Hst _]|[(_ & [r Hr] & _)|(_ & errors & _ & _ & ->)]].
  - unfold is_failed in Hnf. congruence.
  - exfalso. unfold check_extraction in Hr.
    destruct (Models.InvoiceData_validate data) as [[inv|errs]|e] eqn:Hv; try done.
    apply InvoiceData_validate_Valid in Hv as [(_ & _ & _ & _ & Hd & _) _].
    unfold Models.required_datetime, Models.parse_datetime in Hd.
    by rewrite Hdate, Hparse in Hd.
  - split; [unfold needs_review; by rewrite lookup_insert_eq|].
    eapply store_record_unparseable; [|by rewrite Hkeep by (unfold validation_keys; set_solver)|done].
    unfold is_failed, needs_review. by rewrite lookup_insert_eq.
Qed.

Lemma unparseable_datetime_is_not_stored_witness :
  store_record Demo.extraction_bad_date Demo.fresh_store = bump 1 Demo.fresh_store
  /\ Db.rows (db (store_record Demo.extraction_bad_date Demo.fresh_store)) = [].
Proof.
  destruct (unparseable_datetime_is_not_stored Demo.extraction_bad_date
              "yesterday at noon" Demo.fresh_store) as [Hrun _];
    [reflexivity..|].
  split; [exact Hrun|]. by rewrite Hrun.
Defined.

(** X16 -- records that are marked failed or carry an order id the table
    already holds add no row: after the run the table has the same rows in
    the same places, each with its id, order id, business columns and
    creation time, so that persisting again what was persisted is harmless
    as long as every record has an order id. *)
Theorem known_order_ids_add_no_row `{Runtime} `{Clock} `{Db.Postgres}
    (validated_data : list dict) (database : Db.database) (taken : nat) :
  Forall (already_stored (Db.rows database)) validated_data ->
  let out := store_to_database validated_data database taken in
  Db.order_ids (Db.rows out.1.2) = Db.order_ids (Db.rows database)
  /\ length (Db.rows out.1.2) = length (Db.rows database)
  /\ Forall2 Db.same_business (Db.rows database) (Db.rows out.1.2).
Proof.
  intros Hall out. subst out. unfold store_to_database. cbn [fst snd].
  destruct (store_records_known validated_data
              {| reached := store_start database taken; aborted := false |} Hall)
    as [Hids Hsame].
  cbn [reached store_start db] in *.
  destruct (aborted _); cbn [Db.rollback Db.rows].
  { split_and!; [done|done|apply Forall2_same_business_refl]. }
  split_and!; [done| |done].
  symmetry. by eapply Forall2_length.
Qed.

Lemma known_order_ids_add_no_row_witness :
  let database := (store_to_database [Demo.extraction] Demo.empty_db 0).1.2 in
  length (Db.rows database) = 1%nat
  /\ length (Db.rows (store_to_database
                        [Demo.extraction; Demo.extraction_wrong_line;
                         failed_result "incoming/b.pdf" "EOF marker not found"]
                        database 1).1.2) = 1%nat.
Proof.
  intros database.
  assert (length (Db.rows database) = 1%nat) as Hone by (vm_compute; reflexivity).
  split; [exact Hone|].
  destruct (known_order_ids_add_no_row
              [Demo.extraction; Demo.extraction_wrong_line;
               failed_result "incoming/b.pdf" "EOF marker not found"]
              database 1) as (_ & Hlen & _).
  - assert ("ORD-1" ∈ Db.order_ids (Db.rows database)) as Hin
      by (vm_compute; apply list_elem_of_here).
    apply Forall_cons_2; [|apply Forall_cons_2; [|apply Forall_cons_2; [|done]]].
    + right. exists "ORD-1". split; [vm_compute; reflexivity|exact Hin].
    + right. exists "ORD-1". split; [vm_compute; reflexivity|exact Hin].
    + left. vm_compute. reflexivity.
  - by rewrite Hlen.
Defined.

(** ** File moves, further *)

(** The three destinations of a key under [incoming/] lie outside it. *)
Lemma destination_leaves_incoming (data : dict) (name : string) :
  Str.startswith "incoming/" (destination data ("incoming/" ++ name)) = false.
Proof.
  unfold destination, route.
  destruct (eq_str _ _); [|destruct (negb _)]; cbn [fst];
    by rewrite replace_incoming.
Qed.

Lemma startswith_incoming (key : string) :
  Str.startswith "incoming/" key = true -> exists name, key = ("incoming/" ++ name)%string.
Proof.
  intros Hk.
  do 9 (destruct key as [|? key]; [done|]; cbn [Str.startswith] in Hk;
        apply andb_true_iff in Hk as [<-%Ascii.eqb_eq Hk]).
  by exists key.
Qed.

Section Frame.
Context `{Minio}.

Lemma route_destination data key st :
  (route data key st).1 = destination data key
  /\ objects (route data key st).2 = objects st.
Proof.
  unfold destination, route.
  by destruct (eq_str _ _); [|destruct (negb _)].
Qed.

(** One move writes the new key, deletes the old one and touches nothing
    else. *)
Lemma moved_frame stored new_key key name :
  name <> key -> name <> new_key -> moved stored new_key key !! name = stored !! name.
Proof.
  intros Hk Hn. unfold moved, copy_object, remove_object.
  destruct (copy_error _ _ _); [done|].
  destruct (stored !! key) as [bytes|]; [|done].
  destruct (remove_error _ _).
  - by rewrite lookup_insert_ne.
  - by rewrite lookup_delete_ne, lookup_insert_ne.
Qed.

Lemma move_file_objects data key st :
  file_key_of data = Some key ->
  objects (move_file data st) = moved (objects st) (destination data key) key.
Proof.
  intros Hkey. rewrite (move_file_keyed _ _ _ Hkey).
  destruct (route_destination data key st) as [-> ->]. done.
Qed.

Lemma move_file_frame data st name :
  Some name <> file_key_of data ->
  Some name <> destination_of data ->
  objects (move_file data st) !! name = objects st !! name.
Proof.
  unfold destination_of. destruct (file_key_of data) as [key|] eqn:Hkey.
  - simpl. intros Hk Hd. rewrite (move_file_objects _ _ _ Hkey).
    apply moved_frame; intros ->; [by apply Hk|by apply Hd].
  - intros _ _. by rewrite move_file_unkeyed.
Qed.

Lemma move_files_cons data l st :
  move_files (data :: l) st = move_files l (move_file data st).
Proof. reflexivity. Qed.

Lemma move_files_frame validated_data st name :
  name ∉ omap file_key_of validated_data ->
  name ∉ omap destination_of validated_data ->
  objects (move_files validated_data st) !! name = objects st !! name.
Proof.
  revert st. induction validated_data as [|data l IH]; intros st Hk Hd; [done|].
  rewrite move_files_cons, IH, move_file_frame; [done|..].
  - intros Heq. apply Hk. simpl. rewrite <- Heq. simpl. set_solver.
  - intros Heq. apply Hd. simpl. rewrite <- Heq. simpl. set_solver.
  - intros Hin. apply Hk. simpl. destruct (file_key_of data); set_solver.
  - intros Hin. apply Hd. simpl. destruct (destination_of data); set_solver.
Qed.

(** On a quiet store a move leaves nothing under the old key, unless the
    new key is the old one and the object was there. *)
Lemma moved_quiet stored new_key key :
  quiet ->
  moved stored new_key key
  = match stored !! key with
    | Some bytes => delete key (<[new_key := bytes]> stored)
    | None => stored
    end.
Proof.
  intros [Hc Hr]. unfold moved, copy_object, remove_object.
  rewrite Hc. destruct (stored !! key); [|done]. by rewrite Hr.
Qed.

Lemma moved_source_gone stored new_key key :
  quiet -> moved stored new_key key !! key = None.
Proof.
  intros Hq. rewrite (moved_quiet _ _ _ Hq).
  destruct (stored !! key) eqn:Hk; [|done]. by rewrite lookup_delete_eq.
Qed.

(** Nothing appears under [incoming/] while pending records are moved. *)
Lemma move_files_incoming_stays_gone validated_data st name :
  quiet ->
  Forall pending validated_data ->
  objects st !! ("incoming/" ++ name)%string = None ->
  objects (move_files validated_data st) !! ("incoming/" ++ name)%string = None.
Proof.
  intros Hq Hall. revert st.
  induction Hall as [|data l Hdata _ IH]; intros st Hgone; [done|].
  rewrite move_files_cons. apply IH.
  destruct (file_key_of data) as [key|] eqn:Hkey;
    [|by rewrite move_file_unkeyed].
  rewrite (move_file_objects _ _ _ Hkey).
  destruct (decide (("incoming/" ++ name)%string = key)) as [<-|Hne].
  { by apply moved_source_gone. }
  rewrite moved_frame; [done|done|].
  destruct (startswith_incoming key (Hdata key Hkey)) as [name' ->].
  intros Heq. pose proof (destination_leaves_incoming data name') as Hout.
  by rewrite <- Heq in Hout.
Qed.
End Frame.

(** X17 -- the file moves touch only the objects the records name: an
    object that is neither the file of a record nor the destination of one is
    in the bucket after the run exactly as it was before, whatever fails. *)
Theorem move_processed_files_touches_named_objects_only `{Minio}
    (validated_data : list dict) (stored : bucket) (name : string) :
  name ∉ omap file_key_of validated_data ->
  name ∉ omap destination_of validated_data ->
  (move_processed_files validated_data stored).2 !! name = stored !! name.
Proof.
  intros Hk Hd. unfold move_processed_files. cbn [snd].
  by rewrite move_files_frame.
Qed.

Lemma move_processed_files_touches_named_objects_only_witness :
  (move_processed_files [Demo.extraction] Demo.stored_objects).2 !! "incoming/c.pdf"
  = Some "bytes of c".
Proof.
  rewrite move_processed_files_touches_named_objects_only; [reflexivity|..];
    vm_compute; by intros [=]%list_elem_of_singleton.
Defined.

(** X18 -- on a store that does not fail, after a run on records whose
    files lie under [incoming/], no file of a record is left where it was;
    and the object found under the key of a record is, with the same bytes,
    under the record's destination, provided no earlier record has the same
    key and no later record the same destination. *)
Theorem quiet_run_moves_every_file `{Minio}
    (validated_data : list dict) (stored : bucket) :
  quiet ->
  Forall pending validated_data ->
  let final := (move_processed_files validated_data stored).2 in
  (forall key, key ∈ omap file_key_of validated_data -> final !! key = None)
  /\ (forall before data after key bytes,
        validated_data = before ++ data :: after ->
        file_key_of data = Some key ->
        stored !! key = Some bytes ->
        key ∉ omap file_key_of before ->
        destination data key ∉ omap destination_of after ->
        final !! destination data key = Some bytes).
Proof.
  intros Hq Hall final. subst final. unfold move_processed_files. cbn [snd].
  fold (move_start stored). split.
  - intros key Hin. apply list_elem_of_omap in Hin as (data & Hin & Hkey).
    apply list_elem_of_split in Hin as (before & after & ->).
    apply Forall_app in Hall as [_ [Hdata Hafter]%Forall_cons].
    destruct (startswith_incoming key (Hdata key Hkey)) as [name ->].
    unfold move_files. rewrite fold_left_app. cbn [fold_left].
    apply (move_files_incoming_stays_gone after _ name Hq Hafter).
    rewrite (move_file_objects _ _ _ Hkey). by apply moved_source_gone.
  - intros before data after key bytes -> Hkey Hstored Hfirst Hlast.
    apply Forall_app in Hall as [Hbefore [Hdata Hafter]%Forall_cons].
    destruct (startswith_incoming key (Hdata key Hkey)) as [name ->].
    pose proof (destination_leaves_incoming data name) as Hout.
    unfold move_files. rewrite fold_left_app. cbn [fold_left].
    fold (move_files before (move_start stored)).
    fold (move_files after (move_file data (move_files before (move_start stored)))).
    rewrite move_files_frame; [|..|done].
    + rewrite (move_file_objects _ _ _ Hkey), (moved_quiet _ _ _ Hq).
      rewrite move_files_frame; [|done|].
      * cbn [objects move_start]. rewrite Hstored.
        rewrite lookup_delete_ne, lookup_insert_eq; [done|].
        intros Heq. by rewrite <- Heq in Hout.
      * intros (d & Hd & Hdest)%list_elem_of_omap. unfold destination_of in Hdest.
        destruct (file_key_of d) as [k|] eqn:Hk; [|done]. injection Hdest as Hdest.
        rewrite Forall_forall in Hbefore.
        destruct (startswith_incoming k (Hbefore d Hd k Hk)) as [n ->].
        pose proof (destination_leaves_incoming d n) as Hout'.
        by rewrite Hdest in Hout'.
    + intros (d & Hd & Hk)%list_elem_of_omap.
      rewrite Forall_forall in Hafter. pose proof (Hafter d Hd _ Hk) as Hin.
      by rewrite Hin in Hout.
Qed.

Lemma quiet_run_moves_every_file_witness :
  let final := (move_processed_files Demo.extractions Demo.stored_objects).2 in
  final !! "incoming/a.pdf" = None
  /\ final !! "processed/a.pdf" = Some "bytes of a".
Proof.
  intros final.
  destruct (quiet_run_moves_every_file Demo.extractions Demo.stored_objects)
    as [Hgone Hthere].
  - by split.
  - unfold Demo.extractions.
    repeat (apply Forall_cons_2; [intros key Hkey; vm_compute in Hkey;
                                  injection Hkey as <-; reflexivity|]).
    done.
  - split.
    + apply Hgone. vm_compute. apply list_elem_of_here.
    + apply (Hthere [] Demo.extraction
               [<["file_key" := VStr "incoming/c.pdf"]> Demo.extraction_wrong_line;
                failed_result "incoming/b.pdf" "EOF marker not found"]
               "incoming/a.pdf" "bytes of a").
      * reflexivity.
      * vm_compute. reflexivity.
      * vm_compute. reflexivity.
      * by intros ?%elem_of_nil.
      * vm_compute. intros Hin.
        repeat (apply elem_of_cons in Hin as [[=]|Hin]). by apply elem_of_nil in Hin.
Defined.

(** X19 -- a record whose key the replacement of [incoming/] leaves as it
    is has its file copied onto itself and then deleted: on a store that does
    not fail the object is gone from the bucket after the move, and nothing
    else has changed. *)
Theorem move_onto_itself_deletes `{Minio}
    (data : dict) (key : string) (st : move_state) :
  quiet ->
  file_key_of data = Some key ->
  destination data key = key ->
  objects (move_file data st) = delete key (objects st).
Proof.
  intros Hq Hkey Hdest.
  rewrite (move_file_objects _ _ _ Hkey), Hdest, (moved_quiet _ _ _ Hq).
  destruct (objects st !! key) as [bytes|] eqn:Hk.
  - apply map_eq. intros name. destruct (decide (name = key)) as [->|Hne].
    + by rewrite !lookup_delete_eq.
    + by rewrite !lookup_delete_ne, lookup_insert_ne.
  - symmetry. by apply delete_id.
Qed.

Lemma move_onto_itself_deletes_witness :
  objects (move_file Demo.archived
             (move_start (<["archive/a.pdf" := "bytes of a"]> ∅)))
  = ∅.
Proof.
  rewrite (move_onto_itself_deletes Demo.archived "archive/a.pdf").
  - cbn [objects move_start]. by rewrite delete_insert_eq, delete_empty.
  - by split.
  - vm_compute. reflexivity.
  - vm_compute. reflexivity.
Defined.

(** ** Batches, dates and the way to the table *)

(** X20 -- [create_batches] with a batch size that is not positive: a
    negative size gives no batch at all, whatever the list holds, so that
    every file is left out without an error; the size zero raises
    [ValueError] on a list that is not empty and gives no batch on the empty
    one. *)
Theorem create_batches_nonpositive_size {A} (file_keys : list A) (batch_size : Z) :
  (batch_size < 0 -> create_batches file_keys batch_size = Ok [])
  /\ (file_keys <> [] ->
      create_batches file_keys 0
      = Raise (ValueError "range() arg 3 must not be zero"))
  /\ create_batches (@nil A) batch_size = Ok [].
Proof.
  split_and!.
  - intros Hneg. destruct file_keys as [|x l]; [done|].
    unfold create_batches, Py.range, Py.range_len.
    destruct (Z.eqb_spec batch_size 0) as [->|_]; [lia|].
    destruct (Z.ltb_spec 0 batch_size) as [?|_]; [lia|].
    destruct (Z.ltb_spec (Z.of_nat (length (x :: l))) 0) as [?|_]; [lia|].
    reflexivity.
  - by destruct file_keys.
  - reflexivity.
Qed.

(** *** The [Z] of a timestamp *)

Lemma replace_Z_app (s1 s2 : string) :
  Str.replace "Z" "+00:00" (s1 ++ s2)
  = (Str.replace "Z" "+00:00" s1 ++ Str.replace "Z" "+00:00" s2)%string.
Proof.
  unfold Str.replace. induction s1 as [|c s1 IH]; [done|].
  change (String c s1 ++ s2)%string with (String c (s1 ++ s2)).
  cbn [Str.replace_go Str.startswith String.length Nat.sub].
  rewrite IH. destruct (Ascii.eqb "Z" c); reflexivity.
Qed.

(** X21 -- a timestamp written with a final [Z] is read as the same
    timestamp written with [+00:00], by validation and by persistence alike:
    the two stages accept or refuse the two spellings together and get the
    same [datetime] from them. *)
Theorem z_suffix_is_utc_offset `{Runtime} `{Models.Pydantic}
    (data : dict) (s : string) :
  let with_z := <["data_hora" := VStr (s ++ "Z")]> data in
  let with_offset := <["data_hora" := VStr (s ++ "+00:00")]> data in
  Models.to_option (Models.required_datetime with_z)
  = Models.to_option (Models.required_datetime with_offset)
  /\ (forall t, order_datetime_of with_z = Ok t <-> order_datetime_of with_offset = Ok t).
Proof.
  intros with_z with_offset. subst with_z with_offset.
  unfold Models.required_datetime, Models.parse_datetime, order_datetime_of,
    get_default.
  rewrite !lookup_insert_eq. cbn [from_option id].
  rewrite !replace_Z_app.
  change (Str.replace "Z" "+00:00" "Z") with "+00:00"%string.
  change (Str.replace "Z" "+00:00" "+00:00") with "+00:00"%string.
  by destruct (fromisoformat _).
Qed.

(** *** From validation to the table *)

Section Stored.
Context `{Runtime} `{Clock} `{Db.Postgres} `{Models.Pydantic}.

Lemma required_str_present d name s :
  Models.required_str d name = Models.Valid s -> is_Some (d !! name).
Proof. unfold Models.required_str. by destruct (d !! name). Qed.

Lemma required_datetime_parsed d t :
  Models.required_datetime d = Models.Valid t ->
  exists order_datetime, order_datetime_of d = Ok order_datetime.
Proof.
  unfold Models.required_datetime, Models.parse_datetime, order_datetime_of,
    get_default.
  destruct (d !! "data_hora") as [v|]; [|done]. cbn [from_option id].
  destruct v; try by eexists.
  destruct (fromisoformat _); [by eexists|done].
Qed.

Lemma order_datetime_of_passed extraction :
  order_datetime_of (passed extraction) = order_datetime_of extraction.
Proof.
  unfold order_datetime_of, passed, get_default. by rewrite !lookup_insert_ne.
Qed.
End Stored.

(** X22 -- a record that validation marks [success] is always sent to the
    database, under its own order id: its [data_hora] parses in persistence
    as it did in validation, its [order_id] key is present, so that no
    [UNKNOWN_] id is made up for it, and when the server takes the statement
    the record is counted as a success. *)
Theorem validated_success_reaches_the_table
    `{Runtime} `{Clock} `{Db.Postgres} `{Models.Pydantic}
    (extraction validated : dict) (st : store_state) :
  validate_extraction extraction = Ok validated ->
  validated !! "status" = Some (VStr "success") ->
  exists order_datetime order_id,
    order_datetime_of validated = Ok order_datetime
    /\ validated !! "order_id" = Some order_id
    /\ Db.order_id (insert_params validated order_datetime (clock_readings st))
       = order_id
    /\ (Db.reject (insert_params validated order_datetime (clock_readings st)) = None ->
        success_count (store_record validated st) = success_count st + 1
        /\ failed_count (store_record validated st) = failed_count st).
Proof.
  intros Hrun%validate_extraction_Ok Hstatus.
  destruct Hrun as [[Hst ->]|[(Hst & [r Hr] & ->)|(_ & errors & _ & _ & ->)]].
  - unfold eq_str in Hst. by rewrite Hstatus in Hst.
  - unfold check_extraction in Hr.
    destruct (Models.InvoiceData_validate extraction) as [[inv|errs]|e] eqn:Hv;
      try done.
    apply InvoiceData_validate_Valid in Hv as [(Ho & _ & _ & _ & Hd & _) _].
    destruct (required_datetime_parsed _ _ Hd) as [order_datetime Hod].
    destruct (required_str_present _ _ _ Ho) as [order_id Hoid].
    exists order_datetime, order_id.
    assert (passed extraction !! "order_id" = Some order_id) as Hoid'
      by (unfold passed; by rewrite !lookup_insert_ne).
    split_and!.
    + by rewrite order_datetime_of_passed.
    + done.
    + unfold insert_params, get_default. cbn [Db.order_id]. by rewrite Hoid'.
    + intros Hacc. unfold store_record.
      assert (eq_str (passed extraction !! "status") "failed" = false) as ->
        by (unfold passed; by rewrite lookup_insert_eq).
      rewrite order_datetime_of_passed, Hod.
      unfold Db.insert_invoice. by rewrite Hacc.
  - unfold needs_review in Hstatus. by rewrite lookup_insert_eq in Hstatus.
Qed.

Lemma validated_success_reaches_the_table_witness :
  validate_extraction Demo.extraction = Ok (passed Demo.extraction)
  /\ success_count (store_record (passed Demo.extraction) Demo.fresh_store) = 1.
Proof.
  assert (exists r, check_extraction Demo.extraction = Ok (Models.Valid r))
    as [r Hcheck] by (vm_compute; eexists; reflexivity).
  assert (validate_extraction Demo.extraction = Ok (passed Demo.extraction)) as Hrun.
  { eapply validate_extraction_passed; [vm_compute; reflexivity|done]. }
  split; [exact Hrun|].
  destruct (validated_success_reaches_the_table Demo.extraction
              (passed Demo.extraction) Demo.fresh_store Hrun)
    as (order_datetime & order_id & _ & _ & _ & Hstored).
  - unfold passed. by rewrite lookup_insert_eq.
  - by destruct Hstored as [-> _].
Defined.

(** X23 -- validation takes the records one by one: on two lists put end to
    end it returns exactly when it returns on both, with the two results put
    end to end, and it raises what the first list raises, or else what the
    second does. *)
Theorem validate_extractions_app `{Runtime} `{Models.Pydantic}
    (first second : list dict) :
  validate_extractions (first ++ second)
  = (validated_first <~ validate_extractions first ;;
     validated_second <~ validate_extractions second ;;
     Ok (validated_first ++ validated_second)).
Proof.
  induction first as [|extraction first IH]; simpl.
  { by destruct (validate_extractions second). }
  destruct (validate_extraction extraction) as [r|e]; [|done]. simpl.
  rewrite IH. destruct (validate_extractions first) as [rs|e]; [|done]. simpl.
  by destruct (validate_extractions second).
Qed.
